(** * Octarine market maker: dedup cache, nonce sequencer, retry policy,
      stream client

    A shallow embedding of the concurrency and deduplication core of the
    market-maker bot (TypeScript) and the properties its specification
    states about it.

    Conventions of the embedding:
    - a JavaScript [number] holding an integer (timestamps, nonces, chain
      ids, attempt counts) is a [Z]; delays, health factors and prices,
      which are fractional, are exact rationals [Q] (the doubles of
      JavaScript without their rounding);
    - an [async] function is a function on an explicit world state: every
      [await]ed external call takes the world and returns a result or a
      thrown error together with the next world;
    - a thrown error is the right injection of a sum;
    - the interleaving of asynchronous tasks is a list of labels consumed by
      an executable step function. *)

From Stdlib Require Import ZArith List Bool String Ascii Lia QArith Qminmax.
From Stdlib Require Import DecimalString.
From Stdlib Require Import Sorted Permutation.
Import ListNotations.

Set Implicit Arguments.
Unset Strict Implicit.

Local Open Scope string_scope.
Local Open Scope Z_scope.
Local Open Scope list_scope.

(** ** JavaScript values shared by the modules *)
Module Js.

(** [String.prototype.toLowerCase] on the ASCII range. *)
Definition lower_ascii (c : ascii) : ascii :=
  let n := nat_of_ascii c in
  if andb (Nat.leb 65 n) (Nat.leb n 90) then ascii_of_nat (n + 32) else c.

Fixpoint toLowerCase (s : string) : string :=
  match s with
  | EmptyString => EmptyString
  | String c r => String (lower_ascii c) (toLowerCase r)
  end.

(** [hay.includes(needle)] *)
Fixpoint includes (hay needle : string) : bool :=
  if String.prefix needle hay then true
  else match hay with
       | EmptyString => false
       | String _ r => includes r needle
       end.

(** What a [catch] clause can receive.  [instanceOfError] is the result of
    [error instanceof Error]; the other fields are the properties the code
    reads ([undefined] is [None]); [status] is [response?.status]. *)
Record ErrorObject := mkErrorObject {
  instanceOfError : bool;
  message : option string;
  code : option string;
  status : option Z
}.

Inductive Thrown :=
| NonObject          (* a primitive or null: typeof e !== 'object' || e === null *)
| Obj (e : ErrorObject).

(** [new Error(msg)] *)
Definition Error (msg : string) : Thrown :=
  Obj (mkErrorObject true (Some msg) None None).

(** [err.message?.toLowerCase().includes(needle)], [undefined] being falsy *)
Definition messageMentions (err : ErrorObject) (needle : string) : bool :=
  match message err with
  | Some m => includes (toLowerCase m) needle
  | None => false
  end.

Definition codeIs (err : ErrorObject) (c : string) : bool :=
  match code err with
  | Some k => String.eqb k c
  | None => false
  end.

End Js.

(** ** utils/retry.ts *)
Module Retry.
Import Js.

Record RetryOptions := mkRetryOptions {
  maxAttempts : Z;
  initialDelayMs : Q;
  maxDelayMs : Q;
  backoffMultiplier : Q;
  retryableErrors : option (Thrown -> bool)
}.

Definition isRetryableApiError (error : Thrown) : bool :=
  match error with
  | Obj err =>
      if codeIs err "ECONNRESET" || codeIs err "ETIMEDOUT" || codeIs err "ENOTFOUND"
      then true
      else match status err with
           | Some st =>
               if Z.eqb st 0 then messageMentions err "timeout"
               else Z.eqb st 429 || Z.leb 500 st
           | None => messageMentions err "timeout"
           end
  | NonObject => false
  end.

Definition isRetryableTxError (error : Thrown) : bool :=
  match error with
  | Obj err =>
      if messageMentions err "nonce" then true
      else if messageMentions err "replacement fee" then true
      else if codeIs err "NETWORK_ERROR" || codeIs err "TIMEOUT" then true
      else false
  | NonObject => false
  end.

(** The disjunction [isRetryableTxError] tests on an object. *)
Definition txRetryable (err : ErrorObject) : bool :=
  messageMentions err "nonce" || messageMentions err "replacement fee"
  || codeIs err "NETWORK_ERROR" || codeIs err "TIMEOUT".

Definition API_RETRY_DEFAULTS : RetryOptions :=
  mkRetryOptions 3 (1000 # 1) (10000 # 1) (2 # 1) (Some isRetryableApiError).

Definition TX_RETRY_DEFAULTS : RetryOptions :=
  mkRetryOptions 2 (2000 # 1) (5000 # 1) (3 # 2) (Some isRetryableTxError).

(** What [withRetry] does that an observer can see: it calls [fn], and it
    sleeps ([await delay(ms)]). *)
Inductive Action :=
| Attempt
| Wait (ms : Q).

(** [throw lastError] after the loop throws [undefined] when the loop body
    never ran. *)
Inductive Outcome (T : Type) :=
| Returned (v : T)
| Threw (e : Thrown)
| ThrewUndefined.
Arguments Threw {T} e.
Arguments ThrewUndefined {T}.

Section WithRetry.
Variables W T : Type.
(** the operation: one call, from a world, gives a value or throws *)
Variable fn : W -> (T + Thrown) * W.
Variable options : RetryOptions.

Definition throwLast (lastError : option Thrown) : Outcome T :=
  match lastError with
  | Some e => Threw e
  | None => ThrewUndefined
  end.

(** The [for] loop; [fuel] bounds the iterations left, the loop test is
    the source's [attempt <= options.maxAttempts]. *)
Fixpoint retryLoop (fuel : nat) (attempt : Z) (currentDelay : Q)
         (lastError : option Thrown) (w : W) (done : list Action)
  : Outcome T * W * list Action :=
  match fuel with
  | O => (throwLast lastError, w, done)
  | S fuel' =>
      if Z.leb attempt (maxAttempts options) then
        match fn w with
        | (inl v, w') => (Returned v, w', done ++ [Attempt])
        | (inr error, w') =>
            let isRetryable :=
              match retryableErrors options with
              | Some classify => classify error
              | None => true
              end in
            let hasMoreAttempts := Z.ltb attempt (maxAttempts options) in
            if negb isRetryable || negb hasMoreAttempts
            then (Threw error, w', done ++ [Attempt])
            else retryLoop fuel' (attempt + 1)
                   (Qmin (currentDelay * backoffMultiplier options)
                         (maxDelayMs options))
                   (Some error) w'
                   (done ++ [Attempt; Wait currentDelay])
        end
      else (throwLast lastError, w, done)
  end.

Definition withRetry (w : W) : Outcome T * W * list Action :=
  retryLoop (Z.to_nat (maxAttempts options)) 1 (initialDelayMs options)
            None w [].

Definition attempts (r : Outcome T * W * list Action) : nat :=
  List.length (List.filter (fun a => match a with Attempt => true | _ => false end)
                 (snd r)).

Definition waits (r : Outcome T * W * list Action) : list Q :=
  flat_map (fun a => match a with Wait d => [d] | _ => [] end) (snd r).
End WithRetry.

(** [options.retryableErrors?.(error) ?? true] *)
Definition classifies (options : RetryOptions) (error : Thrown) : bool :=
  match retryableErrors options with
  | Some classify => classify error
  | None => true
  end.

(** An operation that fails on every call; the world counts the calls. *)
Definition alwaysFails (e : Thrown) (calls : nat) : (unit + Thrown) * nat :=
  (inr e, S calls).

Definition nonceTooLow : Thrown := Error "nonce too low".
Definition networkError : ErrorObject :=
  mkErrorObject true (Some "could not detect network") (Some "NETWORK_ERROR") None.

Definition neverRetry : RetryOptions :=
  mkRetryOptions 5 (100 # 1) (150 # 1) (2 # 1) (Some (fun _ => false)).
Definition alwaysRetry : RetryOptions :=
  mkRetryOptions 3 (100 # 1) (150 # 1) (2 # 1) (Some (fun _ => true)).

End Retry.

(** ** services/wallet/index.ts *)
Module Wallet.
Import Js.

(** The part of a [WalletManager] that changes: the cached nonce, [null]
    being [None]. *)
Record WalletManager := mkWalletManager { currentNonce : option Z }.

(** What the ledger and the callback see of one [executeTransaction]. *)
Inductive Action :=
| QueryLedger           (* provider.getTransactionCount(address, 'pending') *)
| Invoke (nonce : Z).   (* fn(wallet, nonce) *)

(** [base, base+1, ..., base+n-1] *)
Definition consecutive (base : Z) (n : nat) : list Z :=
  map (fun k => base + Z.of_nat k) (seq 0 n).

Section Sequencer.
Variables W T : Type.
(** [provider.getTransactionCount(address, 'pending')] *)
Variable getTransactionCount : W -> (Z + Thrown) * W.

Definition syncNonce (wm : WalletManager) (w : W)
  : (unit + Thrown) * WalletManager * W :=
  match getTransactionCount w with
  | (inl n, w') => (inl tt, mkWalletManager (Some n), w')
  | (inr e, w') => (inr e, wm, w')
  end.

(** The [try]/[catch] around [await fn(this.wallet, nonce)]. *)
Definition settle (nonce : Z) (r : T + Thrown) : (T + Thrown) * WalletManager :=
  match r with
  | inl result => (inl result, mkWalletManager (Some (nonce + 1)))
  | inr error => (inr error, mkWalletManager None)
  end.

Definition invoke (fn : Z -> W -> (T + Thrown) * W) (nonce : Z) (w : W)
           (done : list Action)
  : (T + Thrown) * WalletManager * W * list Action :=
  let '(r, w') := fn nonce w in
  let '(res, wm') := settle nonce r in
  (res, wm', w', done ++ [Invoke nonce]).

(** The callback handed to [mutex.runExclusive], run with the mutex
    held: nothing else touches [currentNonce] meanwhile.  After a
    [syncNonce] that returned, [this.currentNonce!] is the number just
    stored; the branch for [null] there is never taken. *)
Definition executeTransaction (fn : Z -> W -> (T + Thrown) * W)
           (wm : WalletManager) (w : W)
  : (T + Thrown) * WalletManager * W * list Action :=
  match currentNonce wm with
  | None =>
      match syncNonce wm w with
      | (inr e, wm', w') => (inr e, wm', w', [QueryLedger])
      | (inl _, wm', w') =>
          match currentNonce wm' with
          | Some nonce => invoke fn nonce w' [QueryLedger]
          | None => (inr NonObject, wm', w', [QueryLedger])
          end
      end
  | Some nonce => invoke fn nonce w []
  end.

(** *** Concurrent callers

    [async-mutex]'s [runExclusive] queues callers first come, first
    served.  A call that holds the mutex is suspended at its [await]s:
    after entering, and while its callback runs.  Meanwhile other calls
    can only arrive and queue up. *)
Inductive Stage :=
| Entered              (* holds the mutex, has not read currentNonce yet *)
| Calling (nonce : Z). (* awaiting fn(wallet, nonce) *)

Record Sys := mkSys {
  wallet : WalletManager;
  holder : option (nat * Stage);
  queue : list nat;
  world : W;
  used : list (nat * Z);                (* call, nonce passed to its callback *)
  settled : list (nat * (T + Thrown))   (* call, what it returned or threw *)
}.

Inductive Label :=
| Call (i : nat)       (* call number i invokes executeTransaction(fns i) *)
| Progress             (* the holder of the mutex resumes at its await *)
| Env (f : W -> W).    (* the ledger moves on by itself *)

(** the callback of call number [i] *)
Variable fns : nat -> Z -> W -> (T + Thrown) * W.

(** [release()] in the [finally] of [runExclusive] *)
Definition release (s : Sys) : Sys :=
  match queue s with
  | [] => mkSys (wallet s) None [] (world s) (used s) (settled s)
  | j :: q => mkSys (wallet s) (Some (j, Entered)) q (world s) (used s) (settled s)
  end.

Definition step (l : Label) (s : Sys) : Sys :=
  match l with
  | Call i =>
      match holder s with
      | None => mkSys (wallet s) (Some (i, Entered)) (queue s) (world s)
                      (used s) (settled s)
      | Some _ => mkSys (wallet s) (holder s) (queue s ++ [i]) (world s)
                        (used s) (settled s)
      end
  | Env f => mkSys (wallet s) (holder s) (queue s) (f (world s))
                   (used s) (settled s)
  | Progress =>
      match holder s with
      | None => s
      | Some (i, Entered) =>
          match currentNonce (wallet s) with
          | Some nonce =>
              mkSys (wallet s) (Some (i, Calling nonce)) (queue s) (world s)
                    (used s ++ [(i, nonce)]) (settled s)
          | None =>
              match syncNonce (wallet s) (world s) with
              | (inr e, wm', w') =>
                  release (mkSys wm' None (queue s) w' (used s)
                                 (settled s ++ [(i, inr e)]))
              | (inl _, wm', w') =>
                  match currentNonce wm' with
                  | Some nonce =>
                      mkSys wm' (Some (i, Calling nonce)) (queue s) w'
                            (used s ++ [(i, nonce)]) (settled s)
                  | None =>
                      release (mkSys wm' None (queue s) w' (used s)
                                     (settled s ++ [(i, inr NonObject)]))
                  end
              end
          end
      | Some (i, Calling nonce) =>
          let '(r, w') := fns i nonce (world s) in
          let '(res, wm') := settle nonce r in
          release (mkSys wm' None (queue s) w' (used s)
                         (settled s ++ [(i, res)]))
      end
  end.

Definition run (ls : list Label) (s : Sys) : Sys :=
  fold_left (fun st l => step l st) ls s.

(** the cached nonce is [base], nobody has called yet *)
Definition init (base : Z) (w : W) : Sys :=
  mkSys (mkWalletManager (Some base)) None [] w [] [].

Definition calls (ls : list Label) : list nat :=
  flat_map (fun l => match l with Call i => [i] | _ => [] end) ls.

(** every call made has returned or thrown *)
Definition quiescent (s : Sys) : Prop :=
  holder s = None /\ queue s = [].

Definition nonces (s : Sys) : list Z := map snd (used s).

(** the calls that hold or wait for the mutex and whose callback has not
    been invoked yet *)
Definition waiting (s : Sys) : list nat :=
  match holder s with
  | Some (i, Entered) => i :: queue s
  | _ => queue s
  end.

(** the next nonce to hand out, as the cache stands between two callbacks *)
Definition cacheAgrees (base : Z) (s : Sys) : Prop :=
  let k := Z.of_nat (List.length (used s)) in
  match holder s with
  | Some (_, Calling n) => currentNonce (wallet s) = Some n /\ n + 1 = base + k
  | _ => currentNonce (wallet s) = Some (base + k)
  end.

(** What holds between any two steps as long as no callback has failed: the
    nonces handed out so far are consecutive from [base], the cache holds
    the next one, and every call made either got its nonce or waits. *)
Definition invariant (base : Z) (made : list nat) (s : Sys) : Prop :=
  nonces s = consecutive base (List.length (used s))
  /\ Permutation made (map fst (used s) ++ waiting s)
  /\ cacheAgrees base s.

(** [r] is a value returned, not an error thrown *)
Definition returned (r : T + Thrown) : bool :=
  match r with
  | inl _ => true
  | inr _ => false
  end.

(** every call that has settled so far returned: no callback threw and no
    query of the ledger failed *)
Definition allReturned (s : Sys) : bool :=
  forallb (fun p => returned (snd p)) (settled s).
End Sequencer.
Arguments Call {W} i.
Arguments Progress {W}.
Arguments Env {W} f.

(** A ledger whose pending transaction count is the world itself; a
    callback that is rejected before anything is broadcast, and one that
    broadcasts a transaction. *)
Definition countLedger (w : Z) : (Z + Thrown) * Z := (inl w, w).
Definition rejected (nonce : Z) (w : Z) : (unit + Thrown) * Z :=
  (inr (Error "insufficient funds for gas"), w).
Definition broadcast (nonce : Z) (w : Z) : (unit + Thrown) * Z :=
  (inl tt, Z.max w (nonce + 1)).
Definition firstRejected (i : nat) : Z -> Z -> (unit + Thrown) * Z :=
  match i with
  | O => rejected
  | _ => broadcast
  end.
Definition allBroadcast (i : nat) : Z -> Z -> (unit + Thrown) * Z := broadcast.

(** A callback that the node refuses unless its nonce is the pending
    transaction count: it can fail, and does not when the nonces are handed
    out in sequence. *)
Definition broadcastChecked (nonce : Z) (w : Z) : (unit + Thrown) * Z :=
  if Z.eqb nonce w then (inl tt, w + 1) else (inr (Error "nonce too low"), w).
Definition allChecked (i : nat) : Z -> Z -> (unit + Thrown) * Z := broadcastChecked.

(** Two calls arrive together; the mutex serves them one after the other. *)
Definition twoCalls : list (Label Z) :=
  [Call 0%nat; Call 1%nat; Progress; Progress; Progress; Progress].

(** Three calls, the later ones arriving while an earlier one is at work,
    and a block mined in between. *)
Definition threeCalls : list (Label Z) :=
  [Call 2%nat; Progress; Call 0%nat; Env (fun w => w + 5); Progress; Progress;
   Call 1%nat; Progress; Progress; Progress].

End Wallet.

(** ** The processed-id cache of loops/bidding.ts and loops/liquidation.ts

    [processedRequests] and [processedLiquidations] are [Map<string, number>]
    from an id to the [Date.now()] at which it was recorded.  A JavaScript
    [Map] iterates in insertion order and holds a key once, so it is an
    association list in insertion order. *)
Module Dedup.

Definition Cache := list (string * Z).

Definition CLEANUP_INTERVAL_MS : Z := 60 * 60 * 1000.
Definition MAX_PROCESSED_ENTRIES : nat := 1000.

Definition keys (m : Cache) : list string := map fst m.

(** [m.has(id)] *)
Definition has (id : string) (m : Cache) : bool :=
  existsb (fun e => String.eqb (fst e) id) m.

(** [m.delete(id)] *)
Definition delete (id : string) (m : Cache) : Cache :=
  filter (fun e => negb (String.eqb (fst e) id)) m.

(** [m.set(id, t)]: a key already present keeps its place *)
Fixpoint set (id : string) (t : Z) (m : Cache) : Cache :=
  match m with
  | [] => [(id, t)]
  | (k, v) :: r => if String.eqb k id then (k, t) :: r else (k, v) :: set id t r
  end.

(** [entries.sort((a, b) => a[1] - b[1])]: [Array.prototype.sort] is
    stable, so a stable insertion sort gives the same array: an entry
    goes in front of the first one that is not older than it. *)
Fixpoint insertByTime (e : string * Z) (l : list (string * Z)) : list (string * Z) :=
  match l with
  | [] => [e]
  | x :: r => if Z.leb (snd e) (snd x) then e :: x :: r
              else x :: insertByTime e r
  end.

Definition sortByTime (l : list (string * Z)) : list (string * Z) :=
  fold_right insertByTime [] l.

(** [for (const [id] of toRemove) m.delete(id)] *)
Definition deleteAll (toRemove : list (string * Z)) (m : Cache) : Cache :=
  fold_left (fun acc e => delete (fst e) acc) toRemove m.

(** what deleting the ids of [gone] keeps: the entries with another id *)
Definition without (gone : list (string * Z)) (e : string * Z) : bool :=
  negb (existsb (String.eqb (fst e)) (keys gone)).

(** the first loop: [if (timestamp < oneHourAgo) m.delete(id)] *)
Definition dropExpired (oneHourAgo : Z) (m : Cache) : Cache :=
  filter (fun e => negb (Z.ltb (snd e) oneHourAgo)) m.

(** [entries.slice(0, entries.length - max)] *)
Definition oldestOver (max : nat) (entries : list (string * Z)) : list (string * Z) :=
  firstn (List.length entries - max) entries.

Definition evictOver (max : nat) (m : Cache) : Cache :=
  if Nat.ltb max (List.length m)
  then deleteAll (oldestOver max (sortByTime m)) m
  else m.

(** [cleanupProcessedRequests] and [cleanupProcessedLiquidations] are the
    same function on two maps; [now] is [Date.now()]. *)
Definition cleanup (max : nat) (now : Z) (m : Cache) : Cache :=
  let oneHourAgo := now - CLEANUP_INTERVAL_MS in
  evictOver max (dropExpired oneHourAgo m).

Definition cleanupProcessedRequests (now : Z) (m : Cache) : Cache :=
  cleanup MAX_PROCESSED_ENTRIES now m.

Definition cleanupProcessedLiquidations (now : Z) (m : Cache) : Cache :=
  cleanup MAX_PROCESSED_ENTRIES now m.

(** [now - timestamp] *)
Definition age (now : Z) (e : string * Z) : Z := now - snd e.

(** oldest first *)
Definition byTime (a b : string * Z) : Prop := snd a <= snd b.

(** Four ids recorded at 10, 40, 20 and 30 ms. *)
Definition fourEntries : Cache :=
  [("rfq-a", 10); ("rfq-b", 40); ("rfq-c", 20); ("rfq-d", 30)].

End Dedup.

(** ** loops/bidding.ts: the two ingestion paths of [startBiddingLoop]

    The polling loop and the WebSocket handler both test [processedRequests],
    both call [processSingleRequest], and both record the id when that call
    has settled.  [processSingleRequest] is suspended at three [await]s
    (approval, signing, bid submission); between them other tasks run. *)
Module Bidding.
Import Dedup.

Inductive Channel := Poll | Stream.

Definition Channel_eqb (a b : Channel) : bool :=
  match a, b with
  | Poll, Poll | Stream, Stream => true
  | _, _ => false
  end.

(** Where a call of [processSingleRequest] and its continuation stand. *)
Inductive Stage :=
| AwaitApprove   (* await approveTokenToExchangeProxy(...) *)
| AwaitSign      (* await signLimitOrder(...) *)
| AwaitSubmit    (* await submitBid(...) *)
| Settled        (* processSingleRequest returned; the caller has not resumed *)
| Done.          (* the caller ran processedRequests.set(id, Date.now()) *)

Definition Stage_eqb (a b : Stage) : bool :=
  match a, b with
  | AwaitApprove, AwaitApprove | AwaitSign, AwaitSign
  | AwaitSubmit, AwaitSubmit | Settled, Settled | Done, Done => true
  | _, _ => false
  end.

Inductive Event :=
| Processing (id : string)    (* logger.info('Processing request') *)
| Approve (id : string)       (* approveTokenToExchangeProxy called *)
| Sign (id : string)          (* signLimitOrder called *)
| Submit (id : string)        (* submitBid called *)
| NotifyError (id : string).  (* the catch block *)

(** The stage of a call of [processSingleRequest] once the call it awaits
    has answered, by returning ([ok]) or by throwing; for a call that has
    settled, once its caller has resumed. *)
Definition advance (st : Stage) (ok : bool) : Stage :=
  match st with
  | AwaitApprove => if ok then AwaitSign else Settled
  | AwaitSign => if ok then AwaitSubmit else Settled
  | AwaitSubmit => Settled
  | Settled => Done
  | Done => Done
  end.

(** [submitBid] is called when the signature has come back *)
Definition submitsOn (st : Stage) (ok : bool) : bool :=
  match st with
  | AwaitSign => ok
  | _ => false
  end.

(** where a call at stage [st] stands after the answers [oks], and how
    often it has called [submitBid] on the way *)
Fixpoint follow (st : Stage) (oks : list bool) : Stage * nat :=
  match oks with
  | [] => (st, O)
  | ok :: rest =>
      let '(st', n) := follow (advance st ok) rest in
      (st', ((if submitsOn st ok then 1 else 0) + n)%nat)
  end.

(** the approval and the signature both came back *)
Definition approvedAndSigned (oks : list bool) : bool :=
  match oks with
  | true :: true :: _ => true
  | _ => false
  end.

Section Loop.
Variable Request : Type.
Variable requestId : Request -> string.
(** [shouldBidOnRequest(request, cfg)] at time [now], and whether
    [request.metadata?.rfqOrder] is there *)
Variable shouldBidOnRequest : Request -> Z -> bool.
Variable hasRfqOrder : Request -> bool.

Record Task := mkTask { channel : Channel; request : Request; stage : Stage }.

Record State := mkState {
  processedRequests : Cache;
  tasks : list Task;
  events : list Event
}.

Inductive Label :=
| Deliver (ch : Channel) (r : Request) (now : Z)
    (* the for loop of the poller reaches r, or the stream emits r *)
| Resume (k : nat) (ok : bool) (now : Z)
    (* task k resumes: the call it awaited returned (ok) or threw *)
| Sweep (now : Z).
    (* cleanupProcessedRequests() *)

Definition pollBusy (ts : list Task) : bool :=
  existsb (fun t => Channel_eqb (channel t) Poll && negb (Stage_eqb (stage t) Done)) ts.

(** [processSingleRequest] up to its first [await] *)
Definition start (ch : Channel) (r : Request) (now : Z) (s : State) : State :=
  let id := requestId r in
  if shouldBidOnRequest r now && hasRfqOrder r
  then mkState (processedRequests s)
               (tasks s ++ [mkTask ch r AwaitApprove])
               (events s ++ [Processing id; Approve id])
  else mkState (processedRequests s)
               (tasks s ++ [mkTask ch r Settled])
               (events s ++ [Processing id]).

Fixpoint setStage (k : nat) (st : Stage) (ts : list Task) : list Task :=
  match ts, k with
  | [], _ => []
  | t :: r, O => mkTask (channel t) (request t) st :: r
  | t :: r, S k' => t :: setStage k' st r
  end.

Definition resume (k : nat) (ok : bool) (now : Z) (s : State) : State :=
  match nth_error (tasks s) k with
  | None => s
  | Some t =>
      let id := requestId (request t) in
      let failed :=
        mkState (processedRequests s) (setStage k Settled (tasks s))
                (events s ++ [NotifyError id]) in
      match stage t with
      | AwaitApprove =>
          if ok then mkState (processedRequests s) (setStage k AwaitSign (tasks s))
                             (events s ++ [Sign id])
          else failed
      | AwaitSign =>
          if ok then mkState (processedRequests s) (setStage k AwaitSubmit (tasks s))
                             (events s ++ [Submit id])
          else failed
      | AwaitSubmit =>
          if ok then mkState (processedRequests s) (setStage k Settled (tasks s))
                             (events s)
          else failed
      | Settled =>
          mkState (set id now (processedRequests s)) (setStage k Done (tasks s))
                  (events s)
      | Done => s
      end
  end.

Definition step (l : Label) (s : State) : State :=
  match l with
  | Deliver ch r now =>
      if has (requestId r) (processedRequests s) then s
      else if Channel_eqb ch Poll && pollBusy (tasks s) then s
      else start ch r now s
  | Resume k ok now => resume k ok now s
  | Sweep now =>
      mkState (cleanupProcessedRequests now (processedRequests s)) (tasks s) (events s)
  end.

Definition run (ls : list Label) (s : State) : State :=
  fold_left (fun st l => step l st) ls s.

Definition initial : State := mkState [] [] [].

(** [id] is in the cache after label [l] if [l] is a sweep *)
Definition keptBy (id : string) (l : Label) (s : State) : bool :=
  match l with
  | Sweep now => has id (cleanupProcessedRequests now (processedRequests s))
  | _ => true
  end.

(** no sweep of the run [ls] from [s] removes [id] *)
Fixpoint survives (id : string) (ls : list Label) (s : State) : bool :=
  match ls with
  | [] => true
  | l :: rest => keptBy id l s && survives id rest (step l s)
  end.

(** the number of times [submitBid] was called for [id] *)
Definition submissions (id : string) (s : State) : nat :=
  List.length (filter (fun e => match e with
                                | Submit i => String.eqb i id
                                | _ => false
                                end) (events s)).

(** task [t] is a call of [processSingleRequest] for [id] whose caller has
    not recorded the id yet *)
Definition busyWith (id : string) (t : Task) : bool :=
  String.eqb (requestId (request t)) id && negb (Stage_eqb (stage t) Done).

Definition inFlight (id : string) (s : State) : bool :=
  existsb (busyWith id) (tasks s).

(** recorded, and no call of [processSingleRequest] for it under way *)
Definition claimed (id : string) (s : State) : Prop :=
  has id (processedRequests s) = true /\ inFlight id s = false.

(** [l] is a delivery of the request [id] *)
Definition delivers (id : string) (l : Label) : bool :=
  match l with
  | Deliver _ r _ => String.eqb (requestId r) id
  | _ => false
  end.

(** what the calls awaited by task [k] answered, in the order in which the
    task resumed: the approval, the signature, the submission *)
Definition answers (k : nat) (ls : list Label) : list bool :=
  flat_map (fun l => match l with
                     | Resume j ok _ => if Nat.eqb j k then [ok] else []
                     | _ => []
                     end) ls.

(** task [k] is the call of [processSingleRequest] for [r], at stage [st],
    and every other call made for the id has been recorded by its caller *)
Definition onlyCall (id : string) (k : nat) (ch : Channel) (r : Request)
           (st : Stage) (s : State) : Prop :=
  nth_error (tasks s) k = Some (mkTask ch r st)
  /\ forall j t, nth_error (tasks s) j = Some t -> j <> k ->
                 String.eqb (requestId (request t)) id = true -> stage t = Done.
End Loop.
Arguments Deliver {Request} ch r now.
Arguments Resume {Request} k ok now.
Arguments Sweep {Request} now.

(** A request is its id here; every request is worth a bid. *)
Definition bothChannels : list (Label string) :=
  [ Deliver Poll "rfq-1" 1000;      (* poller: has("rfq-1") is false *)
    Deliver Stream "rfq-1" 1001;    (* stream: has("rfq-1") is still false *)
    Resume 0 true 1002; Resume 1 true 1003;    (* approvals done, both sign *)
    Resume 0 true 1004; Resume 1 true 1005;    (* signed, both submit *)
    Resume 0 true 1006; Resume 1 true 1007;    (* both bids accepted *)
    Resume 0 true 1008; Resume 1 true 1009 ].  (* both record the id *)

Definition idOf (r : string) : string := r.
Definition alwaysBid (r : string) (now : Z) : bool := true.
Definition withOrder (r : string) : bool := true.

(** While the poller's call for "rfq-1" (task 0) is under way, the stream
    delivers "rfq-2" (task 1), whose approval throws. *)
Definition interleaved : list (Label string) :=
  [ Deliver Stream "rfq-2" 1001;
    Resume 0 true 1002;       (* rfq-1: approved, signing *)
    Resume 1 false 1003;      (* rfq-2: the approval throws *)
    Resume 0 true 1004;       (* rfq-1: signed, submitBid called *)
    Resume 1 true 1005;       (* rfq-2: its caller records it *)
    Resume 0 false 1006;      (* rfq-1: the bid is refused *)
    Resume 0 true 1008 ].     (* rfq-1: its caller records it *)

(** Both channels deliver both ids once more. *)
Definition bothAgain : list (Label string) :=
  [ Deliver Stream "rfq-1" 2000; Deliver Poll "rfq-2" 2001; Sweep 2002;
    Deliver Poll "rfq-1" 2003; Deliver Stream "rfq-2" 2004 ].

End Bidding.

(** ** services/api/websocket.ts *)
Module Stream.
Import Js.

(** A parsed message.  [JUndefined] is what reading an absent property
    gives; [JSON.parse] never returns it. *)
#[warnings="-register-all"]
Inductive Json :=
| JUndefined
| JNull
| JBool (b : bool)
| JNum (n : Z)
| JStr (s : string)
| JArr (items : list Json)
| JObj (fields : list (string * Json)).

Fixpoint lookupField (k : string) (fields : list (string * Json)) : Json :=
  match fields with
  | [] => JUndefined
  | (k', v) :: r => if String.eqb k' k then v else lookupField k r
  end.

(** [v.k] for the property names the handler reads ([type], [data],
    [chainId]): a [TypeError] ([None]) on [null] and [undefined],
    [undefined] on a primitive or an array. *)
Definition getProp (v : Json) (k : string) : option Json :=
  match v with
  | JUndefined | JNull => None
  | JObj fields => Some (lookupField k fields)
  | _ => Some JUndefined
  end.

Record WebSocketConfig := mkConfig {
  url : string;
  reconnectIntervalMs : Z;
  supportedChains : list Z;
  marketMakerAddress : string
}.

Inductive WebSocketEvent :=
| rfq_request (data : Json)
| liquidation (data : Json)
| bid_accepted (data : Json)
| connected
| disconnected (reason : string)
| error.

(** [this.config.supportedChains.includes(v)] *)
Definition includesChain (cfg : WebSocketConfig) (v : Json) : bool :=
  match v with
  | JNum n => existsb (Z.eqb n) (supportedChains cfg)
  | _ => false
  end.

(** [message.type === tag] *)
Definition typeIs (ty : Json) (tag : string) : bool :=
  match ty with
  | JStr s => String.eqb s tag
  | _ => false
  end.

(** The client object and the part of the runtime it acts on: sockets are
    numbered in creation order, timers in [setTimeout] order.  The listeners
    of ['event'] are those of the two loops, which never call back into the
    client; [emit] therefore only records the event. *)
Record Client := mkClient {
  ws : option nat;
  isConnected : bool;
  shouldReconnect : bool;
  reconnectTimeout : option nat;
  timers : list (nat * Z);     (* armed timers: id, delay *)
  nextTimer : nat;
  nextSocket : nat;
  openSockets : list nat;      (* sockets whose readyState is OPEN *)
  closeCalls : list nat;       (* sockets on which close() was called *)
  subscribed : list nat;       (* sockets the subscribe message went to *)
  emitted : list WebSocketEvent
}.

Definition initial : Client :=
  mkClient None false true None [] 0 0 [] [] [] [].

(** How a statement ends: normally, or by throwing to its caller. *)
Inductive Completion (A : Type) :=
| Normal (a : A)
| Abrupt (e : Thrown).
Arguments Abrupt {A} e.

Definition emit (evs : list WebSocketEvent) (c : Client) : Client :=
  mkClient (ws c) (isConnected c) (shouldReconnect c) (reconnectTimeout c)
           (timers c) (nextTimer c) (nextSocket c) (openSockets c)
           (closeCalls c) (subscribed c) (emitted c ++ evs).

Section Handlers.
Variable config : WebSocketConfig.
(** [JSON.parse(text)]: [None] when it throws a [SyntaxError] *)
Variable JSON_parse : string -> option Json.

(** the body of the [try] of [handleMessage]: the events to emit, or
    [None] when something in it throws *)
Definition handleMessageTry (data : string) : option (list WebSocketEvent) :=
  match JSON_parse data with
  | None => None
  | Some message =>
      match getProp message "type" with
      | None => None
      | Some ty =>
          if typeIs ty "rfq_request" then
            match getProp message "data" with
            | None => None
            | Some d =>
                match getProp d "chainId" with
                | None => None
                | Some chain =>
                    if includesChain config chain then Some [rfq_request d]
                    else Some []
                end
            end
          else if typeIs ty "liquidation" then
            match getProp message "data" with
            | None => None
            | Some d =>
                match getProp d "chainId" with
                | None => None
                | Some chain =>
                    if includesChain config chain then Some [liquidation d]
                    else Some []
                end
            end
          else if typeIs ty "bid_accepted" then
            match getProp message "data" with
            | None => None
            | Some d => Some [bid_accepted d]
            end
          else if typeIs ty "pong" then Some []
          else Some []
      end
  end.

(** [try { ... } catch (error) { logger.warn(...) }] *)
Definition handleMessage (c : Client) (data : string) : Completion Client :=
  match handleMessageTry data with
  | Some evs => Normal (emit evs c)
  | None => Normal c
  end.

Definition subscribe (c : Client) : Client :=
  match ws c with
  | Some k =>
      if existsb (Nat.eqb k) (openSockets c)
      then mkClient (ws c) (isConnected c) (shouldReconnect c) (reconnectTimeout c)
                    (timers c) (nextTimer c) (nextSocket c) (openSockets c)
                    (closeCalls c) (subscribed c ++ [k]) (emitted c)
      else c
  | None => c
  end.

Definition scheduleReconnect (c : Client) : Client :=
  match reconnectTimeout c with
  | Some _ => c
  | None =>
      mkClient (ws c) (isConnected c) (shouldReconnect c) (Some (nextTimer c))
               (timers c ++ [(nextTimer c, reconnectIntervalMs config)])
               (S (nextTimer c)) (nextSocket c) (openSockets c)
               (closeCalls c) (subscribed c) (emitted c)
  end.

(** [connect()]; [ctorOk] tells whether [new WebSocket(url)] returns or
    throws (the promise is then rejected, nothing is thrown here) *)
Definition connect (ctorOk : bool) (c : Client) : Client :=
  match ws c with
  | Some _ => c
  | None =>
      if ctorOk
      then mkClient (Some (nextSocket c)) (isConnected c) true (reconnectTimeout c)
                    (timers c) (nextTimer c) (S (nextSocket c)) (openSockets c)
                    (closeCalls c) (subscribed c) (emitted c)
      else mkClient None (isConnected c) true (reconnectTimeout c)
                    (timers c) (nextTimer c) (nextSocket c) (openSockets c)
                    (closeCalls c) (subscribed c) (emitted c)
  end.

(** [clearTimeout(t)] *)
Definition clearTimeout (t : nat) (ts : list (nat * Z)) : list (nat * Z) :=
  filter (fun e => negb (Nat.eqb (fst e) t)) ts.

Definition disconnect (c : Client) : Client :=
  let ts := match reconnectTimeout c with
            | Some t => clearTimeout t (timers c)
            | None => timers c
            end in
  let cl := match ws c with
            | Some k => closeCalls c ++ [k]
            | None => closeCalls c
            end in
  mkClient None false false None ts (nextTimer c) (nextSocket c)
           (openSockets c) cl (subscribed c) (emitted c).

(** the ['open'] handler *)
Definition onOpen (k : nat) (c : Client) : Client :=
  let c1 := mkClient (ws c) true (shouldReconnect c) (reconnectTimeout c)
                     (timers c) (nextTimer c) (nextSocket c) (k :: openSockets c)
                     (closeCalls c) (subscribed c) (emitted c) in
  emit [connected] (subscribe c1).

(** the ['close'] handler *)
Definition onClose (k : nat) (reason : string) (c : Client) : Client :=
  let c1 := mkClient (ws c) false (shouldReconnect c) (reconnectTimeout c)
                     (timers c) (nextTimer c) (nextSocket c)
                     (filter (fun j => negb (Nat.eqb j k)) (openSockets c))
                     (closeCalls c) (subscribed c) (emitted c) in
  let c2 := emit [disconnected reason] c1 in
  if shouldReconnect c2 then scheduleReconnect c2 else c2.

(** the ['error'] handler *)
Definition onError (c : Client) : Client := emit [error] c.

(** the callback given to [setTimeout] in [scheduleReconnect] *)
Definition onTimer (ctorOk : bool) (c : Client) : Client :=
  connect ctorOk
    (mkClient None (isConnected c) (shouldReconnect c) None
              (timers c) (nextTimer c) (nextSocket c) (openSockets c)
              (closeCalls c) (subscribed c) (emitted c)).

Inductive Label :=
| Connect (ctorOk : bool)              (* a caller runs connect() *)
| Disconnect                           (* a caller runs disconnect() *)
| SockOpen (k : nat)
| SockMessage (k : nat) (data : string)
| SockClose (k : nat) (reason : string)
| SockError (k : nat)
| Fire (t : nat) (ctorOk : bool).      (* timer t expires *)

Definition armed (t : nat) (c : Client) : bool :=
  existsb (fun e => Nat.eqb (fst e) t) (timers c).

(** Events of sockets that were never created and of timers that are not
    armed do not happen. *)
Definition step (l : Label) (c : Client) : Client :=
  match l with
  | Connect ok => connect ok c
  | Disconnect => disconnect c
  | SockOpen k => if Nat.ltb k (nextSocket c) then onOpen k c else c
  | SockMessage k data =>
      if Nat.ltb k (nextSocket c)
      then match handleMessage c data with
           | Normal c' => c'
           | Abrupt _ => c
           end
      else c
  | SockClose k reason => if Nat.ltb k (nextSocket c) then onClose k reason c else c
  | SockError k => if Nat.ltb k (nextSocket c) then onError c else c
  | Fire t ok =>
      if armed t c
      then onTimer ok
             (mkClient (ws c) (isConnected c) (shouldReconnect c) (reconnectTimeout c)
                       (clearTimeout t (timers c)) (nextTimer c) (nextSocket c)
                       (openSockets c) (closeCalls c) (subscribed c) (emitted c))
      else c
  end.

Definition run (ls : list Label) (c : Client) : Client :=
  fold_left (fun st l => step l st) ls c.

Definition isConnect (l : Label) : bool :=
  match l with Connect _ => true | _ => false end.

(** the armed timers are the one the client remembers, if any, with the
    configured delay *)
Definition timersTracked (c : Client) : Prop :=
  timers c = match reconnectTimeout c with
             | Some t => [(t, reconnectIntervalMs config)]
             | None => []
             end.

(** [disconnect()] was called and [connect()] not since *)
Definition stopped (c : Client) : Prop :=
  timers c = [] /\ reconnectTimeout c = None
  /\ shouldReconnect c = false /\ ws c = None.

(** the type tags [handleMessage] has a [case] for *)
Definition recognized (message : Json) : bool :=
  match getProp message "type" with
  | Some ty => typeIs ty "rfq_request" || typeIs ty "liquidation"
               || typeIs ty "bid_accepted" || typeIs ty "pong"
  | None => false
  end.
End Handlers.

(** [JSON.parse] on the texts of the examples; any other text is taken as
    not parseable. *)
Definition parseSample (text : string) : option Json :=
  if String.eqb text "null" then Some JNull
  else if String.eqb text "{}" then Some (JObj [])
  else if String.eqb text "[1]" then Some (JArr [JNum 1])
  else if String.eqb text "7" then Some (JNum 7)
  else None.

Definition sampleConfig : WebSocketConfig :=
  mkConfig "wss://api.example/ws" 5000 [98866] "0xmaker".

End Stream.

(** ** services/api/rfq.ts: [callTransform] *)
Module RfqApi.
Import Js Retry.

(** [{ txHash?: string }]; [{}] has no [txHash]. *)
Record TransformResult := mkTransformResult { txHash : option string }.

Definition emptyResult : TransformResult := mkTransformResult None.

Section CallTransform.
Variable W : Type.
(** one [axios.post('/octarine/transform', { requestId })] *)
Variable axiosPost : string -> W -> (TransformResult + Thrown) * W.

(** [ApiClient.post]: the request under [API_RETRY_DEFAULTS] *)
Definition post (requestId : string) (w : W) : (TransformResult + Thrown) * W :=
  match withRetry (axiosPost requestId) API_RETRY_DEFAULTS w with
  | (Returned v, w', _) => (inl v, w')
  | (Threw e, w', _) => (inr e, w')
  | (ThrewUndefined, w', _) => (inr NonObject, w')
  end.

(** [error instanceof Error && error.message.includes('Already executed')];
    the [message] of an [Error] that has none of its own is the empty
    string of [Error.prototype]. *)
Definition alreadyExecuted (error : Thrown) : bool :=
  match error with
  | Obj e =>
      instanceOfError e &&
      match message e with
      | Some m => includes m "Already executed"
      | None => false
      end
  | NonObject => false
  end.

(** [initialized]: [initApiClient] has run, so [getApiClient()] returns *)
Definition callTransform (initialized : bool) (requestId : string) (w : W)
  : (TransformResult + Thrown) * W :=
  if initialized then
    match post requestId w with
    | (inl response, w') => (inl response, w')
    | (inr error, w') =>
        if alreadyExecuted error then (inl emptyResult, w')
        else (inr error, w')
    end
  else (inr (Error "ApiClient not initialized. Call initApiClient first."), w).
End CallTransform.

(** A settlement service that executes a request once: the world is the
    list of the ids already executed. *)
Definition executeOnce (requestId : string) (executed : list string)
  : (TransformResult + Thrown) * list string :=
  if existsb (String.eqb requestId) executed
  then (inr (Error "Already executed"), executed)
  else (inl (mkTransformResult (Some "0xabc")), requestId :: executed).

(** *** An answer of the service that is an HTTP error

    axios settles an answer whose status is outside the 2xx range by
    rejecting with an [AxiosError]: an [Error] whose [message] is axios's
    own text, "Request failed with status code <status>".  What the service
    wrote is kept under [error.response.data].  The [code] of the error
    depends on the version of axios (none, ERR_BAD_REQUEST,
    ERR_BAD_RESPONSE). *)
Record HttpAnswer := mkHttpAnswer {
  httpStatus : Z;                (* response.status *)
  dataMessage : option string    (* response.data.message *)
}.

Definition statusText (status : Z) : string :=
  NilZero.string_of_int (Z.to_int status).

Definition axiosError (code : option string) (a : HttpAnswer) : Thrown :=
  Obj (mkErrorObject true
         (Some (append "Request failed with status code " (statusText (httpStatus a))))
         code (Some (httpStatus a))).

(** [error.response?.data?.message === 'Already executed'], the test of
    [callTransform] in the earlier loop (instant-redemption-bidding.ts),
    on the error axios makes of the answer *)
Definition legacyAlreadyExecuted (a : HttpAnswer) : bool :=
  match dataMessage a with
  | Some m => String.eqb m "Already executed"
  | None => false
  end.

(** The settlement service answering over HTTP: a request that was
    executed before is answered 400 with the message in the body. *)
Definition executeOnceHttp (requestId : string) (executed : list string)
  : (TransformResult + Thrown) * list string :=
  if existsb (String.eqb requestId) executed
  then (inr (axiosError (Some "ERR_BAD_REQUEST")
                        (mkHttpAnswer 400 (Some "Already executed"))), executed)
  else (inl (mkTransformResult (Some "0xabc")), requestId :: executed).

End RfqApi.

(** ** loops/liquidation.ts: amounts, eligibility, one liquidation *)
Module Liquidation.
Import Js.

(** The operations of bignumber.js the loop uses. *)
Class BigNumberOps := {
  BigNumber : Type;
  fromString : option string -> BigNumber;   (* new BigNumber(s), s maybe undefined *)
  fromNumber : Q -> BigNumber;               (* new BigNumber(n) for a number n *)
  isZero : BigNumber -> bool;
  multipliedBy : BigNumber -> BigNumber -> BigNumber;
  minus : BigNumber -> BigNumber -> BigNumber;
  pow : BigNumber -> Z -> BigNumber;
  integerValue : BigNumber -> BigNumber;
  toString : BigNumber -> string;
  toFixed0 : BigNumber -> string
}.

Record Liquidation := mkLiquidation {
  _id : string;
  collateralAsset : string;
  borrowedAmount : option string;
  collateralAmountThatCanBeSeized : option string;
  healthFactor : Q;
  chainId : Z;
  exchangeProxy : string;
  baseFeedPrice : Q;
  borrowedAssetId : string;              (* borrowedPosition.asset.id *)
  borrowedDecimals : option Z;           (* borrowedPosition.asset.decimals *)
  collateralDecimals_ : option Z         (* collateralPosition.asset.decimals *)
}.

Record LiquidationAmounts := mkAmounts {
  debtToRepay : string;
  collateralToSeize : string;
  profit : string;
  collateralDecimals : Z;
  decimals : Z
}.

Record AppConfig := mkAppConfig {
  supportedChains : list Z;
  liquidationSpread : Q;
  marketMakerAddress : string
}.

Definition MAX_LIQUIDATION_RATIO : Q := 8 # 10.

(** [!s] for a string that may be [undefined] *)
Definition falsy (s : option string) : bool :=
  match s with
  | None => true
  | Some EmptyString => true
  | Some _ => false
  end.

(** [d ?? 6] *)
Definition orSix (d : option Z) : Z :=
  match d with Some n => n | None => 6 end.

Inductive Event :=
| Approve (proxy amount token : string)   (* approveTokenToExchangeProxy *)
| Sign (makerAmount takerAmount : string) (* signLimitOrder *)
| Trigger (id : string)                   (* triggerLiquidation *)
| NotifyTriggered (id txHash profit : string)
| NotifyApiError (id : string).

Section Loop.
Context {ops : BigNumberOps}.

Definition calculateLiquidationAmounts (l : Liquidation) : LiquidationAmounts :=
  let debtAmount := fromString (borrowedAmount l) in
  let collateralAmount := fromString (collateralAmountThatCanBeSeized l) in
  if falsy (collateralAmountThatCanBeSeized l) || isZero collateralAmount
  then mkAmounts "0" "0" "0" 6 6
  else
    let debt := multipliedBy debtAmount (fromNumber MAX_LIQUIDATION_RATIO) in
    let coll := multipliedBy collateralAmount (fromNumber MAX_LIQUIDATION_RATIO) in
    let dec := orSix (borrowedDecimals l) in
    let cdec := orSix (collateralDecimals_ l) in
    let prof := minus coll debt in
    mkAmounts
      (toString (integerValue (multipliedBy debt (pow (fromNumber (10 # 1)) dec))))
      (toString (integerValue (multipliedBy coll (pow (fromNumber (10 # 1)) cdec))))
      (toString prof) cdec dec.

Definition calculateLiquidationQuote (collateralToSeize : string)
           (baseFeedPrice : Q) (cfg : AppConfig) : string :=
  let collateralAmount := fromString (Some collateralToSeize) in
  let debtValueWei := multipliedBy collateralAmount (fromNumber baseFeedPrice) in
  toFixed0 (integerValue (multipliedBy debtValueWei
                                       (fromNumber (liquidationSpread cfg)))).

Definition shouldLiquidate (l : Liquidation) (amounts : LiquidationAmounts)
           (cfg : AppConfig) : bool :=
  if Qle_bool 1 (healthFactor l) then false
  else if negb (existsb (Z.eqb (chainId l)) (supportedChains cfg)) then false
  else if String.eqb (debtToRepay amounts) "0"
          || String.eqb (collateralToSeize amounts) "0" then false
  else true.

(** [x * 1.01], rounded, as a string *)
Definition withBuffer (amount : string) : string :=
  toString (integerValue (multipliedBy (fromString (Some amount))
                                       (fromNumber (101 # 100)))).

(** [processSingleLiquidation]: the calls it makes, in order.  The three
    awaited calls return ([true], a transaction hash) or throw. *)
Definition processSingleLiquidation (l : Liquidation) (cfg : AppConfig)
           (approveOk signOk : bool) (triggered : option string) : list Event :=
  let amounts := calculateLiquidationAmounts l in
  if negb (shouldLiquidate l amounts cfg) then []
  else
    let makerAmount :=
      calculateLiquidationQuote (collateralToSeize amounts) (baseFeedPrice l) cfg in
    let makerAmountWithBuffer := withBuffer makerAmount in
    let takerAmountWithBuffer := withBuffer (collateralToSeize amounts) in
    let approve := Approve (exchangeProxy l) makerAmountWithBuffer (borrowedAssetId l) in
    let sign := Sign makerAmountWithBuffer takerAmountWithBuffer in
    if negb approveOk then [approve; NotifyApiError (_id l)]
    else if negb signOk then [approve; sign; NotifyApiError (_id l)]
    else match triggered with
         | None => [approve; sign; Trigger (_id l); NotifyApiError (_id l)]
         | Some txHash =>
             [approve; sign; Trigger (_id l);
              NotifyTriggered (_id l) txHash (profit amounts)]
         end.

Definition touchesLedger (e : Event) : bool :=
  match e with
  | Approve _ _ _ | Sign _ _ | Trigger _ => true
  | _ => false
  end.
End Loop.

(** *** An instance to evaluate with

    A [BigNumber] is an exact rational, or NaN ([None]).  Texts are read
    as decimal literals, digits with an optional sign and an optional
    fraction; any other text is NaN.  [integerValue] rounds half away
    from zero (ROUND_HALF_UP, the library's default). *)
Module Decimal.

Definition digit (c : ascii) : option Z :=
  let n := nat_of_ascii c in
  if andb (Nat.leb 48 n) (Nat.leb n 57) then Some (Z.of_nat (n - 48)) else None.

Fixpoint readFraction (s : string) (num : Z) (den : positive) : option Q :=
  match s with
  | EmptyString => Some (num # den)
  | String c r =>
      match digit c with
      | Some d => readFraction r (num * 10 + d) (den * 10)
      | None => None
      end
  end.

Fixpoint readInteger (s : string) (acc : Z) : option Q :=
  match s with
  | EmptyString => Some (acc # 1)
  | String c r =>
      match digit c with
      | Some d => readInteger r (acc * 10 + d)
      | None =>
          if Ascii.eqb c "."
          then match r with
               | EmptyString => None
               | _ => readFraction r acc 1
               end
          else None
      end
  end.

Definition readUnsigned (s : string) : option Q :=
  match s with
  | EmptyString => None
  | String c _ =>
      match digit c with
      | Some _ => readInteger s 0
      | None => None
      end
  end.

Definition parse (s : option string) : option Q :=
  match s with
  | None => None
  | Some (String c r) =>
      if Ascii.eqb c "-"
      then option_map Qopp (readUnsigned r)
      else readUnsigned (String c r)
  | Some EmptyString => None
  end.

Definition roundHalfUp (q : Q) : Q :=
  let n := Qnum q in
  let d := Zpos (Qden q) in
  if Z.leb 0 n then ((2 * n + d) / (2 * d)) # 1
  else (- ((2 * (- n) + d) / (2 * d))) # 1.

Definition printZ (z : Z) : string := NilZero.string_of_int (Z.to_int z).

Fixpoint fractionDigits (fuel : nat) (r d : Z) : string :=
  match fuel with
  | O => EmptyString
  | S f =>
      if Z.eqb r 0 then EmptyString
      else String (ascii_of_nat (48 + Z.to_nat ((r * 10) / d)))
                  (fractionDigits f ((r * 10) mod d) d)
  end.

Definition print (q : Q) : string :=
  let q' := Qred q in
  let n := Qnum q' in
  let d := Zpos (Qden q') in
  let whole := printZ (Z.abs n / d) in
  let sign := if Z.ltb n 0 then "-" else EmptyString in
  if Z.eqb (Z.abs n mod d) 0 then append sign whole
  else append sign (append whole (append "." (fractionDigits 80 (Z.abs n mod d) d))).

Definition lift2 (f : Q -> Q -> Q) (a b : option Q) : option Q :=
  match a, b with
  | Some x, Some y => Some (f x y)
  | _, _ => None
  end.

Definition show (a : option Q) : string :=
  match a with
  | Some q => print q
  | None => "NaN"
  end.

#[export] Instance ops : BigNumberOps := {|
  BigNumber := option Q;
  fromString := parse;
  fromNumber := fun q => Some q;
  isZero := fun a => match a with Some q => Qeq_bool q 0 | None => false end;
  multipliedBy := lift2 Qmult;
  minus := lift2 Qminus;
  pow := fun a n => option_map (fun q => Qpower q n) a;
  integerValue := option_map roundHalfUp;
  toString := show;
  toFixed0 := fun a => show (option_map roundHalfUp a)
|}.

Definition underwater (seizable : option string) : Liquidation :=
  mkLiquidation "liq-1" "0xcollateral" (Some "100") seizable
                (9 # 10) 98866 "0xproxy" (1 # 1) "0xdebt" (Some 6) None.

Definition sampleConfig : AppConfig :=
  mkAppConfig [98866] (98 # 100) "0xmaker".

End Decimal.

End Liquidation.

(** ** The shape of a run of [withRetry] *)
Module Backoff.
Import Retry.

(** The delays [withRetry] sleeps: the first is [initialDelayMs], each next
    one is [Math.min(previous * backoffMultiplier, maxDelayMs)]. *)
Fixpoint schedule (options : RetryOptions) (d : Q) (n : nat) : list Q :=
  match n with
  | O => []
  | S n' =>
      d :: schedule options
             (Qmin (d * backoffMultiplier options) (maxDelayMs options)) n'
  end.

(** the delay in use after [n] sleeps *)
Fixpoint delayAfter (options : RetryOptions) (d : Q) (n : nat) : Q :=
  match n with
  | O => d
  | S n' =>
      delayAfter options
        (Qmin (d * backoffMultiplier options) (maxDelayMs options)) n'
  end.

(** a call, then a sleep, for every delay *)
Definition failedRounds (ds : list Q) : list Action :=
  flat_map (fun d => [Attempt; Wait d]) ds.

(** An operation that fails with a retryable error until the world, which
    counts the calls, reaches [k], and returns the count from then on. *)
Definition failsUntil (k : nat) (calls : nat) : (nat + Js.Thrown) * nat :=
  if Nat.ltb calls k then (inr nonceTooLow, S calls) else (inl calls, S calls).

Definition patient : RetryOptions :=
  mkRetryOptions 5 (100 # 1) (350 # 1) (2 # 1) (Some (fun _ => true)).

Definition nothingAllowed : RetryOptions :=
  mkRetryOptions 0 (100 # 1) (350 # 1) (2 # 1) (Some (fun _ => true)).

Definition notFound : Js.ErrorObject :=
  Js.mkErrorObject true (Some "Request failed: gateway timeout page not found")
                   None (Some 404).

End Backoff.


(** ** services/api/rfq.ts and services/api/liquidation.ts: fetching *)
Module Fetch.
Import Js.

(** [ApiResponse<T[]>]: [data] may be missing. *)
Record ApiResponse (Item : Type) := mkApiResponse { data : option (list Item) }.

Section Fetch.
Variables W Item : Type.
Variable chainOf : Item -> Z.
(** [client.get(url, { params })] of [ApiClient], retries included; the
    argument is the [chainId] parameter when one is sent *)
Variable get : option Z -> W -> (ApiResponse Item + Thrown) * W.

(** [response.data || []] *)
Definition orEmpty (r : ApiResponse Item) : list Item :=
  match data r with
  | Some l => l
  | None => []
  end.

(** [supportedChains.includes(item.chainId)] *)
Definition supported (chains : list Z) (i : Item) : bool :=
  existsb (Z.eqb (chainOf i)) chains.

(** [getPendingRequestsPerChain] and [getOpenLiquidationsPerChain]: the
    chains in turn; a chain whose fetch throws is skipped *)
Fixpoint perChain (chains : list Z) (all : list Item) (w : W) : list Item * W :=
  match chains with
  | [] => (all, w)
  | chainId :: rest =>
      match get (Some chainId) w with
      | (inl response, w') => perChain rest (all ++ orEmpty response) w'
      | (inr _, w') => perChain rest all w'
      end
  end.

(** [getPendingRequests] and [getOpenLiquidations]; [initialized] tells
    whether [getApiClient()] returns or throws *)
Definition fetchSupported (initialized : bool) (chains : list Z) (w : W)
  : (list Item + Thrown) * W :=
  if initialized then
    match get None w with
    | (inl response, w') => (inl (filter (supported chains) (orEmpty response)), w')
    | (inr _, w') =>
        let '(all, w'') := perChain chains [] w' in (inl all, w'')
    end
  else (inr (Error "ApiClient not initialized. Call initApiClient first."), w).

Definition getPendingRequests := fetchSupported.
Definition getOpenLiquidations := fetchSupported.
End Fetch.

(** A service that refuses a fetch without [chainId] and answers per chain;
    items are chain ids. *)
Definition perChainOnly (chainId : option Z) (w : nat)
  : (ApiResponse Z + Thrown) * nat :=
  match chainId with
  | None => (inr (Error "chainId is required"), S w)
  | Some c => if Z.eqb c 1 then (inr (Error "chain down"), S w)
              else (inl (mkApiResponse (Some [c; c])), S w)
  end.

(** A service that answers everything at once. *)
Definition allAtOnce (chainId : option Z) (w : nat)
  : (ApiResponse Z + Thrown) * nat :=
  (inl (mkApiResponse (Some [98866; 1; 5; 98866])), S w).

End Fetch.


(** ** loops/bidding.ts: eligibility of a request *)
Module Eligibility.
Import Js Liquidation.

(** [a.isLessThan(b)] of bignumber.js *)
Class BigNumberOrder (ops : BigNumberOps) := {
  isLessThan : BigNumber -> BigNumber -> bool
}.

(** The fields of an [RFQRequest] the eligibility test reads. *)
Record RFQRequest := mkRFQRequest {
  requestId : string;
  redeemAsset : string;
  redeemAmount : string;
  chainId : Z;
  expiry : Z            (* seconds since the epoch *)
}.

Record BidConfig := mkBidConfig {
  acceptedTokens : list string;
  minBidAmountWei : string;
  supportedChains : list Z;
  priceSpread : Q
}.

(** [cfg.acceptedTokens.some(t => t.toLowerCase() === redeemAsset)] with
    [redeemAsset] already lower-cased *)
Definition tokenListed (cfg : BidConfig) (r : RFQRequest) : bool :=
  existsb (fun t => String.eqb (toLowerCase t) (toLowerCase (redeemAsset r)))
          (acceptedTokens cfg).

(** [cfg.acceptedTokens[0] !== '*'] *)
Definition wildcard (cfg : BidConfig) : bool :=
  match acceptedTokens cfg with
  | t :: _ => String.eqb t "*"
  | [] => false
  end.

(** [request.expiry - Math.floor(Date.now() / 1000)], [now] in ms *)
Definition timeLeft (r : RFQRequest) (now : Z) : Z := expiry r - now / 1000.

Section Bid.
Context {ops : BigNumberOps} {order : BigNumberOrder ops}.

Definition shouldBidOnRequest (r : RFQRequest) (cfg : BidConfig) (now : Z) : bool :=
  if negb (wildcard cfg) && negb (tokenListed cfg r) then false
  else if isLessThan (fromString (Some (redeemAmount r)))
                     (fromString (Some (minBidAmountWei cfg))) then false
  else if negb (existsb (Z.eqb (chainId r)) (supportedChains cfg)) then false
  else if Z.ltb (timeLeft r now) 30 then false
  else true.

Definition calculateQuote (r : RFQRequest) (cfg : BidConfig) : string :=
  toString (integerValue (multipliedBy (fromString (Some (redeemAmount r)))
                                       (fromNumber (priceSpread cfg)))).
End Bid.

(** the same request with its asset spelled [asset] *)
Definition respelled (r : RFQRequest) (asset : string) : RFQRequest :=
  mkRFQRequest (requestId r) asset (redeemAmount r) (chainId r) (expiry r).

(** a comparison with NaN is false *)
Definition decimalLess (a b : option Q) : bool :=
  match a, b with
  | Some x, Some y => negb (Qle_bool y x)
  | _, _ => false
  end.

#[export] Instance decimalOrder : BigNumberOrder Decimal.ops :=
  @Build_BigNumberOrder Decimal.ops decimalLess.

Definition sampleBidConfig : BidConfig :=
  mkBidConfig ["0xAbCd"] "1000" [98866] (98 # 100).

Definition sampleRequest : RFQRequest :=
  mkRFQRequest "rfq-1" "0xabcd" "5000" 98866 1700000030.

End Eligibility.

(** ** loops/bidding.ts: [monitorWonBids] *)
Module WonBids.
Import Js Dedup RfqApi.

Record WonBid := mkWonBid {
  requestId : string;
  bidId : string;
  makerAmount : string
}.

Inductive Event :=
| NotifyBidWon (requestId makerAmount : string)
| NotifyTransformExecuted (requestId : string) (txHash : option string).

(** [`transform-${bid.requestId}`] *)
Definition transformKey (requestId : string) : string :=
  append "transform-" requestId.

Section Monitor.
Variable W : Type.
Variable axiosPost : string -> W -> (TransformResult + Thrown) * W.
(** the GET of [getWonBids], retries included; [bids] may be missing *)
Variable getBids : W -> (option (list WonBid) + Thrown) * W.
(** [Date.now()] *)
Variable clock : W -> Z.

(** [getWonBids]: [response.bids || []] *)
Definition getWonBids (w : W) : (list WonBid + Thrown) * W :=
  match getBids w with
  | (inl (Some bids), w') => (inl bids, w')
  | (inl None, w') => (inl [], w')
  | (inr e, w') => (inr e, w')
  end.

(** the [for] loop over the won bids *)
Fixpoint transformAll (bids : list WonBid) (cache : Cache) (w : W)
         (evs : list Event) : Cache * W * list Event :=
  match bids with
  | [] => (cache, w, evs)
  | bid :: rest =>
      let key := transformKey (requestId bid) in
      if has key cache then transformAll rest cache w evs
      else
        let won := evs ++ [NotifyBidWon (requestId bid) (makerAmount bid)] in
        match callTransform axiosPost true (requestId bid) w with
        | (inl result, w') =>
            transformAll rest (set key (clock w') cache) w'
              (won ++ [NotifyTransformExecuted (requestId bid) (txHash result)])
        | (inr _, w') => transformAll rest cache w' won
        end
  end.

Definition monitorWonBids (cache : Cache) (w : W) : Cache * W * list Event :=
  match getWonBids w with
  | (inl bids, w') => transformAll bids cache w' []
  | (inr _, w') => (cache, w', [])
  end.
End Monitor.

Definition twoWon : list WonBid :=
  [mkWonBid "rfq-3" "bid-9" "4900"; mkWonBid "rfq-4" "bid-7" "120"].

(** the service always lists the same two won bids; the world is the list
    of the executed ids *)
Definition listsTwo (executed : list string)
  : (option (list WonBid) + Thrown) * list string :=
  (inl (Some twoWon), executed).

(** a settlement service that is down *)
Definition down (requestId : string) (executed : list string)
  : (TransformResult + Thrown) * list string :=
  (inr (Error "Bad request"), executed).

Definition lengthClock (executed : list string) : Z :=
  Z.of_nat (List.length executed).

End WonBids.


(** ** Calls of [executeTransaction] one after the other *)
Module Serial.
Import Js Wallet.

Section Serial.
Variables W T : Type.
Variable getTransactionCount : W -> (Z + Thrown) * W.
Variable fns : nat -> Z -> W -> (T + Thrown) * W.

(** the wallet manager, the world, and what the calls returned or threw *)
Definition Outcome : Type := WalletManager * W * list (nat * (T + Thrown)).

(** call number [i] runs alone, from start to end *)
Definition runAlone (o : Outcome) (i : nat) : Outcome :=
  let '(wm, w, results) := o in
  let '(res, wm', w', _) := executeTransaction getTransactionCount (fns i) wm w in
  (wm', w', results ++ [(i, res)]).

(** the calls [order] run one after the other, each to its end *)
Definition sequential (order : list nat) (o : Outcome) : Outcome :=
  fold_left runAlone order o.

(** the calls that have not settled: the holder of the mutex, then the queue *)
Definition pending (s : Sys W T) : list nat :=
  match holder s with
  | Some (i, _) => i :: queue s
  | None => queue s
  end.

(** every call made has settled or is pending, in the order made; with
    nobody holding the mutex nobody waits *)
Definition inOrder (made : list nat) (s : Sys W T) : Prop :=
  map fst (settled s) ++ pending s = made
  /\ (holder s = None -> queue s = []).

(** what the holder of the mutex will have done when it settles, the
    world being left alone meanwhile *)
Definition holderSettled (s : Sys W T) : Outcome :=
  match holder s with
  | None => (wallet s, world s, settled s)
  | Some (i, Entered) => runAlone (wallet s, world s, settled s) i
  | Some (i, Calling nonce) =>
      let '(r, w') := fns i nonce (world s) in
      let '(res, wm') := settle nonce r in
      (wm', w', settled s ++ [(i, res)])
  end.

(** what all the calls made so far will have done *)
Definition eventually (s : Sys W T) : Outcome :=
  sequential (queue s) (holderSettled s).

Definition isEnv (l : Label W) : bool :=
  match l with Env _ => true | _ => false end.
End Serial.

(** a callback that is rejected on an odd ledger count and broadcasts on an
    even one *)
Definition oddRejected (i : nat) (nonce : Z) (w : Z) : (unit + Thrown) * Z :=
  if Z.odd w then (inr (Error "underpriced"), w + 1) else (inl tt, w + 1).

Definition interleaved : list (Label Z) :=
  [Call 2%nat; Progress; Call 0%nat; Call 1%nat; Progress; Progress; Progress;
   Progress; Progress; Progress].

End Serial.


(** ** Sample stream messages *)
Module StreamSamples.
Import Stream.

(** the double quote character *)
Definition quote : string := String (ascii_of_nat 34) EmptyString.

Definition quoted (s : string) : string := append quote (append s quote).

(** the text of a message with a [type] and a [data] that holds a [chainId] *)
Definition tagged (tag : string) (chain : string) : string :=
  append "{" (append (quoted "type") (append ":" (append (quoted tag)
    (append "," (append (quoted "data") (append ":{" (append (quoted "chainId")
      (append ":" (append chain "}}"))))))))).

Definition chainData (chain : Z) : Json := JObj [("chainId", JNum chain)].

(** [JSON.parse] on four texts; any other text is taken as not parseable *)
Definition parseTagged (text : string) : option Json :=
  if String.eqb text (tagged "rfq_request" "98866")
  then Some (JObj [("type", JStr "rfq_request"); ("data", chainData 98866)])
  else if String.eqb text (tagged "rfq_request" "1")
  then Some (JObj [("type", JStr "rfq_request"); ("data", chainData 1)])
  else if String.eqb text (tagged "bid_accepted" "1")
  then Some (JObj [("type", JStr "bid_accepted"); ("data", chainData 1)])
  else if String.eqb text (tagged "liquidation" "98866")
  then Some (JObj [("type", JStr "liquidation"); ("data", chainData 98866)])
  else None.

(** the only [type] that [ty] is *)
Definition tagOf (ty : Json) : option string :=
  match ty with
  | JStr s => Some s
  | _ => None
  end.

(** the socket the client holds was created *)
Definition holdsCreated (c : Client) : Prop :=
  forall k, ws c = Some k -> (k < nextSocket c)%nat.

End StreamSamples.


(** ** services/wallet: sending, waiting, approving *)
Module Approvals.
Import Js Wallet.

Record Receipt := mkReceipt { status : Z; transactionHash : string }.

(** How the [Promise.race] of [waitForTransaction] ends: the provider
    delivers a receipt, the timer rejects first, or the provider rejects. *)
Inductive Raced :=
| Confirmed (receipt : Receipt)
| TimedOut
| ProviderFailed (e : Thrown).

Record ApprovalResult := mkApprovalResult {
  txHash : option string;
  alreadyApproved : bool
}.

(** [ethers.constants.AddressZero] *)
Definition AddressZero : string := "0x0000000000000000000000000000000000000000".

(** [!address || address === ethers.constants.AddressZero] *)
Definition invalidAddress (a : string) : bool :=
  String.eqb a EmptyString || String.eqb a AddressZero.

Section Approve.
Variable W : Type.
Variable getTransactionCount : W -> (Z + Thrown) * W.
(** [wallet.sendTransaction({ to, data, nonce })]: the transaction hash *)
Variable walletSend : string -> string -> Z -> W -> (string + Thrown) * W.
(** [erc20.interface.encodeFunctionData('approve', [spender, MaxUint256])],
    which throws on a text that is no address *)
Variable encodeApprove : string -> string + Thrown.
(** [provider.waitForTransaction(hash, confirmations)] raced with the timer *)
Variable race : string -> W -> Raced * W.
(** [erc20.symbol()], [wallet.getAddress()], [erc20.allowance(owner, spender)] *)
Variable symbol : W -> (string + Thrown) * W.
Variable getAddress : W -> (string + Thrown) * W.
Variable allowance : string -> string -> W -> (Z + Thrown) * W.
(** [ethers.BigNumber.from(amount)], which throws on a text that is no
    integer *)
Variable bigNumberFrom : string -> Z + Thrown.

(** [WalletManager.sendTransaction] *)
Definition sendTransaction (to data : string) (wm : WalletManager) (w : W)
  : (string + Thrown) * WalletManager * W * list Action :=
  executeTransaction getTransactionCount (walletSend to data) wm w.

(** [WalletManager.waitForTransaction] with one confirmation *)
Definition waitForTransaction (hash : string) (w : W) : (Receipt + Thrown) * W :=
  match race hash w with
  | (Confirmed receipt, w') =>
      if Z.eqb (status receipt) 0
      then (inr (Error (append "Transaction failed: " hash)), w')
      else (inl receipt, w')
  | (TimedOut, w') => (inr (Error "Transaction confirmation timeout"), w')
  | (ProviderFailed e, w') => (inr e, w')
  end.

(** [approveTokenToExchangeProxy] called with a wallet manager.  The
    [catch] logs and throws the error again. *)
Definition approveTokenToExchangeProxy (exchangeProxy amount token : string)
           (wm : WalletManager) (w : W)
  : (ApprovalResult + Thrown) * WalletManager * W * list Action :=
  if invalidAddress exchangeProxy
  then (inr (Error "Invalid exchange proxy address"), wm, w, [])
  else if invalidAddress token
  then (inr (Error "Invalid token address"), wm, w, [])
  else
    let w1 := snd (symbol w) in
    match getAddress w1 with
    | (inr e, w2) => (inr e, wm, w2, [])
    | (inl owner, w2) =>
        match allowance owner exchangeProxy w2 with
        | (inr e, w3) => (inr e, wm, w3, [])
        | (inl currentAllowance, w3) =>
            match bigNumberFrom amount with
            | inr e => (inr e, wm, w3, [])
            | inl requiredAmount =>
                if Z.leb requiredAmount currentAllowance
                then (inl (mkApprovalResult None true), wm, w3, [])
                else
                  match encodeApprove exchangeProxy with
                  | inr e => (inr e, wm, w3, [])
                  | inl data =>
                      match sendTransaction token data wm w3 with
                      | (inr e, wm', w4, done) => (inr e, wm', w4, done)
                      | (inl hash, wm', w4, done) =>
                          match waitForTransaction hash w4 with
                          | (inr e, w5) => (inr e, wm', w5, done)
                          | (inl receipt, w5) =>
                              (inl (mkApprovalResult
                                      (Some (transactionHash receipt)) false),
                               wm', w5, done)
                          end
                      end
                  end
            end
        end
    end.
End Approve.

(** A chain on which the spender has an allowance of 500 and every
    transaction is mined but reverts; the world counts the calls made. *)
Definition noSymbol (w : nat) : (string + Thrown) * nat :=
  (inr (Error "call revert exception"), S w).
Definition ownerIs (w : nat) : (string + Thrown) * nat := (inl "0xowner", S w).
Definition allows500 (owner spender : string) (w : nat) : (Z + Thrown) * nat :=
  (inl 500, S w).
Definition fromDigits (amount : string) : Z + Thrown :=
  match Liquidation.Decimal.readUnsigned amount with
  | Some (n # 1) => inl n
  | _ => inr (Error "invalid BigNumber string")
  end.
Definition sends (to data : string) (nonce : Z) (w : nat) : (string + Thrown) * nat :=
  (inl "0xhash", S w).
Definition encodes (spender : string) : string + Thrown :=
  inl (append "approve:" spender).
Definition reverts (hash : string) (w : nat) : Raced * nat :=
  (Confirmed (mkReceipt 0 hash), S w).
Definition ledgerAt9 (w : nat) : (Z + Thrown) * nat := (inl 9, S w).

End Approvals.

(** * Properties *)

(** ** The retry executor and the submission policy *)
Module RetryFacts.
Import Js Retry.

Section Loop.
Variables W T : Type.
Variable fn : W -> (T + Thrown) * W.
Variable options : RetryOptions.

(** One more turn of the loop when the call fails with an error that is
    retried. *)
Lemma retryLoop_retry fuel attempt d last w done e w' :
  attempt < maxAttempts options ->
  fn w = (inr e, w') ->
  classifies options e = true ->
  retryLoop fn options (S fuel) attempt d last w done =
  retryLoop fn options fuel (attempt + 1)
            (Qmin (d * backoffMultiplier options) (maxDelayMs options))
            (Some e) w' (done ++ [Attempt; Wait d]).
Proof.
  intros Hlt Hfn Hc. simpl.
  assert (Hle : Z.leb attempt (maxAttempts options) = true)
    by (apply Z.leb_le; lia).
  rewrite Hle, Hfn.
  unfold classifies in Hc. rewrite Hc.
  assert (Hl : Z.ltb attempt (maxAttempts options) = true)
    by (apply Z.ltb_lt; lia).
  rewrite Hl. reflexivity.
Qed.

(** The loop gives up at once on an error that is not retried. *)
Lemma retryLoop_give_up fuel attempt d last w done e w' :
  attempt <= maxAttempts options ->
  fn w = (inr e, w') ->
  classifies options e = false ->
  retryLoop fn options (S fuel) attempt d last w done =
  (Threw e, w', done ++ [Attempt]).
Proof.
  intros Hle Hfn Hc. simpl.
  apply Z.leb_le in Hle. rewrite Hle, Hfn.
  unfold classifies in Hc. rewrite Hc. reflexivity.
Qed.

(** The last attempt allowed throws what the call threw. *)
Lemma retryLoop_last fuel d last w done e w' :
  fn w = (inr e, w') ->
  retryLoop fn options (S fuel) (maxAttempts options) d last w done =
  (Threw e, w', done ++ [Attempt]).
Proof.
  intros Hfn. simpl.
  rewrite Z.leb_refl, Hfn, Z.ltb_irrefl.
  rewrite orb_true_r. reflexivity.
Qed.

(** A call that returns ends the loop. *)
Lemma retryLoop_success fuel attempt d last w done v w' :
  attempt <= maxAttempts options ->
  fn w = (inl v, w') ->
  retryLoop fn options (S fuel) attempt d last w done =
  (Returned v, w', done ++ [Attempt]).
Proof.
  intros Hle Hfn. simpl.
  apply Z.leb_le in Hle. rewrite Hle, Hfn. reflexivity.
Qed.
End Loop.

Lemma to_nat_succ (z : Z) : 1 <= z -> exists n, Z.to_nat z = S n.
Proof.
  intros H. exists (Z.to_nat (z - 1)).
  rewrite <- Z2Nat.inj_succ by lia. f_equal. lia.
Qed.

(** C6.  With a classifier that retries nothing (and at least one attempt
    allowed), [withRetry] calls a failing operation exactly once and throws
    its error.  With a classifier that retries everything and
    [maxAttempts = 3], it calls an operation that keeps failing exactly
    three times, sleeps [initialDelayMs] before the second call and
    [min(initialDelayMs * backoffMultiplier, maxDelayMs)] before the third,
    and throws the third error. *)
Theorem withRetry_attempts_and_delays :
  forall (W T : Type) (fn : W -> (T + Thrown) * W) (options : RetryOptions),
    (forall w e w',
        (forall x, classifies options x = false) ->
        1 <= maxAttempts options ->
        fn w = (inr e, w') ->
        withRetry fn options w = (Threw e, w', [Attempt]))
    /\
    (forall w0 e1 w1 e2 w2 e3 w3,
        (forall x, classifies options x = true) ->
        maxAttempts options = 3 ->
        fn w0 = (inr e1, w1) -> fn w1 = (inr e2, w2) -> fn w2 = (inr e3, w3) ->
        withRetry fn options w0 =
        (Threw e3, w3,
         [Attempt; Wait (initialDelayMs options);
          Attempt; Wait (Qmin (initialDelayMs options * backoffMultiplier options)
                              (maxDelayMs options));
          Attempt])).
Proof.
  intros W T fn options. split.
  - intros w e w' Hnever Hmax Hfn.
    unfold withRetry.
    destruct (to_nat_succ Hmax) as [n ->].
    rewrite (@retryLoop_give_up W T fn options n 1 (initialDelayMs options)
               None w [] e w' Hmax Hfn (Hnever e)).
    reflexivity.
  - intros w0 e1 w1 e2 w2 e3 w3 Halways Hmax H1 H2 H3.
    unfold withRetry. rewrite Hmax.
    change (Z.to_nat 3) with 3%nat.
    rewrite (@retryLoop_retry W T fn options 2 1 (initialDelayMs options)
               None w0 [] e1 w1); [ | lia | assumption | apply Halways ].
    rewrite (@retryLoop_retry W T fn options 1 (1 + 1) _ _ w1 _ e2 w2);
      [ | lia | assumption | apply Halways ].
    replace (1 + 1 + 1) with (maxAttempts options) by lia.
    rewrite (@retryLoop_last W T fn options 0 _ _ w2 _ e3 w3 H3).
    reflexivity.
Qed.

Lemma withRetry_attempts_and_delays_witness :
  withRetry (alwaysFails nonceTooLow) neverRetry 0%nat
  = (Threw nonceTooLow, 1%nat, [Attempt])
  /\ withRetry (alwaysFails nonceTooLow) alwaysRetry 0%nat
     = (Threw nonceTooLow, 3%nat,
        [Attempt; Wait (100 # 1); Attempt;
         Wait (Qmin ((100 # 1) * (2 # 1)) (150 # 1)); Attempt]).
Proof.
  destruct (withRetry_attempts_and_delays (alwaysFails nonceTooLow) neverRetry)
    as [Hone _].
  destruct (withRetry_attempts_and_delays (alwaysFails nonceTooLow) alwaysRetry)
    as [_ Hthree].
  split.
  - apply Hone.
    + intros x. reflexivity.
    + vm_compute. discriminate.
    + reflexivity.
  - apply (Hthree 0%nat nonceTooLow 1%nat nonceTooLow 2%nat nonceTooLow 3%nat).
    + intros x. reflexivity.
    + reflexivity.
    + reflexivity.
    + reflexivity.
    + reflexivity.
Defined.

Lemma isRetryableTxError_iff (e : Thrown) :
  isRetryableTxError e = true <-> exists err, e = Obj err /\ txRetryable err = true.
Proof.
  unfold txRetryable. split.
  - destruct e as [ | err]; simpl; [ discriminate | ].
    intros H. exists err. split; [ reflexivity | ].
    destruct (messageMentions err "nonce"); [ reflexivity | ].
    destruct (messageMentions err "replacement fee"); [ reflexivity | ].
    simpl. destruct (codeIs err "NETWORK_ERROR" || codeIs err "TIMEOUT");
      [ reflexivity | discriminate ].
  - intros [err [-> H]]. simpl.
    destruct (messageMentions err "nonce"); [ reflexivity | ].
    destruct (messageMentions err "replacement fee"); [ reflexivity | ].
    simpl in H. rewrite H. reflexivity.
Qed.

(** C5 as stated fails.  Under [TX_RETRY_DEFAULTS] an operation that keeps
    failing with a nonce error is called twice, not three times, and a
    network error whose message mentions neither a nonce nor a replacement
    fee is classified as retryable. *)
Lemma tx_policy_two_attempts_and_network_errors :
  attempts (withRetry (alwaysFails nonceTooLow) TX_RETRY_DEFAULTS 0%nat) = 2%nat
  /\ isRetryableTxError (Obj networkError) = true
  /\ messageMentions networkError "nonce" = false
  /\ messageMentions networkError "replacement fee" = false.
Proof. repeat split; reflexivity. Qed.

(** C5, amended.  The submission policy allows two attempts (one retry),
    starts with a 2000 ms delay, grows it by 1.5 and caps it at 5000 ms: an
    operation failing twice, the first time with a retryable error, is
    called twice with one 2000 ms sleep in between, and the second error
    is thrown.  A failure is retryable exactly when it is an object whose
    lower-cased message contains "nonce" or "replacement fee", or whose
    code is NETWORK_ERROR or TIMEOUT. *)
Theorem tx_retry_policy :
  maxAttempts TX_RETRY_DEFAULTS = 2
  /\ initialDelayMs TX_RETRY_DEFAULTS = 2000 # 1
  /\ backoffMultiplier TX_RETRY_DEFAULTS = 3 # 2
  /\ maxDelayMs TX_RETRY_DEFAULTS = 5000 # 1
  /\ retryableErrors TX_RETRY_DEFAULTS = Some isRetryableTxError
  /\ (forall (W T : Type) (fn : W -> (T + Thrown) * W) w0 e1 w1 e2 w2,
         fn w0 = (inr e1, w1) -> isRetryableTxError e1 = true ->
         fn w1 = (inr e2, w2) ->
         withRetry fn TX_RETRY_DEFAULTS w0
         = (Threw e2, w2, [Attempt; Wait (2000 # 1); Attempt]))
  /\ (forall e, isRetryableTxError e = true <->
                exists err, e = Obj err /\ txRetryable err = true).
Proof.
  repeat (split; [ reflexivity | ]).
  split.
  - intros W T fn w0 e1 w1 e2 w2 H1 Hr H2.
    unfold withRetry.
    change (Z.to_nat (maxAttempts TX_RETRY_DEFAULTS)) with 2%nat.
    rewrite (@retryLoop_retry W T fn TX_RETRY_DEFAULTS 1 1 _ None w0 [] e1 w1);
      [ | reflexivity | assumption | exact Hr ].
    change (1 + 1) with (maxAttempts TX_RETRY_DEFAULTS).
    rewrite (@retryLoop_last W T fn TX_RETRY_DEFAULTS 0 _ _ w1 _ e2 w2 H2).
    reflexivity.
  - exact isRetryableTxError_iff.
Qed.

Lemma tx_retry_policy_witness :
  withRetry (alwaysFails nonceTooLow) TX_RETRY_DEFAULTS 0%nat
  = (Threw nonceTooLow, 2%nat, [Attempt; Wait (2000 # 1); Attempt]).
Proof.
  destruct tx_retry_policy as (_ & _ & _ & _ & _ & Hrun & _).
  apply (Hrun nat unit (alwaysFails nonceTooLow) 0%nat nonceTooLow 1%nat nonceTooLow 2%nat).
  - reflexivity.
  - reflexivity.
  - reflexivity.
Defined.

End RetryFacts.

(** ** The nonce sequencer *)
Module WalletFacts.
Import Js Wallet.

(** C3.  [executeTransaction(fn)], run with the mutex held.  With a cached
    nonce [n] it calls [fn] with [n] and asks the ledger nothing.  With no
    cached nonce it first asks the ledger for the pending transaction count;
    if that gives [n] it caches [n] and calls [fn] with it, and if the query
    itself throws, that error is thrown and [fn] is not called.  When [fn]
    returns, its result is returned and the cache holds [n + 1]; when [fn]
    throws, the same error is thrown and the cache is emptied, so that the
    next call asks the ledger again. *)
Theorem executeTransaction_contract :
  forall (W T : Type) (getTransactionCount : W -> (Z + Thrown) * W)
         (fn : Z -> W -> (T + Thrown) * W) (wm : WalletManager) (w : W),
    (forall n, currentNonce wm = Some n ->
       (forall r w', fn n w = (inl r, w') ->
          executeTransaction getTransactionCount fn wm w
          = (inl r, mkWalletManager (Some (n + 1)), w', [Invoke n]))
       /\ (forall e w', fn n w = (inr e, w') ->
          executeTransaction getTransactionCount fn wm w
          = (inr e, mkWalletManager None, w', [Invoke n])))
    /\ (currentNonce wm = None ->
        (forall n w1, getTransactionCount w = (inl n, w1) ->
           (forall r w', fn n w1 = (inl r, w') ->
              executeTransaction getTransactionCount fn wm w
              = (inl r, mkWalletManager (Some (n + 1)), w', [QueryLedger; Invoke n]))
           /\ (forall e w', fn n w1 = (inr e, w') ->
              executeTransaction getTransactionCount fn wm w
              = (inr e, mkWalletManager None, w', [QueryLedger; Invoke n])))
        /\ (forall e w1, getTransactionCount w = (inr e, w1) ->
              executeTransaction getTransactionCount fn wm w
              = (inr e, wm, w1, [QueryLedger]))).
Proof.
  intros W T getTC fn wm w. split.
  - intros n Hn. unfold executeTransaction, invoke. rewrite Hn.
    split; intros x w' Hfn; rewrite Hfn; reflexivity.
  - intros Hnone. unfold executeTransaction, syncNonce, invoke. rewrite Hnone.
    split.
    + intros n w1 Hq. rewrite Hq. simpl.
      split; intros x w' Hfn; rewrite Hfn; reflexivity.
    + intros e w1 Hq. rewrite Hq. reflexivity.
Qed.

Lemma executeTransaction_contract_witness :
  executeTransaction countLedger broadcast (mkWalletManager (Some 7)) 7
  = (inl tt, mkWalletManager (Some 8), 8, [Invoke 7])
  /\ executeTransaction countLedger rejected (mkWalletManager (Some 7)) 7
     = (inr (Error "insufficient funds for gas"), mkWalletManager None, 7, [Invoke 7])
  /\ executeTransaction countLedger broadcast (mkWalletManager None) 7
     = (inl tt, mkWalletManager (Some 8), 8, [QueryLedger; Invoke 7]).
Proof.
  split; [ | split ].
  - destruct (executeTransaction_contract countLedger broadcast
                (mkWalletManager (Some 7)) 7) as [Hknown _].
    destruct (Hknown 7 eq_refl) as [Hok _].
    apply Hok. reflexivity.
  - destruct (executeTransaction_contract countLedger rejected
                (mkWalletManager (Some 7)) 7) as [Hknown _].
    destruct (Hknown 7 eq_refl) as [_ Hfail].
    apply Hfail. reflexivity.
  - destruct (executeTransaction_contract countLedger broadcast
                (mkWalletManager None) 7) as [_ Hunknown].
    destruct (Hunknown eq_refl) as [Hquery _].
    destruct (Hquery 7 7 eq_refl) as [Hok _].
    apply Hok. reflexivity.
Defined.

(** *** Concurrent calls *)

Lemma consecutive_length base n : List.length (consecutive base n) = n.
Proof. unfold consecutive. rewrite length_map, length_seq. reflexivity. Qed.

Lemma consecutive_snoc base n :
  consecutive base (S n) = consecutive base n ++ [base + Z.of_nat n].
Proof. unfold consecutive. rewrite seq_S, map_app. reflexivity. Qed.

Lemma consecutive_In base n x :
  In x (consecutive base n) <-> base <= x < base + Z.of_nat n.
Proof.
  unfold consecutive. rewrite in_map_iff. split.
  - intros [k [<- Hk]]. apply in_seq in Hk. lia.
  - intros H. exists (Z.to_nat (x - base)). split; [ lia | ].
    apply in_seq. lia.
Qed.

Lemma consecutive_NoDup base n : NoDup (consecutive base n).
Proof.
  induction n as [ | n IH].
  - constructor.
  - rewrite consecutive_snoc. apply NoDup_app.
    + exact IH.
    + constructor; [ intros [] | constructor ].
    + intros x Hx [<- | []]. apply consecutive_In in Hx. lia.
Qed.

Section Runs.
Variables W T : Type.
Variable getTransactionCount : W -> (Z + Thrown) * W.
Variable fns : nat -> Z -> W -> (T + Thrown) * W.
Variable base : Z.

Lemma invariant_init (w : W) : invariant base [] (init T base w).
Proof.
  unfold invariant, cacheAgrees, init, nonces, waiting. simpl.
  repeat split; [ constructor | f_equal; lia ].
Qed.

Lemma release_fields (s : Sys W T) :
  wallet (release s) = wallet s /\ used (release s) = used s
  /\ waiting (release s) = queue s.
Proof.
  unfold release, waiting. destruct (queue s) as [ | j q]; simpl; auto.
Qed.

Lemma release_settled (s : Sys W T) : settled (release s) = settled s.
Proof. unfold release. destruct (queue s); reflexivity. Qed.

Lemma release_holder (s : Sys W T) :
  forall i n, holder (release s) <> Some (i, Calling n).
Proof.
  intros i n. unfold release. destruct (queue s); simpl; discriminate.
Qed.

(** the list of the calls that have settled only grows *)
Lemma step_settled l (s : Sys W T) :
  exists more, settled (step getTransactionCount fns l s) = settled s ++ more.
Proof.
  destruct l as [i | | f]; simpl.
  - exists []. rewrite app_nil_r. destruct (holder s); reflexivity.
  - destruct (holder s) as [[i [ | n]] | ].
    + destruct (currentNonce (wallet s)) as [nonce | ].
      * exists []. rewrite app_nil_r. reflexivity.
      * unfold syncNonce. destruct (getTransactionCount (world s)) as [[n | e] w'].
        -- exists []. rewrite app_nil_r. reflexivity.
        -- rewrite release_settled. eexists. reflexivity.
    + destruct (fns i n (world s)) as [r w']. destruct (settle n r) as [res wm'].
      rewrite release_settled. eexists. reflexivity.
    + exists []. rewrite app_nil_r. reflexivity.
  - exists []. rewrite app_nil_r. reflexivity.
Qed.

Lemma run_settled ls : forall (s : Sys W T),
  exists more, settled (run getTransactionCount fns ls s) = settled s ++ more.
Proof.
  induction ls as [ | l ls IH]; intros s.
  - exists []. rewrite app_nil_r. reflexivity.
  - change (run getTransactionCount fns (l :: ls) s)
      with (run getTransactionCount fns ls (step getTransactionCount fns l s)).
    destruct (IH (step getTransactionCount fns l s)) as [more Hmore].
    destruct (step_settled l s) as [first Hfirst].
    exists (first ++ more). rewrite Hmore, Hfirst, app_assoc. reflexivity.
Qed.

(** so a run in which every settled call returned had no failure on the way *)
Lemma allReturned_earlier ls (s : Sys W T) :
  allReturned (run getTransactionCount fns ls s) = true -> allReturned s = true.
Proof.
  destruct (run_settled ls s) as [more Hmore]. unfold allReturned.
  rewrite Hmore, forallb_app. intros H. apply andb_true_iff in H. tauto.
Qed.

Lemma invariant_call made i (s : Sys W T) :
  invariant base made s -> invariant base (made ++ [i]) (step getTransactionCount fns (Call i) s).
Proof.
  intros (Hn & Hp & Hc). unfold invariant, nonces, cacheAgrees, waiting in *.
  simpl. destruct (holder s) as [[h st] | ] eqn:Hh; simpl.
  - split; [ exact Hn | split; [ | exact Hc ] ].
    destruct st.
    + change (h :: queue s ++ [i]) with ((h :: queue s) ++ [i]).
      rewrite app_assoc. apply Permutation_app_tail. exact Hp.
    + rewrite app_assoc. apply Permutation_app_tail. exact Hp.
  - split; [ exact Hn | split; [ | exact Hc ] ].
    apply Permutation_trans with (l' := i :: made).
    + apply Permutation_sym, Permutation_cons_append.
    + apply Permutation_cons_app. exact Hp.
Qed.

Lemma invariant_progress made (s : Sys W T) :
  invariant base made s ->
  allReturned (step getTransactionCount fns Progress s) = true ->
  invariant base made (step getTransactionCount fns Progress s).
Proof.
  intros (Hn & Hp & Hc) Hok. simpl in Hok |- *.
  destruct (holder s) as [[i st] | ] eqn:Hh.
  - destruct st as [ | n].
    + (* the holder reads the cache, which is not empty *)
      unfold cacheAgrees in Hc. rewrite Hh in Hc. rewrite Hc.
      unfold invariant, nonces, cacheAgrees, waiting in *. simpl.
      rewrite Hh in Hp.
      rewrite !map_app, length_app. simpl.
      replace (List.length (used s) + 1)%nat with (S (List.length (used s))) by lia.
      rewrite consecutive_snoc, Hn.
      repeat split.
      * rewrite <- app_assoc. exact Hp.
      * exact Hc.
      * lia.
    + (* the callback settles: it returned, since every settled call did *)
      destruct (fns i n (world s)) as [[v | e] w'] eqn:Hfn.
      * simpl.
        unfold cacheAgrees in Hc. rewrite Hh in Hc. destruct Hc as [Hcn Hk].
        set (s' := mkSys (mkWalletManager (Some (n + 1))) None (queue s) w'
                         (used s) (settled s ++ [(i, inl v)])).
        destruct (release_fields s') as (Hw & Hu & Hq).
        unfold invariant, nonces, cacheAgrees.
        rewrite Hw, Hu, Hq. simpl.
        unfold nonces, waiting in Hn, Hp. rewrite Hh in Hp.
        repeat split; try assumption.
        destruct (holder (release s')) as [[j st] | ] eqn:Hr.
        -- destruct st as [ | m].
           ++ f_equal. exact Hk.
           ++ exfalso. exact (release_holder Hr).
        -- f_equal. exact Hk.
      * exfalso. simpl in Hok. unfold allReturned in Hok.
        rewrite release_settled in Hok. simpl in Hok.
        rewrite forallb_app in Hok. simpl in Hok.
        rewrite andb_false_r in Hok. discriminate.
  - unfold invariant. auto.
Qed.

Lemma invariant_env made f (s : Sys W T) :
  invariant base made s -> invariant base made (step getTransactionCount fns (Env f) s).
Proof.
  intros (Hn & Hp & Hc). unfold invariant, nonces, cacheAgrees, waiting in *.
  simpl. auto.
Qed.

Lemma calls_cons (l : Label W) ls : calls (l :: ls) = calls [l] ++ calls ls.
Proof. unfold calls. simpl. rewrite app_nil_r. reflexivity. Qed.

Lemma invariant_run ls : forall made (s : Sys W T),
  invariant base made s ->
  allReturned (run getTransactionCount fns ls s) = true ->
  invariant base (made ++ calls ls) (run getTransactionCount fns ls s).
Proof.
  induction ls as [ | l ls IH]; intros made s Hinv Hok.
  - simpl. rewrite app_nil_r. exact Hinv.
  - rewrite calls_cons, app_assoc.
    change (run getTransactionCount fns (l :: ls) s)
      with (run getTransactionCount fns ls (step getTransactionCount fns l s))
      in Hok |- *.
    apply IH; [ | exact Hok ].
    apply allReturned_earlier in Hok.
    destruct l as [i | | f].
    + apply invariant_call. exact Hinv.
    + change (calls [@Progress W]) with (@nil nat). rewrite app_nil_r.
      apply invariant_progress; assumption.
    + change (calls [Env f]) with (@nil nat). rewrite app_nil_r.
      apply invariant_env. exact Hinv.
Qed.
End Runs.

(** C2 as stated fails.  Two calls are made together on a cached nonce 7;
    the first callback is rejected before anything is broadcast, so the
    ledger still counts 7 pending transactions; the cache is emptied, the
    second call asks the ledger and its callback gets 7 again.  The nonces
    used are 7 and 7, not 7 and 8. *)
Lemma failed_call_repeats_its_nonce :
  let s := run countLedger firstRejected twoCalls (init unit 7 7) in
  quiescent s
  /\ used s = [(0%nat, 7); (1%nat, 7)]
  /\ nonces s <> consecutive 7 2
  /\ ~ NoDup (nonces s).
Proof.
  simpl. repeat split.
  - discriminate.
  - intros H. inversion H as [ | x l Hin Hnd]; subst. apply Hin. left. reflexivity.
Qed.

(** C2, amended.  Let N calls of [executeTransaction] be made on one wallet
    whose cached nonce is [base], in any order and at any moments relative
    to one another's progress, and let every one of them have returned when
    all have finished: no callback threw in this run (a callback that would
    throw on another nonce or ledger is allowed).  Then the nonces passed
    to the callbacks are exactly [base, base+1, ..., base+N-1] in the order
    the mutex served the calls, each call got one of them, and no nonce was
    used twice.

    When a callback throws, the cache is emptied and the error is what the
    call settles with; the call served next asks the ledger, whatever has
    happened to it meanwhile, and its callback gets the number the ledger
    reports, be it the failed call's nonce again. *)
Theorem successful_calls_use_consecutive_nonces :
  forall (W T : Type) (getTransactionCount : W -> (Z + Thrown) * W)
         (fns : nat -> Z -> W -> (T + Thrown) * W),
    (forall (N : nat) (base : Z) (w0 : W) (ls : list (Label W)),
        Permutation (calls ls) (seq 0 N) ->
        let s := run getTransactionCount fns ls (init T base w0) in
        quiescent s ->
        allReturned s = true ->
        nonces s = consecutive base N
        /\ Permutation (map fst (used s)) (seq 0 N)
        /\ NoDup (nonces s))
    /\ (forall (s : Sys W T) (i j : nat) (q : list nat) (n m : Z) (e : Thrown)
               (w' w1 : W) (f : W -> W),
        holder s = Some (i, Calling n) ->
        queue s = j :: q ->
        fns i n (world s) = (inr e, w') ->
        getTransactionCount (f w') = (inl m, w1) ->
        let failed := step getTransactionCount fns Progress s in
        let next := step getTransactionCount fns Progress
                         (step getTransactionCount fns (Env f) failed) in
        wallet failed = mkWalletManager None
        /\ settled failed = settled s ++ [(i, inr e)]
        /\ holder failed = Some (j, Entered)
        /\ used next = used s ++ [(j, m)]
        /\ holder next = Some (j, Calling m)).
Proof.
  intros W T getTC fns. split.
  - intros N base w0 ls Hcalls s [Hh Hq] Hok.
    destruct (@invariant_run W T getTC fns base ls [] _ (invariant_init T base w0) Hok)
      as (Hn & Hp & _).
    fold s in Hn, Hp. simpl in Hp.
    unfold waiting in Hp. rewrite Hh, Hq, app_nil_r in Hp.
    assert (Hperm : Permutation (map fst (used s)) (seq 0 N)).
    { rewrite <- Hp. exact Hcalls. }
    assert (Hlen : List.length (used s) = N).
    { apply Permutation_length in Hperm.
      rewrite length_map, length_seq in Hperm. exact Hperm. }
    rewrite Hlen in Hn.
    split; [ exact Hn | split; [ exact Hperm | ] ].
    rewrite Hn. apply consecutive_NoDup.
  - intros s i j q n m e w' w1 f Hh Hq Hfn Hledger failed next.
    assert (Hfailed : failed = mkSys (mkWalletManager None) (Some (j, Entered)) q w'
                                     (used s) (settled s ++ [(i, inr e)])).
    { unfold failed. simpl. rewrite Hh, Hfn. simpl. unfold release. simpl.
      rewrite Hq. reflexivity. }
    unfold next. rewrite Hfailed. simpl. unfold syncNonce. rewrite Hledger. simpl.
    split; [ reflexivity | split; [ reflexivity | split; [ reflexivity | ] ] ].
    split; reflexivity.
Qed.

Lemma successful_calls_use_consecutive_nonces_witness :
  nonces (run countLedger allChecked twoCalls (init unit 7 7)) = [7; 8]
  /\ used (step countLedger firstRejected Progress
             (step countLedger firstRejected (Env (fun w => w))
                (run countLedger firstRejected (firstn 4 twoCalls) (init unit 7 7))))
     = [(0%nat, 7); (1%nat, 7)].
Proof.
  destruct (@successful_calls_use_consecutive_nonces Z unit countLedger allChecked)
    as [Hsequence _].
  destruct (@successful_calls_use_consecutive_nonces Z unit countLedger firstRejected)
    as [_ Hfailure].
  split.
  - destruct (Hsequence 2%nat 7 7 twoCalls (Permutation_refl _)
                        (conj eq_refl eq_refl) eq_refl) as [Hnonces _].
    exact Hnonces.
  - destruct (Hfailure (run countLedger firstRejected (firstn 3 twoCalls) (init unit 7 7))
                       0%nat 1%nat [] 7 7 (Error "insufficient funds for gas") 7 7
                       (fun w => w) eq_refl eq_refl eq_refl eq_refl)
      as (_ & _ & _ & Hused & _).
    exact Hused.
Defined.

End WalletFacts.

(** ** The sweep of the processed-id cache *)
Module DedupFacts.
Import Dedup.

(** *** The sort *)

Lemma insertByTime_perm e l : Permutation (insertByTime e l) (e :: l).
Proof.
  induction l as [ | x r IH]; simpl.
  - apply Permutation_refl.
  - destruct (Z.leb (snd e) (snd x)).
    + apply Permutation_refl.
    + apply Permutation_trans with (l' := x :: e :: r).
      * apply perm_skip. exact IH.
      * apply perm_swap.
Qed.

Lemma sortByTime_perm l : Permutation (sortByTime l) l.
Proof.
  induction l as [ | e r IH]; simpl.
  - apply perm_nil.
  - apply Permutation_trans with (l' := e :: sortByTime r).
    + apply insertByTime_perm.
    + apply perm_skip. exact IH.
Qed.

Lemma insertByTime_sorted e l :
  StronglySorted byTime l -> StronglySorted byTime (insertByTime e l).
Proof.
  induction 1 as [ | x r Hr IH Hx]; simpl.
  - constructor; constructor.
  - destruct (Z.leb (snd e) (snd x)) eqn:Hle.
    + apply Z.leb_le in Hle. constructor.
      * constructor; assumption.
      * constructor; [ exact Hle | ].
        eapply Forall_impl; [ | exact Hx ].
        intros y Hy. unfold byTime in *. lia.
    + apply Z.leb_gt in Hle. constructor; [ exact IH | ].
      apply Forall_forall. intros y Hy.
      apply (Permutation_in _ (insertByTime_perm e r)) in Hy.
      destruct Hy as [<- | Hy].
      * unfold byTime. lia.
      * rewrite Forall_forall in Hx. apply Hx. exact Hy.
Qed.

Lemma sortByTime_sorted l : StronglySorted byTime (sortByTime l).
Proof.
  induction l as [ | e r IH]; simpl.
  - constructor.
  - apply insertByTime_sorted. exact IH.
Qed.

(** In a sorted list whatever stands in front is not younger than what
    stands behind. *)
Lemma sorted_app_le (l1 l2 : list (string * Z)) :
  StronglySorted byTime (l1 ++ l2) ->
  forall x y, In x l1 -> In y l2 -> snd x <= snd y.
Proof.
  induction l1 as [ | a l1 IH]; simpl; intros Hs x y Hx Hy.
  - destruct Hx.
  - apply StronglySorted_inv in Hs. destruct Hs as [Hs Ha].
    destruct Hx as [<- | Hx].
    + rewrite Forall_forall in Ha. apply Ha. apply in_or_app. right. exact Hy.
    + apply IH; assumption.
Qed.

(** *** Deleting *)

Lemma filter_perm (f : string * Z -> bool) l l' :
  Permutation l l' -> Permutation (filter f l) (filter f l').
Proof.
  induction 1 as [ | x l l' _ IH | x y l | l l' l'' _ IH1 _ IH2 ]; simpl.
  - apply perm_nil.
  - destruct (f x); [ apply perm_skip | ]; exact IH.
  - destruct (f x), (f y); try apply Permutation_refl. apply perm_swap.
  - eapply Permutation_trans; eassumption.
Qed.

Lemma deleteAll_filter gone : forall m, deleteAll gone m = filter (without gone) m.
Proof.
  induction gone as [ | g gone IH]; intros m.
  - simpl. symmetry. apply forallb_filter_id.
    apply forallb_forall. intros x _. reflexivity.
  - unfold deleteAll in *. simpl. rewrite IH. unfold delete.
    induction m as [ | e m IHm]; simpl.
    + reflexivity.
    + unfold without at 2. simpl.
      rewrite (String.eqb_sym (fst e) (fst g)).
      destruct (String.eqb (fst g) (fst e)) eqn:Hge; simpl.
      * exact IHm.
      * fold (without gone e). destruct (without gone e); [ f_equal | ]; exact IHm.
Qed.

Lemma without_self gone e : In e gone -> without gone e = false.
Proof.
  intros Hin. unfold without. apply negb_false_iff.
  apply existsb_exists. exists (fst e). split.
  - unfold keys. apply in_map. exact Hin.
  - apply String.eqb_refl.
Qed.

Lemma without_other gone e : ~ In (fst e) (keys gone) -> without gone e = true.
Proof.
  intros Hn. unfold without. apply negb_true_iff.
  destruct (existsb (String.eqb (fst e)) (keys gone)) eqn:Hex; [ | reflexivity ].
  apply existsb_exists in Hex. destruct Hex as [k [Hk Heq]].
  apply String.eqb_eq in Heq. subst k. contradiction.
Qed.

Lemma NoDup_app_disjoint (A : Type) (l1 l2 : list A) :
  NoDup (l1 ++ l2) -> forall a, In a l1 -> ~ In a l2.
Proof.
  induction l1 as [ | x l1 IH]; simpl; intros Hnd a Ha Hb.
  - exact Ha.
  - inversion Hnd as [ | y l Hx Hrest]; subst.
    destruct Ha as [<- | Ha].
    + apply Hx. apply in_or_app. right. exact Hb.
    + exact (IH Hrest a Ha Hb).
Qed.

(** Deleting the ids of a front part of a list with distinct ids leaves
    the rest. *)
Lemma filter_without_split front rest :
  NoDup (keys (front ++ rest)) ->
  filter (without front) (front ++ rest) = rest.
Proof.
  intros Hnd. rewrite filter_app.
  assert (Hfront : filter (without front) front = []).
  { generalize (@without_self front).
    generalize (without front) as f. intros f Hf.
    induction front as [ | a fr IH] in Hf |- *; simpl.
    - reflexivity.
    - rewrite (Hf a) by (left; reflexivity).
      apply IH. intros e He. apply Hf. right. exact He. }
  rewrite Hfront. simpl.
  apply forallb_filter_id. apply forallb_forall. intros y Hy.
  apply without_other. intros Hk.
  unfold keys in Hnd. rewrite map_app in Hnd.
  apply (NoDup_app_disjoint Hnd Hk). apply in_map. exact Hy.
Qed.

(** *** Eviction *)

Lemma keys_perm m m' : Permutation m m' -> Permutation (keys m) (keys m').
Proof. intros H. unfold keys. apply Permutation_map. exact H. Qed.

(** When the cache is over the bound, what is left is the tail of the
    entries sorted by time. *)
Lemma evictOver_perm max m :
  NoDup (keys m) -> (max < List.length m)%nat ->
  Permutation (evictOver max m)
              (skipn (List.length m - max) (sortByTime m)).
Proof.
  intros Hnd Hlt. unfold evictOver.
  apply Nat.ltb_lt in Hlt. rewrite Hlt.
  rewrite deleteAll_filter. unfold oldestOver.
  rewrite (Permutation_length (sortByTime_perm m)).
  set (k := (List.length m - max)%nat).
  apply Permutation_trans
    with (l' := filter (without (firstn k (sortByTime m))) (sortByTime m)).
  - apply filter_perm. apply Permutation_sym. apply sortByTime_perm.
  - rewrite <- (firstn_skipn k (sortByTime m)) at 2.
    rewrite filter_without_split.
    + apply Permutation_refl.
    + rewrite firstn_skipn.
      apply (Permutation_NoDup (l := keys m)); [ | exact Hnd ].
      apply keys_perm. apply Permutation_sym. apply sortByTime_perm.
Qed.

Lemma evictOver_length max m :
  NoDup (keys m) -> (List.length (evictOver max m) <= max)%nat.
Proof.
  intros Hnd. destruct (Nat.ltb max (List.length m)) eqn:Hlt.
  - apply Nat.ltb_lt in Hlt.
    rewrite (Permutation_length (evictOver_perm Hnd Hlt)).
    rewrite length_skipn, (Permutation_length (sortByTime_perm m)). lia.
  - unfold evictOver. rewrite Hlt. apply Nat.ltb_ge in Hlt. exact Hlt.
Qed.

Lemma evictOver_subset max m e : In e (evictOver max m) -> In e m.
Proof.
  unfold evictOver. destruct (Nat.ltb max (List.length m)); [ | exact (fun H => H) ].
  rewrite deleteAll_filter. intros H. apply filter_In in H. exact (proj1 H).
Qed.

(** Oldest first: an entry that is evicted is not younger than any entry
    that is kept. *)
Lemma evictOver_oldest_first max m e r :
  NoDup (keys m) ->
  In e m -> ~ In e (evictOver max m) -> In r (evictOver max m) ->
  snd e <= snd r.
Proof.
  intros Hnd He Hgone Hkept.
  destruct (Nat.ltb max (List.length m)) eqn:Hlt.
  - apply Nat.ltb_lt in Hlt.
    pose proof (evictOver_perm Hnd Hlt) as Hperm.
    set (k := (List.length m - max)%nat) in *.
    assert (Hr : In r (skipn k (sortByTime m)))
      by (apply (Permutation_in _ Hperm); exact Hkept).
    assert (Hes : In e (firstn k (sortByTime m) ++ skipn k (sortByTime m))).
    { rewrite firstn_skipn.
      apply (Permutation_in _ (Permutation_sym (sortByTime_perm m))). exact He. }
    apply in_app_or in Hes. destruct Hes as [Hfront | Hback].
    + apply (@sorted_app_le (firstn k (sortByTime m)) (skipn k (sortByTime m)));
        try assumption.
      rewrite firstn_skipn. apply sortByTime_sorted.
    + exfalso. apply Hgone.
      apply (Permutation_in _ (Permutation_sym Hperm)). exact Hback.
  - exfalso. apply Hgone. unfold evictOver. rewrite Hlt. exact He.
Qed.

(** *** The sweep *)

Lemma dropExpired_In oneHourAgo m e :
  In e (dropExpired oneHourAgo m) <-> In e m /\ oneHourAgo <= snd e.
Proof.
  unfold dropExpired. rewrite filter_In, negb_true_iff, Z.ltb_ge. reflexivity.
Qed.

Lemma dropExpired_NoDup oneHourAgo m :
  NoDup (keys m) -> NoDup (keys (dropExpired oneHourAgo m)).
Proof.
  unfold dropExpired, keys. induction m as [ | e m IH]; simpl; intros Hnd.
  - constructor.
  - inversion Hnd as [ | k l Hk Hrest]; subst.
    destruct (negb (Z.ltb (snd e) oneHourAgo)); simpl.
    + constructor; [ | exact (IH Hrest) ].
      intros Hin. apply Hk. apply in_map_iff in Hin.
      destruct Hin as [x [Hx Hin]]. apply filter_In in Hin.
      apply in_map_iff. exists x. tauto.
    + exact (IH Hrest).
Qed.

Lemma cleanup_spec max now m :
  NoDup (keys m) ->
  (forall e, In e (cleanup max now m) -> In e m /\ age now e <= CLEANUP_INTERVAL_MS)
  /\ (List.length (cleanup max now m) <= max)%nat
  /\ (forall e r, In e m -> age now e <= CLEANUP_INTERVAL_MS ->
                  ~ In e (cleanup max now m) -> In r (cleanup max now m) ->
                  snd e <= snd r).
Proof.
  intros Hnd. unfold cleanup.
  pose proof (dropExpired_NoDup (now - CLEANUP_INTERVAL_MS) Hnd) as Hnd'.
  repeat split.
  - apply evictOver_subset in H. apply dropExpired_In in H. tauto.
  - apply evictOver_subset in H. apply dropExpired_In in H.
    unfold age. lia.
  - apply evictOver_length. exact Hnd'.
  - intros e r He Hage Hgone Hkept.
    apply (@evictOver_oldest_first max (dropExpired (now - CLEANUP_INTERVAL_MS) m));
      try assumption.
    apply dropExpired_In. unfold age in Hage. split; [ exact He | lia ].
Qed.

(** A sweep keeps an entry that is not older than one hour when the cache
    is within its bound. *)
Lemma sweep_keeps_fresh max now (m : Cache) id ts :
  In (id, ts) m -> now - ts <= CLEANUP_INTERVAL_MS ->
  (List.length m <= max)%nat ->
  has id (cleanup max now m) = true.
Proof.
  intros Hin Hage Hlen. unfold cleanup, evictOver.
  assert (Hsmall : Nat.ltb max (List.length (dropExpired (now - CLEANUP_INTERVAL_MS) m))
                   = false).
  { apply Nat.ltb_ge. unfold dropExpired.
    eapply Nat.le_trans; [ apply filter_length_le | exact Hlen ]. }
  rewrite Hsmall. unfold has. apply existsb_exists.
  exists (id, ts). split.
  - apply dropExpired_In. simpl. split; [ exact Hin | lia ].
  - apply String.eqb_refl.
Qed.

(** With room for two entries the two oldest of four are evicted. *)
Example cleanup_keeps_youngest :
  cleanup 2 50 fourEntries = [("rfq-b", 40); ("rfq-d", 30)].
Proof. reflexivity. Qed.

(** C4 as stated fails at the boundary.  An entry recorded exactly one hour
    before the sweep has age equal to the TTL and is still there after
    it. *)
Lemma entry_aged_exactly_one_hour_survives :
  In ("rfq-1", 0) (cleanupProcessedRequests 3600000 [("rfq-1", 0)])
  /\ age 3600000 ("rfq-1", 0) >= CLEANUP_INTERVAL_MS.
Proof.
  split.
  - vm_compute. left. reflexivity.
  - vm_compute. discriminate.
Qed.

(** C4, amended.  After [cleanupProcessedRequests] (and the identical
    [cleanupProcessedLiquidations]) has run at time [now] on a cache, every
    entry left was in the cache and has age at most one hour (an entry
    older than one hour is gone), at most 1000 entries are left, and
    eviction is oldest first: an unexpired entry that was removed is not
    younger than any entry that was kept. *)
Theorem sweep_bounds :
  forall (now : Z) (m : Cache),
    NoDup (keys m) ->
    (forall e, In e (cleanupProcessedRequests now m) ->
               In e m /\ age now e <= CLEANUP_INTERVAL_MS)
    /\ (List.length (cleanupProcessedRequests now m) <= MAX_PROCESSED_ENTRIES)%nat
    /\ (forall e r, In e m -> age now e <= CLEANUP_INTERVAL_MS ->
                    ~ In e (cleanupProcessedRequests now m) ->
                    In r (cleanupProcessedRequests now m) ->
                    snd e <= snd r)
    /\ cleanupProcessedLiquidations now m = cleanupProcessedRequests now m.
Proof.
  intros now m Hnd.
  destruct (@cleanup_spec MAX_PROCESSED_ENTRIES now m Hnd) as (H1 & H2 & H3).
  unfold cleanupProcessedRequests, cleanupProcessedLiquidations.
  repeat split; try assumption; apply H1; assumption.
Qed.

Lemma sweep_bounds_witness :
  (List.length (cleanupProcessedRequests 3600025 fourEntries) <= MAX_PROCESSED_ENTRIES)%nat
  /\ forall e, In e (cleanupProcessedRequests 3600025 fourEntries) ->
               age 3600025 e <= CLEANUP_INTERVAL_MS.
Proof.
  assert (Hkeys : NoDup (keys fourEntries)).
  { unfold fourEntries, keys. simpl.
    repeat (constructor; [ simpl; intuition discriminate | ]). constructor. }
  destruct (sweep_bounds 3600025 Hkeys) as (Hin & Hlen & _).
  split.
  - exact Hlen.
  - intros e He. exact (proj2 (Hin e He)).
Defined.

End DedupFacts.

(** ** The two ingestion paths and the cache *)
Module BiddingFacts.
Import Dedup Bidding.

Lemma has_set id id' t m :
  has id (set id' t m) = (String.eqb id' id || has id m).
Proof.
  unfold has. induction m as [ | [k v] r IH]; simpl.
  - rewrite orb_false_r. reflexivity.
  - destruct (String.eqb k id') eqn:Hk; simpl.
    + apply String.eqb_eq in Hk. subst k.
      destruct (String.eqb id' id); reflexivity.
    + rewrite IH. destruct (String.eqb k id), (String.eqb id' id); reflexivity.
Qed.

Section Loop.
Variable Request : Type.
Variable requestId : Request -> string.
Variable shouldBidOnRequest : Request -> Z -> bool.
Variable hasRfqOrder : Request -> bool.

Lemma existsb_setStage id k st : forall (ts : list (Task Request)) t,
  nth_error ts k = Some t ->
  String.eqb (requestId (request t)) id = false ->
  existsb (busyWith requestId id) (setStage k st ts) = existsb (busyWith requestId id) ts.
Proof.
  induction k as [ | k IH]; intros [ | a ts] t Hn Hid; simpl in *;
    try discriminate.
  - injection Hn as ->. unfold Bidding.busyWith at 1 3. simpl. rewrite Hid. reflexivity.
  - rewrite (IH ts t Hn Hid). reflexivity.
Qed.

Lemma not_busy_is_done id : forall (ts : list (Task Request)) k t,
  existsb (busyWith requestId id) ts = false ->
  nth_error ts k = Some t ->
  String.eqb (requestId (request t)) id = true ->
  stage t = Done.
Proof.
  induction ts as [ | a ts IH]; intros [ | k] t Hex Hn Hid; simpl in *;
    try discriminate.
  - injection Hn as ->. apply orb_false_elim in Hex. destruct Hex as [Ha _].
    unfold Bidding.busyWith in Ha. rewrite Hid in Ha. simpl in Ha.
    destruct (stage t); simpl in Ha; try discriminate. reflexivity.
  - apply orb_false_elim in Hex. destruct Hex as [_ Hts].
    exact (IH k t Hts Hn Hid).
Qed.

Lemma submissions_app id (s : State Request) evs ps (ts : list (Task Request)) :
  (forall e, In e evs -> match e with Submit i => String.eqb i id = false | _ => True end) ->
  submissions id (mkState ps ts (events s ++ evs)) = submissions id s.
Proof.
  intros Hev. unfold submissions. simpl. rewrite filter_app, length_app.
  assert (Hnil : filter (fun e => match e with
                                  | Submit i => String.eqb i id
                                  | _ => false
                                  end) evs = []).
  { induction evs as [ | e evs IH]; simpl.
    - reflexivity.
    - assert (He := Hev e (or_introl eq_refl)).
      destruct e; try (apply IH; intros x Hx; apply Hev; right; exact Hx).
      rewrite He. apply IH. intros x Hx. apply Hev. right. exact Hx. }
  rewrite Hnil. simpl. lia.
Qed.

Lemma nth_error_last (ts : list (Task Request)) t :
  nth_error (ts ++ [t]) (List.length ts) = Some t.
Proof.
  rewrite nth_error_app2 by lia. rewrite Nat.sub_diag. reflexivity.
Qed.

Lemma setStage_last st (ts : list (Task Request)) t :
  setStage (List.length ts) st (ts ++ [t])
  = ts ++ [mkTask (channel t) (request t) st].
Proof.
  induction ts as [ | a ts IH]; simpl.
  - reflexivity.
  - rewrite IH. reflexivity.
Qed.

Lemma deliver_starts ch r now (s : State Request) :
  has (requestId r) (processedRequests s) = false ->
  Channel_eqb ch Poll && pollBusy (tasks s) = false ->
  shouldBidOnRequest r now && hasRfqOrder r = true ->
  step requestId shouldBidOnRequest hasRfqOrder (Deliver ch r now) s
  = mkState (processedRequests s) (tasks s ++ [mkTask ch r AwaitApprove])
            (events s ++ [Processing (requestId r); Approve (requestId r)]).
Proof.
  intros Hhas Hpoll Hbid. simpl. rewrite Hhas, Hpoll. unfold start.
  rewrite Hbid. reflexivity.
Qed.

(** what resuming the task added last does, stage by stage *)
Lemma resume_last ps (ts : list (Task Request)) ch r st evs ok now :
  resume requestId (List.length ts) ok now (mkState ps (ts ++ [mkTask ch r st]) evs)
  = match st with
    | AwaitApprove =>
        if ok then mkState ps (ts ++ [mkTask ch r AwaitSign]) (evs ++ [Sign (requestId r)])
        else mkState ps (ts ++ [mkTask ch r Settled]) (evs ++ [NotifyError (requestId r)])
    | AwaitSign =>
        if ok then mkState ps (ts ++ [mkTask ch r AwaitSubmit]) (evs ++ [Submit (requestId r)])
        else mkState ps (ts ++ [mkTask ch r Settled]) (evs ++ [NotifyError (requestId r)])
    | AwaitSubmit =>
        if ok then mkState ps (ts ++ [mkTask ch r Settled]) evs
        else mkState ps (ts ++ [mkTask ch r Settled]) (evs ++ [NotifyError (requestId r)])
    | Settled => mkState (set (requestId r) now ps) (ts ++ [mkTask ch r Done]) evs
    | Done => mkState ps (ts ++ [mkTask ch r Done]) evs
    end.
Proof.
  unfold resume. simpl. rewrite nth_error_last. simpl.
  rewrite !setStage_last. simpl.
  destruct st, ok; reflexivity.
Qed.

Lemma filter_no_submit id (extra : list Event) :
  (forall e, In e extra -> match e with Submit _ => False | _ => True end) ->
  filter (fun e => match e with
                   | Submit i => String.eqb i id
                   | _ => false
                   end) extra = [].
Proof.
  induction extra as [ | e extra IH]; intros Hextra; [ reflexivity | ].
  simpl. pose proof (Hextra e (or_introl eq_refl)) as He.
  destruct e; try contradiction;
    apply IH; intros x Hx; apply Hextra; right; exact Hx.
Qed.

Lemma claimed_step id l s :
  keptBy id l s = true -> claimed requestId id s ->
  claimed requestId id (step requestId shouldBidOnRequest hasRfqOrder l s)
  /\ submissions id (step requestId shouldBidOnRequest hasRfqOrder l s)
     = submissions id s.
Proof.
  intros Hl [Hhas Hfl]. destruct l as [ch r now | k ok now | now]; simpl.
  - (* a delivery *)
    destruct (has (requestId r) (processedRequests s)) eqn:Hr.
    + split; [ split | ]; auto.
    + destruct (Channel_eqb ch Poll && pollBusy (tasks s)).
      * split; [ split | ]; auto.
      * assert (Hne : String.eqb (requestId r) id = false).
        { destruct (String.eqb (requestId r) id) eqn:He; [ | reflexivity ].
          apply String.eqb_eq in He. rewrite He, Hhas in Hr. discriminate. }
        unfold start.
        destruct (shouldBidOnRequest r now && hasRfqOrder r).
        -- split; [ split | ].
           ++ exact Hhas.
           ++ unfold Bidding.inFlight in *. simpl. rewrite existsb_app, Hfl. simpl.
              unfold Bidding.busyWith. simpl. rewrite Hne. reflexivity.
           ++ apply submissions_app. intros e [<- | [<- | []]]; exact I.
        -- split; [ split | ].
           ++ exact Hhas.
           ++ unfold Bidding.inFlight in *. simpl. rewrite existsb_app, Hfl. simpl.
              unfold Bidding.busyWith. simpl. rewrite Hne. reflexivity.
           ++ apply submissions_app. intros e [<- | []]; exact I.
  - (* a task resumes *)
    unfold resume. destruct (nth_error (tasks s) k) as [t | ] eqn:Hn.
    + destruct (String.eqb (requestId (request t)) id) eqn:Hid.
      * (* a task for [id]: it is done *)
        rewrite (@not_busy_is_done id (tasks s) k t Hfl Hn Hid).
        split; [ split | ]; auto.
      * assert (Hfl' : forall st, existsb (busyWith requestId id) (setStage k st (tasks s)) = false).
        { intros st. rewrite (@existsb_setStage id k st (tasks s) t Hn Hid). exact Hfl. }
        destruct (stage t); destruct ok; simpl;
          (split; [ split | ]);
          first [ exact Hhas
                | exact Hfl
                | apply Hfl'
                | reflexivity
                | simpl; rewrite has_set, Hhas; apply orb_true_r
                | apply submissions_app; intros e [<- | []]; try exact I; exact Hid ].
    + split; [ split | ]; auto.
  - (* a sweep that keeps the id *)
    split; [ split | ].
    + exact Hl.
    + exact Hfl.
    + reflexivity.
Qed.

Lemma claimed_run id ls : forall s,
  survives requestId shouldBidOnRequest hasRfqOrder id ls s = true ->
  claimed requestId id s ->
  claimed requestId id (run requestId shouldBidOnRequest hasRfqOrder ls s)
  /\ submissions id (run requestId shouldBidOnRequest hasRfqOrder ls s)
     = submissions id s.
Proof.
  induction ls as [ | l ls IH]; intros s Hls Hc.
  - split; [ exact Hc | reflexivity ].
  - simpl in Hls. apply andb_true_iff in Hls. destruct Hls as [Hl Hls].
    destruct (claimed_step Hl Hc) as [Hc' Hs'].
    destruct (IH _ Hls Hc') as [Hc'' Hs''].
    split; [ exact Hc'' | ]. simpl. rewrite Hs''. exact Hs'.
Qed.
Lemma nth_error_setStage_same k st : forall (ts : list (Task Request)) t,
  nth_error ts k = Some t ->
  nth_error (setStage k st ts) k = Some (mkTask (channel t) (request t) st).
Proof.
  induction k as [ | k IH]; intros [ | a ts] t Hn; simpl in *; try discriminate.
  - injection Hn as ->. reflexivity.
  - exact (IH ts t Hn).
Qed.

Lemma nth_error_setStage_other k st j : forall (ts : list (Task Request)),
  j <> k -> nth_error (setStage k st ts) j = nth_error ts j.
Proof.
  revert j. induction k as [ | k IH]; intros [ | j] [ | a ts] Hne; simpl;
    try reflexivity; try contradiction.
  apply IH. intros ->. apply Hne. reflexivity.
Qed.

Lemma submissions_submit id (s : State Request) ps (ts : list (Task Request)) :
  submissions id (mkState ps ts (events s ++ [Submit id])) = S (submissions id s).
Proof.
  unfold submissions. simpl. rewrite filter_app, length_app. simpl.
  rewrite String.eqb_refl. simpl. lia.
Qed.

(** Setting the stage of the call tracked keeps it the only call. *)
Lemma onlyCall_setStage id k ch r st st' ps evs (s : State Request) :
  onlyCall requestId id k ch r st s ->
  onlyCall requestId id k ch r st' (mkState ps (setStage k st' (tasks s)) evs).
Proof.
  intros [Hk Hothers]. split; simpl.
  - rewrite (nth_error_setStage_same st' Hk). reflexivity.
  - intros j t Hj Hne. rewrite (nth_error_setStage_other st' (tasks s) Hne) in Hj.
    exact (Hothers j t Hj Hne).
Qed.

(** Setting the stage of a call for another id does so too. *)
Lemma onlyCall_setStage_other id k ch r st j t st' ps evs (s : State Request) :
  onlyCall requestId id k ch r st s ->
  nth_error (tasks s) j = Some t -> j <> k ->
  String.eqb (requestId (request t)) id = false ->
  onlyCall requestId id k ch r st (mkState ps (setStage j st' (tasks s)) evs).
Proof.
  intros [Hk Hothers] Hj Hne Hid. split; simpl.
  - rewrite nth_error_setStage_other by (intros ->; apply Hne; reflexivity).
    exact Hk.
  - intros j' t' Hj' Hne' Hid'.
    destruct (Nat.eq_dec j' j) as [-> | Hjj].
    + rewrite (nth_error_setStage_same st' Hj) in Hj'. injection Hj' as <-.
      simpl in Hid'. congruence.
    + rewrite (nth_error_setStage_other st' (tasks s) Hjj) in Hj'.
      exact (Hothers j' t' Hj' Hne' Hid').
Qed.

(** When the call tracked resumes, its stage moves as [advance] says and
    [submitBid] is called as [submitsOn] says. *)
Lemma own_resume id k ch r st ok now (s : State Request) :
  requestId r = id ->
  onlyCall requestId id k ch r st s ->
  let s' := step requestId shouldBidOnRequest hasRfqOrder (Resume k ok now) s in
  onlyCall requestId id k ch r (advance st ok) s'
  /\ submissions id s' = ((if submitsOn st ok then 1 else 0) + submissions id s)%nat.
Proof.
  intros Hid Hcall. pose proof Hcall as [Hk _].
  simpl. unfold resume. rewrite Hk. simpl. rewrite Hid.
  destruct st, ok; simpl;
    try (split;
         [ apply (onlyCall_setStage _ _ _ Hcall)
         | first [ apply submissions_submit
                 | apply submissions_app; intros e [<- | []]; exact I
                 | reflexivity ] ]).
  - split; [ exact Hcall | reflexivity ].
  - split; [ exact Hcall | reflexivity ].
Qed.

(** Any other step that is not a delivery of the id leaves the call
    tracked where it is and submits nothing for the id. *)
Lemma other_step id k ch r st l (s : State Request) :
  onlyCall requestId id k ch r st s ->
  delivers requestId id l = false ->
  answers k [l] = [] ->
  let s' := step requestId shouldBidOnRequest hasRfqOrder l s in
  onlyCall requestId id k ch r st s' /\ submissions id s' = submissions id s.
Proof.
  intros Hcall Hquiet Hother. pose proof Hcall as [Hk Hothers].
  destruct l as [ch' r' now | j ok now | now]; simpl.
  - (* another request is delivered *)
    simpl in Hquiet.
    destruct (has (requestId r') (processedRequests s)); [ split; auto | ].
    destruct (Channel_eqb ch' Poll && pollBusy (tasks s)); [ split; auto | ].
    assert (Hlt : (k < List.length (tasks s))%nat).
    { apply nth_error_Some. rewrite Hk. discriminate. }
    assert (Hadd : forall t' evs,
               String.eqb (requestId (request t')) id = false ->
               onlyCall requestId id k ch r st
                        (mkState (processedRequests s) (tasks s ++ [t']) evs)).
    { intros t' evs Hid'. split; simpl.
      - rewrite nth_error_app1 by exact Hlt. exact Hk.
      - intros j t Hj Hne Hid.
        destruct (Nat.lt_ge_cases j (List.length (tasks s))) as [Hin | Hout].
        + rewrite nth_error_app1 in Hj by exact Hin. exact (Hothers j t Hj Hne Hid).
        + rewrite nth_error_app2 in Hj by exact Hout.
          destruct (j - List.length (tasks s))%nat as [ | d]; simpl in Hj.
          * injection Hj as <-. congruence.
          * destruct d; discriminate. }
    unfold start. destruct (shouldBidOnRequest r' now && hasRfqOrder r').
    + split; [ apply Hadd; exact Hquiet | ].
      apply submissions_app. intros e [<- | [<- | []]]; exact I.
    + split; [ apply Hadd; exact Hquiet | ].
      apply submissions_app. intros e [<- | []]; exact I.
  - (* another call resumes *)
    assert (Hne : j <> k).
    { intros ->. simpl in Hother. rewrite Nat.eqb_refl in Hother. discriminate. }
    unfold resume. destruct (nth_error (tasks s) j) as [t | ] eqn:Hj; [ | split; auto ].
    destruct (String.eqb (requestId (request t)) id) eqn:Hid.
    + rewrite (Hothers j t Hj Hne Hid). split; auto.
    + destruct (stage t), ok; simpl;
        (split;
         [ first [ exact Hcall | apply (onlyCall_setStage_other _ _ _ Hcall Hj Hne Hid) ]
         | first [ reflexivity
                 | apply submissions_app; intros e [<- | []]; try exact I; exact Hid ] ]).
  - (* a sweep *)
    split; [ exact Hcall | reflexivity ].
Qed.

Lemma answers_cons k (l : Label Request) ls :
  answers k (l :: ls) = answers k [l] ++ answers k ls.
Proof. unfold answers. simpl. rewrite app_nil_r. reflexivity. Qed.

(** Whatever else is delivered and resumed meanwhile, a call and its
    submissions depend on the answers to that call alone. *)
Lemma onlyCall_run id k ch r mid : forall st (s : State Request),
  requestId r = id ->
  onlyCall requestId id k ch r st s ->
  existsb (delivers requestId id) mid = false ->
  let s' := run requestId shouldBidOnRequest hasRfqOrder mid s in
  onlyCall requestId id k ch r (fst (follow st (answers k mid))) s'
  /\ submissions id s' = (snd (follow st (answers k mid)) + submissions id s)%nat.
Proof.
  induction mid as [ | l mid IH]; intros st s Hid Hcall Hquiet.
  - split; [ exact Hcall | reflexivity ].
  - simpl in Hquiet. apply orb_false_elim in Hquiet. destruct Hquiet as [Hl Hmid].
    change (run requestId shouldBidOnRequest hasRfqOrder (l :: mid) s)
      with (run requestId shouldBidOnRequest hasRfqOrder mid
                (step requestId shouldBidOnRequest hasRfqOrder l s)).
    rewrite answers_cons.
    destruct (answers k [l]) as [ | ok more] eqn:Hans.
    + destruct (other_step Hcall Hl Hans) as [Hcall' Hsame].
      destruct (IH st _ Hid Hcall' Hmid) as [Hend Hcount].
      split; [ exact Hend | ]. simpl in Hcount |- *. rewrite Hcount, Hsame. reflexivity.
    + assert (Hown : exists now, l = Resume k ok now /\ more = []).
      { destruct l as [ch' r' now | j ok' now | now]; simpl in Hans; try discriminate.
        destruct (Nat.eqb j k) eqn:Hj; [ | discriminate ].
        apply Nat.eqb_eq in Hj. injection Hans as -> <-. subst j.
        exists now. split; reflexivity. }
      destruct Hown as (now & -> & ->).
      destruct (own_resume ok now Hid Hcall) as [Hcall' Hgain].
      destruct (IH (advance st ok) _ Hid Hcall' Hmid) as [Hend Hcount].
      simpl app. simpl follow.
      destruct (follow (advance st ok) (answers k mid)) as [st' n].
      simpl in Hend, Hcount, Hgain |- *.
      split; [ exact Hend | ]. rewrite Hcount, Hgain. lia.
Qed.

Lemma follow_settled st oks :
  st = AwaitSubmit \/ st = Settled \/ st = Done -> snd (follow st oks) = O.
Proof.
  revert st. induction oks as [ | ok oks IH]; intros st Hst; [ reflexivity | ].
  simpl. specialize (IH (advance st ok)).
  destruct (follow (advance st ok) oks) as [st' n]. simpl in IH |- *.
  destruct Hst as [-> | [-> | ->]]; simpl in IH |- *; apply IH; auto.
Qed.

(** A call submits once if its approval and its signature come back, and
    not at all otherwise. *)
Lemma follow_submits oks :
  snd (follow AwaitApprove oks) = (if approvedAndSigned oks then 1 else 0)%nat.
Proof.
  destruct oks as [ | ok1 oks]; [ reflexivity | ].
  destruct ok1.
  - destruct oks as [ | ok2 rest]; [ reflexivity | ].
    destruct ok2; simpl.
    + pose proof (@follow_settled AwaitSubmit rest (or_introl eq_refl)) as H.
      destruct (follow AwaitSubmit rest) as [st n]. simpl in H |- *. lia.
    + pose proof (@follow_settled Settled rest (or_intror (or_introl eq_refl))) as H.
      destruct (follow Settled rest) as [st n]. simpl in H |- *. lia.
  - simpl.
    pose proof (@follow_settled Settled oks (or_intror (or_introl eq_refl))) as H.
    destruct (follow Settled oks) as [st n]. simpl in H |- *. lia.
Qed.

(** One delivery that goes through, followed whatever else happens until
    the next delivery of its id. *)
Lemma delivered_once ch r t0 mid (s : State Request) :
  has (requestId r) (processedRequests s) = false ->
  inFlight requestId (requestId r) s = false ->
  Channel_eqb ch Poll && pollBusy (tasks s) = false ->
  existsb (delivers requestId (requestId r)) mid = false ->
  submissions (requestId r)
    (run requestId shouldBidOnRequest hasRfqOrder mid
       (step requestId shouldBidOnRequest hasRfqOrder (Deliver ch r t0) s))
  = ((if shouldBidOnRequest r t0 && hasRfqOrder r
             && approvedAndSigned (answers (List.length (tasks s)) mid)
      then 1 else 0) + submissions (requestId r) s)%nat.
Proof.
  intros Hhas Hfl Hpoll Hquiet.
  assert (Hstart : forall st evs,
             onlyCall requestId (requestId r) (List.length (tasks s)) ch r st
                      (mkState (processedRequests s) (tasks s ++ [mkTask ch r st]) evs)).
  { intros st evs. split; simpl.
    - apply nth_error_last.
    - intros j t Hj Hne Hid.
      destruct (Nat.lt_ge_cases j (List.length (tasks s))) as [Hin | Hout].
      + rewrite nth_error_app1 in Hj by exact Hin.
        exact (@not_busy_is_done (requestId r) (tasks s) j t Hfl Hj Hid).
      + rewrite nth_error_app2 in Hj by exact Hout.
        destruct (j - List.length (tasks s))%nat as [ | d] eqn:Hd; simpl in Hj.
        * exfalso. apply Hne. lia.
        * destruct d; discriminate. }
  simpl step. rewrite Hhas, Hpoll. unfold start.
  destruct (shouldBidOnRequest r t0 && hasRfqOrder r); simpl andb.
  - pose proof (onlyCall_run (mid := mid) eq_refl
                  (Hstart AwaitApprove
                     (events s ++ [Processing (requestId r); Approve (requestId r)]))
                  Hquiet) as Hrun.
    cbv zeta in Hrun. destruct Hrun as [_ Hcount].
    rewrite Hcount, follow_submits. f_equal.
    apply submissions_app. intros e [<- | [<- | []]]; exact I.
  - pose proof (onlyCall_run (mid := mid) eq_refl
                  (Hstart Settled (events s ++ [Processing (requestId r)]))
                  Hquiet) as Hrun.
    cbv zeta in Hrun. destruct Hrun as [_ Hcount].
    rewrite Hcount, (@follow_settled Settled _ (or_intror (or_introl eq_refl))).
    apply submissions_app. intros e [<- | []]; exact I.
Qed.
End Loop.

(** C1 as stated fails.  The poller and the stream deliver the same request
    one millisecond apart.  Neither delivery records the id: after both,
    the cache is still empty although both calls of [processSingleRequest]
    have begun and have asked for the approval.  Both go on to call
    [submitBid], so the id is submitted twice; the id is recorded only
    after that. *)
Lemma both_channels_submit_the_same_id :
  let delivered := run idOf alwaysBid withOrder (firstn 2 bothChannels) (initial string) in
  let submitted := run idOf alwaysBid withOrder (firstn 6 bothChannels) (initial string) in
  let final := run idOf alwaysBid withOrder bothChannels (initial string) in
  processedRequests delivered = []
  /\ events delivered
     = [Processing "rfq-1"; Approve "rfq-1"; Processing "rfq-1"; Approve "rfq-1"]
  /\ submissions "rfq-1" submitted = 2%nat
  /\ processedRequests submitted = []
  /\ submissions "rfq-1" final = 2%nat
  /\ processedRequests final = [("rfq-1", 1009)].
Proof. repeat split; reflexivity. Qed.

(** C1, amended.  On both paths the id is recorded when the call of
    [processSingleRequest] has settled, not when the request is delivered:
    a delivery leaves the cache as it is.  A delivery, by either channel, of
    an id that the cache holds does nothing at all.  When a settled call's
    caller resumes, the id is in the cache.  And once an id is in the cache
    with no call for it under way, no run of deliveries, resumptions and
    sweeps submits it again as long as no sweep removes it: its number of
    submissions stays what it was, and it stays recorded.

    So when a request is delivered by one channel and its id is recorded
    before it is delivered again, it is submitted at most once, whatever
    else is delivered, resumed and swept meanwhile and whatever is
    delivered afterwards: exactly once when it is worth a bid, carries its
    order and both its approval and its signature come back, and not at
    all otherwise.  A sweep less than one hour after the id was recorded,
    on a cache of at most 1000 entries, does not remove it. *)
Theorem recorded_id_is_not_processed_again :
  forall (Request : Type) (requestId : Request -> string)
         (shouldBidOnRequest : Request -> Z -> bool) (hasRfqOrder : Request -> bool)
         (s : State Request),
    (forall ch r now,
        processedRequests (step requestId shouldBidOnRequest hasRfqOrder (Deliver ch r now) s)
        = processedRequests s)
    /\ (forall ch r now,
        has (requestId r) (processedRequests s) = true ->
        step requestId shouldBidOnRequest hasRfqOrder (Deliver ch r now) s = s)
    /\ (forall k ok now t,
        nth_error (tasks s) k = Some t -> stage t = Settled ->
        has (requestId (request t))
            (processedRequests
               (step requestId shouldBidOnRequest hasRfqOrder (Resume k ok now) s))
        = true)
    /\ (forall id ls,
        has id (processedRequests s) = true ->
        inFlight requestId id s = false ->
        survives requestId shouldBidOnRequest hasRfqOrder id ls s = true ->
        submissions id (run requestId shouldBidOnRequest hasRfqOrder ls s)
        = submissions id s
        /\ has id (processedRequests (run requestId shouldBidOnRequest hasRfqOrder ls s))
           = true
        /\ inFlight requestId id (run requestId shouldBidOnRequest hasRfqOrder ls s)
           = false)
    /\ (forall ch r t0 mid ls,
        has (requestId r) (processedRequests s) = false ->
        inFlight requestId (requestId r) s = false ->
        Channel_eqb ch Poll && pollBusy (tasks s) = false ->
        existsb (delivers requestId (requestId r)) mid = false ->
        let recorded :=
          run requestId shouldBidOnRequest hasRfqOrder mid
              (step requestId shouldBidOnRequest hasRfqOrder (Deliver ch r t0) s) in
        has (requestId r) (processedRequests recorded) = true ->
        inFlight requestId (requestId r) recorded = false ->
        survives requestId shouldBidOnRequest hasRfqOrder (requestId r) ls recorded
        = true ->
        submissions (requestId r)
          (run requestId shouldBidOnRequest hasRfqOrder ls recorded)
        = ((if shouldBidOnRequest r t0 && hasRfqOrder r
                   && approvedAndSigned (answers (List.length (tasks s)) mid)
            then 1 else 0) + submissions (requestId r) s)%nat)
    /\ (forall id ts now,
        In (id, ts) (processedRequests s) ->
        now - ts <= CLEANUP_INTERVAL_MS ->
        (List.length (processedRequests s) <= MAX_PROCESSED_ENTRIES)%nat ->
        keptBy id (Sweep now) s = true).
Proof.
  intros Request requestId shouldBid hasOrder s.
  split; [ | split; [ | split; [ | split; [ | split ] ] ] ].
  - intros ch r now. simpl.
    destruct (has (requestId r) (processedRequests s)); [ reflexivity | ].
    destruct (Channel_eqb ch Poll && pollBusy (tasks s)); [ reflexivity | ].
    unfold start. destruct (shouldBid r now && hasOrder r); reflexivity.
  - intros ch r now Hhas. simpl. rewrite Hhas. reflexivity.
  - intros k ok now t Hn Hst. simpl. unfold resume. rewrite Hn, Hst. simpl.
    rewrite has_set, String.eqb_refl. reflexivity.
  - intros id ls Hhas Hfl Hls.
    destruct (@claimed_run Request requestId shouldBid hasOrder id ls s Hls
                (conj Hhas Hfl)) as [[Hhas' Hfl'] Hsub].
    split; [ exact Hsub | split; [ exact Hhas' | exact Hfl' ] ].
  - intros ch r t0 mid ls Hhas Hfl Hpoll Hquiet recorded Hrec Hidle Hls.
    destruct (@claimed_run Request requestId shouldBid hasOrder (requestId r) ls
                recorded Hls (conj Hrec Hidle)) as [_ Hsame].
    rewrite Hsame. unfold recorded.
    exact (@delivered_once Request requestId shouldBid hasOrder ch r t0 mid s
             Hhas Hfl Hpoll Hquiet).
  - intros id ts now Hin Hage Hlen. simpl.
    exact (DedupFacts.sweep_keeps_fresh Hin Hage Hlen).
Qed.

(** The poller handles "rfq-1" while the stream brings "rfq-2"; later both
    channels deliver both ids again.  "rfq-1" was signed and is submitted
    once; the approval for "rfq-2" threw, so it is recorded without a
    submission and is not tried again. *)
Lemma recorded_id_is_not_processed_again_witness :
  let first := step idOf alwaysBid withOrder (Deliver Poll "rfq-1" 1000) (initial string) in
  let recorded := run idOf alwaysBid withOrder interleaved first in
  submissions "rfq-1" (run idOf alwaysBid withOrder bothAgain recorded) = 1%nat
  /\ submissions "rfq-2" (run idOf alwaysBid withOrder bothAgain recorded) = 0%nat
  /\ step idOf alwaysBid withOrder (Deliver Stream "rfq-1" 2000) recorded = recorded.
Proof.
  intros first recorded.
  destruct (recorded_id_is_not_processed_again idOf alwaysBid withOrder (initial string))
    as (_ & _ & _ & _ & Hfirst & _).
  destruct (recorded_id_is_not_processed_again idOf alwaysBid withOrder first)
    as (_ & _ & _ & _ & Hsecond & _).
  destruct (recorded_id_is_not_processed_again idOf alwaysBid withOrder recorded)
    as (_ & Hskip & _ & _ & _ & _).
  split; [ | split ].
  - exact (Hfirst Poll "rfq-1" 1000 interleaved bothAgain
                  eq_refl eq_refl eq_refl eq_refl eq_refl eq_refl eq_refl).
  - exact (Hsecond Stream "rfq-2" 1001 (tl interleaved) bothAgain
                   eq_refl eq_refl eq_refl eq_refl eq_refl eq_refl eq_refl).
  - apply Hskip. reflexivity.
Defined.

End BiddingFacts.

(** ** The stream client *)
Module StreamFacts.
Import Js Stream.

Lemma emit_nil c : emit [] c = c.
Proof. destruct c. unfold emit. simpl. rewrite app_nil_r. reflexivity. Qed.

Lemma clearTimeout_single t d : clearTimeout t [(t, d)] = [].
Proof. unfold clearTimeout. simpl. rewrite Nat.eqb_refl. reflexivity. Qed.

Section Client.
Variable config : WebSocketConfig.
Variable JSON_parse : string -> option Json.

(** [handleMessage] only emits. *)
Lemma handleMessage_emits c data :
  exists evs, handleMessage config JSON_parse c data = Normal (emit evs c).
Proof.
  unfold handleMessage.
  destruct (handleMessageTry config JSON_parse data) as [evs | ].
  - exists evs. reflexivity.
  - exists []. rewrite emit_nil. reflexivity.
Qed.

Lemma subscribe_fields c :
  ws (subscribe c) = ws c /\ isConnected (subscribe c) = isConnected c
  /\ shouldReconnect (subscribe c) = shouldReconnect c
  /\ reconnectTimeout (subscribe c) = reconnectTimeout c
  /\ timers (subscribe c) = timers c
  /\ nextSocket (subscribe c) = nextSocket c.
Proof.
  unfold subscribe. destruct (ws c) as [k | ] eqn:Hw.
  - destruct (existsb (Nat.eqb k) (openSockets c)); simpl; repeat split; auto.
  - repeat split; auto.
Qed.

(** *** The armed timers are tracked *)

Lemma scheduleReconnect_tracked c :
  timersTracked config c -> timersTracked config (scheduleReconnect config c).
Proof.
  unfold timersTracked, scheduleReconnect. intros H.
  destruct (reconnectTimeout c) as [t | ] eqn:Ht.
  - rewrite Ht. exact H.
  - simpl. rewrite H. reflexivity.
Qed.

Lemma connect_tracked ok c :
  timersTracked config c -> timersTracked config (connect ok c).
Proof.
  unfold timersTracked, connect. intros H.
  destruct (ws c); [ exact H | ]. destruct ok; simpl; exact H.
Qed.

Lemma disconnect_tracked c :
  timersTracked config c -> timersTracked config (disconnect c).
Proof.
  unfold timersTracked, disconnect. intros H. simpl.
  destruct (reconnectTimeout c) as [t | ].
  - rewrite H. apply clearTimeout_single.
  - exact H.
Qed.

Lemma step_tracked l c :
  timersTracked config c -> timersTracked config (step config JSON_parse l c).
Proof.
  intros H. destruct l as [ok | | k | k data | k reason | k | t ok]; simpl.
  - apply connect_tracked. exact H.
  - apply disconnect_tracked. exact H.
  - destruct (Nat.ltb k (nextSocket c)); [ | exact H ].
    unfold onOpen, timersTracked, emit. simpl.
    match goal with
    | |- context [subscribe ?x] =>
        destruct (subscribe_fields x) as (_ & _ & _ & Hr & Ht & _)
    end.
    rewrite Hr, Ht. exact H.
  - destruct (Nat.ltb k (nextSocket c)); [ | exact H ].
    destruct (handleMessage_emits c data) as [evs ->]. exact H.
  - destruct (Nat.ltb k (nextSocket c)); [ | exact H ].
    unfold onClose. simpl.
    destruct (shouldReconnect c); [ apply scheduleReconnect_tracked | ]; exact H.
  - destruct (Nat.ltb k (nextSocket c)); exact H.
  - destruct (armed t c) eqn:Ha; [ | exact H ].
    unfold onTimer. apply connect_tracked.
    unfold timersTracked in *. simpl.
    unfold armed in Ha. rewrite H in *.
    destruct (reconnectTimeout c) as [t' | ]; simpl in Ha; [ | discriminate ].
    rewrite orb_false_r in Ha. apply Nat.eqb_eq in Ha. subst t'.
    apply clearTimeout_single.
Qed.

Lemma run_tracked ls : forall c,
  timersTracked config c -> timersTracked config (run config JSON_parse ls c).
Proof.
  induction ls as [ | l ls IH]; intros c H; simpl.
  - exact H.
  - apply IH. apply step_tracked. exact H.
Qed.

Lemma reachable_tracked ls : timersTracked config (run config JSON_parse ls initial).
Proof. apply run_tracked. reflexivity. Qed.

(** *** After [disconnect()] *)

Lemma disconnect_stopped c : timersTracked config c -> stopped (disconnect c).
Proof.
  intros H. apply disconnect_tracked in H. unfold timersTracked in H.
  unfold stopped. simpl in *. tauto.
Qed.

Lemma step_stopped l c :
  isConnect l = false -> stopped c ->
  stopped (step config JSON_parse l c)
  /\ nextSocket (step config JSON_parse l c) = nextSocket c.
Proof.
  intros Hl (Ht & Hr & Hs & Hw).
  destruct l as [ok | | k | k data | k reason | k | t ok]; simpl;
    try discriminate.
  - unfold stopped, disconnect. simpl. rewrite Hr. tauto.
  - destruct (Nat.ltb k (nextSocket c)); [ | unfold stopped; tauto ].
    unfold onOpen, stopped, emit. simpl.
    match goal with
    | |- context [subscribe ?x] =>
        destruct (subscribe_fields x) as (Hw' & _ & Hs' & Hr' & Ht' & Hn')
    end.
    rewrite Hw', Hs', Hr', Ht', Hn'. simpl. tauto.
  - destruct (Nat.ltb k (nextSocket c)); [ | unfold stopped; tauto ].
    destruct (handleMessage_emits c data) as [evs ->].
    unfold stopped. simpl. tauto.
  - destruct (Nat.ltb k (nextSocket c)); [ | unfold stopped; tauto ].
    unfold onClose. simpl. rewrite Hs. unfold stopped. simpl. tauto.
  - destruct (Nat.ltb k (nextSocket c)); unfold stopped; simpl; tauto.
  - unfold armed. rewrite Ht. simpl. unfold stopped. tauto.
Qed.

Lemma run_stopped ls : forall c,
  forallb (fun l => negb (isConnect l)) ls = true -> stopped c ->
  stopped (run config JSON_parse ls c)
  /\ nextSocket (run config JSON_parse ls c) = nextSocket c.
Proof.
  induction ls as [ | l ls IH]; intros c Hls Hc; simpl.
  - tauto.
  - simpl in Hls. apply andb_true_iff in Hls. destruct Hls as [Hl Hls].
    apply negb_true_iff in Hl.
    destruct (step_stopped Hl Hc) as [Hc' Hn'].
    destruct (IH _ Hls Hc') as [Hc'' Hn''].
    split; [ exact Hc'' | congruence ].
Qed.
End Client.

(** C7.  In every state the client can reach, at most one reconnect timer is
    armed.  A close event of one of its sockets while reconnection is wanted
    leaves exactly one timer armed, with the configured delay; if a timer
    was already pending, a further close or error arms none.  [disconnect()]
    is idempotent and leaves no timer armed, so that no timer fires after
    it; and whatever happens next short of a call of [connect()], no timer
    is armed, no socket is created and reconnection stays switched off. *)
Theorem reconnect_timer_and_disconnect :
  forall (config : WebSocketConfig) (JSON_parse : string -> option Json)
         (ls : list Label),
    let c := run config JSON_parse ls initial in
    (List.length (timers c) <= 1)%nat
    /\ (forall k reason,
          (k < nextSocket c)%nat -> shouldReconnect c = true ->
          exists t,
            timers (step config JSON_parse (SockClose k reason) c)
            = [(t, reconnectIntervalMs config)]
            /\ reconnectTimeout (step config JSON_parse (SockClose k reason) c) = Some t)
    /\ (forall k reason,
          reconnectTimeout c <> None ->
          timers (step config JSON_parse (SockClose k reason) c) = timers c
          /\ timers (step config JSON_parse (SockError k) c) = timers c)
    /\ step config JSON_parse Disconnect (step config JSON_parse Disconnect c)
       = step config JSON_parse Disconnect c
    /\ timers (step config JSON_parse Disconnect c) = []
    /\ (forall t ok,
          step config JSON_parse (Fire t ok) (step config JSON_parse Disconnect c)
          = step config JSON_parse Disconnect c)
    /\ (forall ls',
          forallb (fun l => negb (isConnect l)) ls' = true ->
          let c' := run config JSON_parse ls' (step config JSON_parse Disconnect c) in
          timers c' = [] /\ reconnectTimeout c' = None
          /\ shouldReconnect c' = false /\ ws c' = None
          /\ nextSocket c' = nextSocket c).
Proof.
  intros config JSON_parse ls c.
  pose proof (reachable_tracked config JSON_parse ls) as Htr. fold c in Htr.
  pose proof (disconnect_stopped Htr) as Hstop.
  split; [ | split; [ | split; [ | split; [ | split; [ | split ] ] ] ] ].
  - unfold timersTracked in Htr. rewrite Htr.
    destruct (reconnectTimeout c); simpl; lia.
  - intros k reason Hk Hs. simpl.
    apply Nat.ltb_lt in Hk. rewrite Hk.
    unfold onClose. simpl. rewrite Hs.
    unfold scheduleReconnect, timersTracked in *. simpl.
    destruct (reconnectTimeout c) as [t | ]; simpl.
    + exists t. split; [ exact Htr | reflexivity ].
    + exists (nextTimer c). rewrite Htr. split; reflexivity.
  - intros k reason Hp. simpl.
    destruct (Nat.ltb k (nextSocket c)); [ | split; reflexivity ].
    split; [ | reflexivity ].
    unfold onClose. simpl. destruct (shouldReconnect c); [ | reflexivity ].
    unfold scheduleReconnect. simpl.
    destruct (reconnectTimeout c); [ reflexivity | contradiction ].
  - reflexivity.
  - exact (proj1 Hstop).
  - intros t ok. simpl. unfold armed.
    change (timers (disconnect c)) with
      (match reconnectTimeout c with
       | Some t0 => clearTimeout t0 (timers c)
       | None => timers c
       end).
    destruct Hstop as [Ht _]. simpl in Ht. rewrite Ht. reflexivity.
  - intros ls' Hls' c'.
    destruct (@run_stopped config JSON_parse ls' (disconnect c) Hls' Hstop)
      as [(Ht & Hr & Hs & Hw) Hn].
    fold c' in Ht, Hr, Hs, Hw, Hn.
    repeat split; assumption.
Qed.

Lemma reconnect_timer_and_disconnect_witness :
  let c := run sampleConfig parseSample [Connect true; SockOpen 0] initial in
  timers (step sampleConfig parseSample (SockClose 0 "Code: 1006") c) = [(0%nat, 5000)]
  /\ timers (run sampleConfig parseSample
               [SockClose 0 "Code: 1006"; SockError 0; SockClose 0 "Code: 1006"] c)
     = [(0%nat, 5000)]
  /\ timers (run sampleConfig parseSample
               [SockClose 0 "Code: 1006"; Disconnect; Fire 0 true; SockClose 0 "gone"] c)
     = [].
Proof.
  intros c.
  destruct (reconnect_timer_and_disconnect sampleConfig parseSample
              [Connect true; SockOpen 0]) as (_ & Hclose & _).
  destruct (Hclose 0%nat "Code: 1006") as (t & Ht & _).
  - unfold c. simpl. lia.
  - reflexivity.
  - split; [ | split ].
    + reflexivity.
    + destruct (reconnect_timer_and_disconnect sampleConfig parseSample
                  [Connect true; SockOpen 0; SockClose 0 "Code: 1006"])
        as (_ & _ & Hmore & _).
      destruct (Hmore 0%nat "Code: 1006") as [_ Herr].
      * discriminate.
      * reflexivity.
    + destruct (reconnect_timer_and_disconnect sampleConfig parseSample
                  [Connect true; SockOpen 0; SockClose 0 "Code: 1006"])
        as (_ & _ & _ & _ & _ & _ & Hquiet).
      destruct (Hquiet [Fire 0 true; SockClose 0 "gone"] eq_refl) as (Hno & _).
      exact Hno.
Defined.

(** C8.  [handleMessage] never throws and touches nothing but the list of
    emitted events: the socket, the flags and the timers stay as they are.
    A text that [JSON.parse] rejects, and a parsed message whose [type] is
    none of rfq_request, liquidation, bid_accepted and pong (or that has no
    readable [type]), changes nothing at all: no event is emitted. *)
Theorem unrecognized_messages_are_dropped :
  forall (config : WebSocketConfig) (JSON_parse : string -> option Json)
         (c : Client) (data : string),
    (exists c', handleMessage config JSON_parse c data = Normal c'
                /\ ws c' = ws c /\ isConnected c' = isConnected c
                /\ shouldReconnect c' = shouldReconnect c
                /\ reconnectTimeout c' = reconnectTimeout c
                /\ timers c' = timers c /\ closeCalls c' = closeCalls c)
    /\ (JSON_parse data = None ->
        handleMessage config JSON_parse c data = Normal c)
    /\ (forall message,
          JSON_parse data = Some message -> recognized message = false ->
          handleMessage config JSON_parse c data = Normal c).
Proof.
  intros config JSON_parse c data. split; [ | split ].
  - destruct (handleMessage_emits config JSON_parse c data) as [evs ->].
    exists (emit evs c). repeat split; reflexivity.
  - intros Hp. unfold handleMessage, handleMessageTry. rewrite Hp. reflexivity.
  - intros message Hp Hrec. unfold handleMessage, handleMessageTry. rewrite Hp.
    unfold recognized in Hrec.
    destruct (getProp message "type") as [ty | ]; [ | reflexivity ].
    apply orb_false_elim in Hrec. destruct Hrec as [Hrec Hpong].
    apply orb_false_elim in Hrec. destruct Hrec as [Hrec Hbid].
    apply orb_false_elim in Hrec. destruct Hrec as [Hrfq Hliq].
    rewrite Hrfq, Hliq, Hbid, Hpong. rewrite emit_nil. reflexivity.
Qed.

Lemma unrecognized_messages_are_dropped_witness :
  handleMessage sampleConfig parseSample initial "not json" = Normal initial
  /\ handleMessage sampleConfig parseSample initial "{}" = Normal initial
  /\ handleMessage sampleConfig parseSample initial "null" = Normal initial.
Proof.
  split; [ | split ].
  - destruct (unrecognized_messages_are_dropped sampleConfig parseSample
                initial "not json") as (_ & Hbad & _).
    apply Hbad. reflexivity.
  - destruct (unrecognized_messages_are_dropped sampleConfig parseSample
                initial "{}") as (_ & _ & Hunknown).
    apply (Hunknown (JObj [])); reflexivity.
  - destruct (unrecognized_messages_are_dropped sampleConfig parseSample
                initial "null") as (_ & _ & Hunknown).
    apply (Hunknown JNull); reflexivity.
Defined.

End StreamFacts.

(** ** Finalizing twice *)
Module RfqApiFacts.
Import Js Retry RfqApi.

Lemma prefix_app needle : forall hay,
  String.prefix needle hay = true <-> exists after, hay = append needle after.
Proof.
  induction needle as [ | c needle IH]; intros hay; simpl.
  - split; [ intros _; exists hay; reflexivity | destruct hay; reflexivity ].
  - destruct hay as [ | d hay].
    + split; [ discriminate | intros [after H]; discriminate ].
    + simpl. destruct (Ascii.ascii_dec c d) as [-> | Hne].
      * rewrite IH. split.
        -- intros [after ->]. exists after. reflexivity.
        -- intros [after H]. injection H as ->. exists after. reflexivity.
      * split; [ discriminate | ].
        intros [after H]. injection H as <- _. contradiction.
Qed.

(** [hay.includes(needle)] holds exactly when [needle] occurs in [hay] *)
Lemma includes_iff needle : forall hay,
  includes hay needle = true
  <-> exists before after, hay = append before (append needle after).
Proof.
  induction hay as [ | d hay IH].
  - change (includes EmptyString needle)
      with (if String.prefix needle EmptyString then true else false).
    destruct (String.prefix needle EmptyString) eqn:Hp.
    + split; [ intros _ | reflexivity ].
      apply prefix_app in Hp. destruct Hp as [after ->].
      exists EmptyString, after. reflexivity.
    + split; [ discriminate | ].
      intros (before & after & H). destruct before; [ | discriminate ].
      simpl in H. assert (Ht : String.prefix needle EmptyString = true).
      { apply prefix_app. exists after. exact H. }
      congruence.
  - change (includes (String d hay) needle)
      with (if String.prefix needle (String d hay) then true else includes hay needle).
    destruct (String.prefix needle (String d hay)) eqn:Hp.
    + split; [ intros _ | reflexivity ].
      apply prefix_app in Hp. destruct Hp as [after ->].
      exists EmptyString, after. reflexivity.
    + rewrite IH. split.
      * intros (before & after & ->). exists (String d before), after. reflexivity.
      * intros (before & after & H). destruct before as [ | b before].
        -- simpl in H. assert (Ht : String.prefix needle (String d hay) = true).
           { apply prefix_app. exists after. exact H. }
           congruence.
        -- injection H as _ ->. exists before, after. reflexivity.
Qed.

(** a text that contains [needle] contains its first character *)
Lemma includes_first_character c needle : forall hay,
  includes hay (String c needle) = true -> In c (list_ascii_of_string hay).
Proof.
  intros hay H. apply includes_iff in H. destruct H as (before & after & ->).
  induction before as [ | b before IH]; simpl.
  - left. reflexivity.
  - right. exact IH.
Qed.

(** a status is printed with digits and a sign *)
Lemma digits_of_uint (d : Decimal.uint) :
  forall c, In c (list_ascii_of_string (NilEmpty.string_of_uint d)) -> c <> "A"%char.
Proof.
  induction d; simpl; intros c Hc;
    try contradiction;
    (destruct Hc as [<- | Hc]; [ discriminate | exact (IHd c Hc) ]).
Qed.

Lemma statusText_characters (status : Z) :
  forall c, In c (list_ascii_of_string (statusText status)) -> c <> "A"%char.
Proof.
  intros c. unfold statusText, NilZero.string_of_int.
  destruct (Z.to_int status) as [d | d]; unfold NilZero.string_of_uint.
  - destruct d; simpl;
      try (intros [<- | []]; discriminate);
      (intros [<- | Hc]; [ discriminate | exact (digits_of_uint Hc) ]).
  - simpl. intros [<- | Hc]; [ discriminate | ].
    destruct d; simpl in Hc;
      try (destruct Hc as [<- | []]; discriminate);
      (destruct Hc as [<- | Hc]; [ discriminate | exact (digits_of_uint Hc) ]).
Qed.

Lemma list_ascii_of_string_app (a b : string) :
  list_ascii_of_string (append a b) = list_ascii_of_string a ++ list_ascii_of_string b.
Proof. induction a as [ | c a IH]; simpl; [ reflexivity | rewrite IH; reflexivity ]. Qed.

(** The error axios makes of an HTTP answer never passes the test of
    [callTransform], whatever the status and whatever the service wrote. *)
Lemma axiosError_not_recognized (code : option string) (a : HttpAnswer) :
  alreadyExecuted (axiosError code a) = false.
Proof.
  unfold alreadyExecuted, axiosError. cbn [instanceOfError message andb].
  destruct (includes _ "Already executed") eqn:Hin; [ | reflexivity ].
  apply includes_first_character in Hin.
  rewrite list_ascii_of_string_app in Hin. apply in_app_or in Hin.
  destruct Hin as [Hin | Hin].
  - exfalso. simpl in Hin.
    repeat (destruct Hin as [Hin | Hin]; [ discriminate | ]). exact Hin.
  - apply statusText_characters in Hin. contradiction Hin. reflexivity.
Qed.

Lemma alreadyExecuted_iff (error : Thrown) :
  alreadyExecuted error = true
  <-> exists e before after,
        error = Obj e /\ instanceOfError e = true
        /\ message e = Some (append before (append "Already executed" after)).
Proof.
  unfold alreadyExecuted. split.
  - destruct error as [ | e]; [ discriminate | ].
    intros H. apply andb_true_iff in H. destruct H as [Hi Hm].
    destruct (message e) as [m | ] eqn:Hmsg; [ | discriminate ].
    apply includes_iff in Hm. destruct Hm as (before & after & ->).
    exists e, before, after. split; [ reflexivity | split; [ exact Hi | exact Hmsg ] ].
  - intros (e & before & after & -> & Hi & Hm). rewrite Hi, Hm. simpl.
    apply includes_iff. exists before, after. reflexivity.
Qed.

(** C9.  What the [catch] of [callTransform] does with a failed request.
    It returns the empty result exactly when the error is an [Error] whose
    own [message] contains "Already executed"; every other error is thrown
    again as it is, and a response is returned as it is.  The error that
    axios makes of an HTTP answer of the service never passes that test:
    its [message] is axios's "Request failed with status code ...", and what
    the service wrote, "Already executed" included, is in
    [response.data.message], which the test of the earlier loop reads and
    this one does not.  So a second finalize that the service refuses over
    HTTP as already executed is thrown to the caller, not reported as a
    success. *)
Theorem callTransform_rethrows_already_executed_answer :
  forall (W : Type) (axiosPost : string -> W -> (TransformResult + Thrown) * W)
         (requestId : string) (w : W),
    (forall error w',
        post axiosPost requestId w = (inr error, w') ->
        let mentions :=
          exists e before after,
            error = Obj e /\ instanceOfError e = true
            /\ message e = Some (append before (append "Already executed" after)) in
        (mentions -> callTransform axiosPost true requestId w = (inl emptyResult, w'))
        /\ (~ mentions -> callTransform axiosPost true requestId w = (inr error, w')))
    /\ (forall response w',
        post axiosPost requestId w = (inl response, w') ->
        callTransform axiosPost true requestId w = (inl response, w'))
    /\ (forall code a w',
        post axiosPost requestId w = (inr (axiosError code a), w') ->
        callTransform axiosPost true requestId w = (inr (axiosError code a), w')).
Proof.
  intros W axiosPost requestId w. unfold callTransform.
  split; [ | split ].
  - intros error w' Hpost. rewrite Hpost. split.
    + intros Hm. apply alreadyExecuted_iff in Hm. rewrite Hm. reflexivity.
    + intros Hm. destruct (alreadyExecuted error) eqn:Hae; [ | reflexivity ].
      exfalso. apply Hm. apply alreadyExecuted_iff. exact Hae.
  - intros response w' Hpost. rewrite Hpost. reflexivity.
  - intros code a w' Hpost. rewrite Hpost, axiosError_not_recognized. reflexivity.
Qed.

(** Finalizing the request "rfq-3" a second time against the service that
    answers over HTTP: the earlier loop's test recognizes the answer,
    [callTransform] throws it. *)
Lemma callTransform_rethrows_already_executed_answer_witness :
  legacyAlreadyExecuted (mkHttpAnswer 400 (Some "Already executed")) = true
  /\ callTransform executeOnceHttp true "rfq-3" ["rfq-3"]
     = (inr (axiosError (Some "ERR_BAD_REQUEST")
                        (mkHttpAnswer 400 (Some "Already executed"))), ["rfq-3"])
  /\ callTransform executeOnce true "rfq-3" ["rfq-3"] = (inl emptyResult, ["rfq-3"]).
Proof.
  split; [ reflexivity | split ].
  - destruct (callTransform_rethrows_already_executed_answer
                executeOnceHttp "rfq-3" ["rfq-3"]) as (_ & _ & Hhttp).
    exact (Hhttp (Some "ERR_BAD_REQUEST") (mkHttpAnswer 400 (Some "Already executed"))
                 ["rfq-3"] eq_refl).
  - destruct (callTransform_rethrows_already_executed_answer
                executeOnce "rfq-3" ["rfq-3"]) as (Hcatch & _ & _).
    destruct (Hcatch (Error "Already executed") ["rfq-3"] eq_refl) as [Hdone _].
    apply Hdone.
    exists (mkErrorObject true (Some "Already executed") None None),
           EmptyString, EmptyString.
    split; [ reflexivity | split; reflexivity ].
Defined.

End RfqApiFacts.

(** ** Positions with nothing to seize *)
Module LiquidationFacts.
Import Js Liquidation.

(** C10.  When [collateralAmountThatCanBeSeized] is missing (or empty) or
    zero, [calculateLiquidationAmounts] gives '0' for the debt to repay and
    for the collateral to seize, [shouldLiquidate] is false, and
    [processSingleLiquidation] makes no call at all: it approves nothing,
    signs nothing and triggers nothing, whatever those calls would have
    answered. *)
Theorem zero_collateral_is_never_liquidated :
  forall (ops : BigNumberOps) (l : Liquidation) (cfg : AppConfig)
         (approveOk signOk : bool) (triggered : option string),
    falsy (collateralAmountThatCanBeSeized l) = true
    \/ isZero (fromString (collateralAmountThatCanBeSeized l)) = true ->
    debtToRepay (calculateLiquidationAmounts l) = "0"%string
    /\ collateralToSeize (calculateLiquidationAmounts l) = "0"%string
    /\ shouldLiquidate l (calculateLiquidationAmounts l) cfg = false
    /\ processSingleLiquidation l cfg approveOk signOk triggered = [].
Proof.
  intros ops l cfg approveOk signOk triggered Hzero.
  assert (Hamounts : calculateLiquidationAmounts l = mkAmounts "0" "0" "0" 6 6).
  { unfold calculateLiquidationAmounts.
    destruct Hzero as [Hf | Hz].
    - rewrite Hf. reflexivity.
    - rewrite Hz, orb_true_r. reflexivity. }
  assert (Hshould : shouldLiquidate l (calculateLiquidationAmounts l) cfg = false).
  { rewrite Hamounts. unfold shouldLiquidate.
    destruct (Qle_bool 1 (healthFactor l)); [ reflexivity | ].
    destruct (negb (existsb (Z.eqb (chainId l)) (supportedChains cfg)));
      reflexivity. }
  repeat split.
  - rewrite Hamounts. reflexivity.
  - rewrite Hamounts. reflexivity.
  - exact Hshould.
  - unfold processSingleLiquidation. rewrite Hshould. reflexivity.
Qed.

Lemma zero_collateral_is_never_liquidated_witness :
  processSingleLiquidation (ops:=Decimal.ops) (Decimal.underwater (Some "0.00")) Decimal.sampleConfig
                           true true (Some "0xhash") = []
  /\ processSingleLiquidation (ops:=Decimal.ops) (Decimal.underwater None) Decimal.sampleConfig
                              true true (Some "0xhash") = [].
Proof.
  split.
  - apply (@zero_collateral_is_never_liquidated Decimal.ops
             (Decimal.underwater (Some "0.00")) Decimal.sampleConfig
             true true (Some "0xhash")).
    right. reflexivity.
  - apply (@zero_collateral_is_never_liquidated Decimal.ops
             (Decimal.underwater None) Decimal.sampleConfig
             true true (Some "0xhash")).
    left. reflexivity.
Defined.

(** A position with collateral to seize does go through. *)
Example underwater_position_is_liquidated :
  processSingleLiquidation (ops:=Decimal.ops) (Decimal.underwater (Some "50.5")) Decimal.sampleConfig
                           true true (Some "0xhash")
  = [Approve "0xproxy" "39987920" "0xdebt"; Sign "39987920" "40804000";
     Trigger "liq-1"; NotifyTriggered "liq-1" "0xhash" "-39.6"].
Proof. reflexivity. Qed.

End LiquidationFacts.

(** ** More on the retry executor *)
Module BackoffFacts.
Import Js Retry Backoff.

Section Loop.
Variables W T : Type.
Variable fn : W -> (T + Thrown) * W.
Variable options : RetryOptions.

(** [n] calls in a row that fail with a retried error, with attempts to
    spare, bring the loop [n] turns further. *)
Lemma retryLoop_failures (ws : nat -> W) (es : nat -> Thrown) :
  forall n fuel attempt d last done k,
    (forall i, (i < n)%nat ->
               fn (ws (k + i)%nat) = (inr (es (k + i)%nat), ws (S (k + i)))
               /\ classifies options (es (k + i)%nat) = true) ->
    attempt + Z.of_nat n <= maxAttempts options ->
    exists last',
      retryLoop fn options (n + fuel) attempt d last (ws k) done
      = retryLoop fn options fuel (attempt + Z.of_nat n) (delayAfter options d n)
                  last' (ws (k + n)%nat) (done ++ failedRounds (schedule options d n)).
Proof.
  induction n as [ | n IH]; intros fuel attempt d last done k Hfail Hroom.
  - exists last. simpl. rewrite Nat.add_0_r, Z.add_0_r, app_nil_r. reflexivity.
  - destruct (Hfail 0%nat ltac:(lia)) as [Hfn Hcl].
    rewrite Nat.add_0_r in Hfn, Hcl.
    change (S n + fuel)%nat with (S (n + fuel)).
    rewrite (@RetryFacts.retryLoop_retry W T fn options (n + fuel) attempt d last
               (ws k) done (es k) (ws (S k))); [ | lia | exact Hfn | exact Hcl ].
    destruct (IH fuel (attempt + 1)
                 (Qmin (d * backoffMultiplier options) (maxDelayMs options))
                 (Some (es k)) (done ++ [Attempt; Wait d]) (S k)) as [last' Heq].
    + intros i Hi. specialize (Hfail (S i) ltac:(lia)).
      replace (k + S i)%nat with (S k + i)%nat in Hfail by lia. exact Hfail.
    + lia.
    + exists last'. rewrite Heq.
      replace (S k + n)%nat with (k + S n)%nat by lia.
      replace (attempt + 1 + Z.of_nat n) with (attempt + Z.of_nat (S n)) by lia.
      simpl. rewrite <- app_assoc. reflexivity.
Qed.
End Loop.

Lemma schedule_length options d n : List.length (schedule options d n) = n.
Proof.
  revert d. induction n as [ | n IH]; intros d; simpl; [ | rewrite IH ]; reflexivity.
Qed.

Lemma attempts_failedRounds (W T : Type) (o : Outcome T) (w : W) ds :
  attempts (o, w, failedRounds ds ++ [Attempt]) = S (List.length ds)
  /\ waits (o, w, failedRounds ds ++ [Attempt]) = ds.
Proof.
  unfold attempts, waits, failedRounds. simpl.
  induction ds as [ | d ds [IHa IHw]]; simpl.
  - split; reflexivity.
  - rewrite IHa, IHw. split; reflexivity.
Qed.

(** X1.  When the first [n] calls fail with errors that are retried and the
    next call returns, with [n] below [maxAttempts], [withRetry] returns
    that value after exactly [n + 1] calls, having slept the first [n]
    delays of the backoff schedule. *)
Theorem withRetry_recovers :
  forall (W T : Type) (fn : W -> (T + Thrown) * W) (options : RetryOptions)
         (ws : nat -> W) (es : nat -> Thrown) (n : nat) (v : T),
    (forall i, (i < n)%nat ->
               fn (ws i) = (inr (es i), ws (S i))
               /\ classifies options (es i) = true) ->
    fn (ws n) = (inl v, ws (S n)) ->
    Z.of_nat n < maxAttempts options ->
    withRetry fn options (ws 0%nat)
    = (Returned v, ws (S n),
       failedRounds (schedule options (initialDelayMs options) n) ++ [Attempt]).
Proof.
  intros W T fn options ws es n v Hfail Hok Hn. unfold withRetry.
  replace (Z.to_nat (maxAttempts options))
    with (n + S (Z.to_nat (maxAttempts options) - S n))%nat by lia.
  destruct (@retryLoop_failures W T fn options ws es n
              (S (Z.to_nat (maxAttempts options) - S n)) 1
              (initialDelayMs options) None [] 0%nat) as [last' Heq].
  - intros i Hi. exact (Hfail i Hi).
  - lia.
  - rewrite Heq. simpl (0 + n)%nat.
    apply RetryFacts.retryLoop_success; [ lia | exact Hok ].
Qed.

Lemma withRetry_recovers_witness :
  withRetry (failsUntil 2) patient 0%nat
  = (Returned 2%nat, 3%nat,
     [Attempt; Wait (100 # 1); Attempt;
      Wait (Qmin ((100 # 1) * (2 # 1)) (350 # 1)); Attempt]).
Proof.
  apply (@withRetry_recovers nat nat (failsUntil 2) patient (fun i => i)
           (fun _ => nonceTooLow) 2 2%nat).
  - intros i Hi. destruct i as [ | [ | i]]; [ split; reflexivity .. | lia ].
  - reflexivity.
  - reflexivity.
Defined.

(** X2.  When the first [n] calls fail with errors that are retried and the
    next call fails too, [withRetry] throws that last error as soon as it is
    one the classifier does not retry, or the call was the last one allowed;
    it has then made exactly [n + 1] calls. *)
Theorem withRetry_gives_up :
  forall (W T : Type) (fn : W -> (T + Thrown) * W) (options : RetryOptions)
         (ws : nat -> W) (es : nat -> Thrown) (n : nat),
    (forall i, (i < n)%nat ->
               fn (ws i) = (inr (es i), ws (S i))
               /\ classifies options (es i) = true) ->
    fn (ws n) = (inr (es n), ws (S n)) ->
    Z.of_nat n < maxAttempts options ->
    classifies options (es n) = false \/ Z.of_nat (S n) = maxAttempts options ->
    withRetry fn options (ws 0%nat)
    = (Threw (es n), ws (S n),
       failedRounds (schedule options (initialDelayMs options) n) ++ [Attempt]).
Proof.
  intros W T fn options ws es n Hfail Hlast Hn Hstop. unfold withRetry.
  replace (Z.to_nat (maxAttempts options))
    with (n + S (Z.to_nat (maxAttempts options) - S n))%nat by lia.
  destruct (@retryLoop_failures W T fn options ws es n
              (S (Z.to_nat (maxAttempts options) - S n)) 1
              (initialDelayMs options) None [] 0%nat) as [last' Heq].
  - intros i Hi. exact (Hfail i Hi).
  - lia.
  - rewrite Heq. simpl (0 + n)%nat.
    destruct Hstop as [Hno | Hmax].
    + apply RetryFacts.retryLoop_give_up; [ lia | exact Hlast | exact Hno ].
    + replace (1 + Z.of_nat n) with (maxAttempts options) by lia.
      apply RetryFacts.retryLoop_last. exact Hlast.
Qed.

Lemma withRetry_gives_up_witness :
  withRetry (alwaysFails nonceTooLow) patient 0%nat
  = (Threw nonceTooLow, 5%nat,
     failedRounds (schedule patient (100 # 1) 4) ++ [Attempt]).
Proof.
  apply (@withRetry_gives_up nat unit (alwaysFails nonceTooLow) patient
           (fun i => i) (fun _ => nonceTooLow) 4).
  - intros i Hi. split; reflexivity.
  - reflexivity.
  - reflexivity.
  - right. reflexivity.
Defined.

Section Shape.
Variables W T : Type.
Variable fn : W -> (T + Thrown) * W.
Variable options : RetryOptions.

Lemma retryLoop_shape : forall fuel attempt d last w done,
  attempt <= maxAttempts options ->
  Z.of_nat fuel = maxAttempts options - attempt + 1 ->
  exists n, (n < fuel)%nat
            /\ snd (retryLoop fn options fuel attempt d last w done)
               = done ++ failedRounds (schedule options d n) ++ [Attempt].
Proof.
  induction fuel as [ | fuel IH]; intros attempt d last w done Hle Hfuel.
  - lia.
  - simpl. apply Z.leb_le in Hle. rewrite Hle. apply Z.leb_le in Hle.
    destruct (fn w) as [[v | e] w'].
    + exists 0%nat. split; [ lia | reflexivity ].
    + destruct (negb match retryableErrors options with
                     | Some classify => classify e
                     | None => true
                     end || negb (Z.ltb attempt (maxAttempts options))) eqn:Hstop.
      * exists 0%nat. split; [ lia | reflexivity ].
      * apply orb_false_elim in Hstop. destruct Hstop as [_ Hmore].
        apply negb_false_iff in Hmore. apply Z.ltb_lt in Hmore.
        destruct (IH (attempt + 1)
                     (Qmin (d * backoffMultiplier options) (maxDelayMs options))
                     (Some e) w' (done ++ [Attempt; Wait d])) as (n & Hn & Heq);
          [ lia | lia | ].
        exists (S n). split; [ lia | ].
        rewrite Heq. simpl. rewrite <- app_assoc. reflexivity.
Qed.
End Shape.

(** X3.  Whatever the operation does, [withRetry] with [maxAttempts >= 1]
    calls it at least once and at most [maxAttempts] times, sleeps exactly
    once between two consecutive calls and never after the last one, and
    the sleeps are the backoff schedule from [initialDelayMs] on. *)
Theorem withRetry_bounded :
  forall (W T : Type) (fn : W -> (T + Thrown) * W) (options : RetryOptions) (w : W),
    1 <= maxAttempts options ->
    exists n,
      (S n <= Z.to_nat (maxAttempts options))%nat
      /\ snd (withRetry fn options w)
         = failedRounds (schedule options (initialDelayMs options) n) ++ [Attempt]
      /\ attempts (withRetry fn options w) = S n
      /\ waits (withRetry fn options w)
         = schedule options (initialDelayMs options) n.
Proof.
  intros W T fn options w Hmax. unfold withRetry.
  destruct (@retryLoop_shape W T fn options (Z.to_nat (maxAttempts options)) 1
              (initialDelayMs options) None w []) as (n & Hn & Heq);
    [ lia | lia | ].
  exists n. simpl in Heq. split; [ lia | split; [ exact Heq | ] ].
  destruct (retryLoop fn options (Z.to_nat (maxAttempts options)) 1
              (initialDelayMs options) None w []) as [[o w'] tr].
  simpl in Heq. subst tr.
  destruct (attempts_failedRounds o w' (schedule options (initialDelayMs options) n))
    as [Ha Hw].
  rewrite Ha, Hw, schedule_length. split; reflexivity.
Qed.

Lemma withRetry_bounded_witness :
  exists n, (S n <= 5)%nat
            /\ attempts (withRetry (failsUntil 2) patient 0%nat) = S n.
Proof.
  destruct (@withRetry_bounded nat nat (failsUntil 2) patient 0%nat)
    as (n & Hn & _ & Ha & _).
  - vm_compute. discriminate.
  - exists n. split; [ exact Hn | exact Ha ].
Defined.

(** X4.  With [maxAttempts <= 0] the operation is never called: [withRetry]
    throws [undefined] at once and leaves the world as it is. *)
Theorem withRetry_no_attempt_allowed :
  forall (W T : Type) (fn : W -> (T + Thrown) * W) (options : RetryOptions) (w : W),
    maxAttempts options <= 0 ->
    withRetry fn options w = (ThrewUndefined, w, []).
Proof.
  intros W T fn options w Hmax. unfold withRetry.
  replace (Z.to_nat (maxAttempts options)) with 0%nat by lia.
  reflexivity.
Qed.

Lemma withRetry_no_attempt_allowed_witness :
  withRetry (failsUntil 0) nothingAllowed 0%nat = (ThrewUndefined, 0%nat, []).
Proof.
  apply (@withRetry_no_attempt_allowed nat nat (failsUntil 0) nothingAllowed 0%nat).
  vm_compute. discriminate.
Defined.






(** X6.  [isRetryableApiError] answers true exactly for an object that has
    one of the codes ECONNRESET, ETIMEDOUT, ENOTFOUND, or else an HTTP status
    that is 429 or at least 500, or else, having no status (or status 0), a
    message that mentions "timeout" in any letter case.  A status decides
    before the message does: a 404 whose message mentions a timeout is not
    retried. *)
Theorem isRetryableApiError_iff :
  forall e : Thrown,
    (isRetryableApiError e = true <->
     exists err, e = Obj err
       /\ (codeIs err "ECONNRESET" = true \/ codeIs err "ETIMEDOUT" = true
           \/ codeIs err "ENOTFOUND" = true
           \/ (exists st, status err = Some st /\ st <> 0 /\ (st = 429 \/ 500 <= st))
           \/ ((status err = None \/ status err = Some 0)
               /\ messageMentions err "timeout" = true)))
    /\ (forall err st,
          e = Obj err -> status err = Some st -> 0 < st < 500 -> st <> 429 ->
          codeIs err "ECONNRESET" = false -> codeIs err "ETIMEDOUT" = false ->
          codeIs err "ENOTFOUND" = false ->
          isRetryableApiError e = false).
Proof.
  intros e. split; [ split | ].
  - destruct e as [ | err]; simpl; [ discriminate | ].
    intros H. exists err. split; [ reflexivity | ].
    destruct (codeIs err "ECONNRESET"); [ auto | ].
    destruct (codeIs err "ETIMEDOUT"); [ auto | ].
    destruct (codeIs err "ENOTFOUND"); [ auto 6 | ].
    simpl in H. destruct (status err) as [st | ] eqn:Hst.
    + destruct (Z.eqb st 0) eqn:H0.
      * apply Z.eqb_eq in H0. subst st. right. right. right. right. auto.
      * apply Z.eqb_neq in H0. right. right. right. left.
        exists st. split; [ reflexivity | split; [ exact H0 | ] ].
        apply orb_true_iff in H. destruct H as [H | H].
        -- left. apply Z.eqb_eq. exact H.
        -- right. apply Z.leb_le. exact H.
    + right. right. right. right. auto.
  - intros [err [-> H]]. simpl.
    destruct H as [H | [H | [H | [H | H]]]].
    + rewrite H. reflexivity.
    + rewrite H, orb_true_r. reflexivity.
    + rewrite H, !orb_true_r. reflexivity.
    + destruct H as (st & Hst & H0 & Hretry).
      destruct (codeIs err "ECONNRESET" || codeIs err "ETIMEDOUT"
                || codeIs err "ENOTFOUND"); [ reflexivity | ].
      rewrite Hst. apply Z.eqb_neq in H0. rewrite H0.
      apply orb_true_iff. destruct Hretry as [-> | Hge].
      * left. reflexivity.
      * right. apply Z.leb_le. exact Hge.
    + destruct H as [[Hst | Hst] Hmsg];
        destruct (codeIs err "ECONNRESET" || codeIs err "ETIMEDOUT"
                  || codeIs err "ENOTFOUND"); try reflexivity;
        rewrite Hst; simpl; exact Hmsg.
  - intros err st -> Hst Hrange Hnot H1 H2 H3. simpl.
    rewrite H1, H2, H3, Hst. simpl.
    assert (H0 : Z.eqb st 0 = false) by (apply Z.eqb_neq; lia).
    rewrite H0. apply orb_false_iff. split.
    + apply Z.eqb_neq. exact Hnot.
    + apply Z.leb_gt. lia.
Qed.

Lemma isRetryableApiError_iff_witness :
  isRetryableApiError (Obj notFound) = false
  /\ messageMentions notFound "timeout" = true.
Proof.
  destruct (isRetryableApiError_iff (Obj notFound)) as [_ Hstatus].
  split.
  - apply (Hstatus notFound 404); try reflexivity.
    + split; reflexivity.
    + discriminate.
  - reflexivity.
Defined.

End BackoffFacts.

(** ** The API client and the fetches *)
Module ApiFacts.
Import Js Retry Backoff RfqApi Fetch.

(** X7.  [ApiClient.post] under [API_RETRY_DEFAULTS]: a request that fails
    with an error that is not retryable is sent once; one that keeps failing
    with retryable errors is sent three times, with sleeps of 1000 and
    2000 ms, and the third error is thrown; one that fails once with a
    retryable error and then succeeds is sent twice and its response is
    returned. *)
Theorem post_retry_policy :
  forall (W : Type) (axiosPost : string -> W -> (TransformResult + Thrown) * W)
         (requestId : string) (w0 : W),
    (forall e1 w1,
        axiosPost requestId w0 = (inr e1, w1) -> isRetryableApiError e1 = false ->
        withRetry (axiosPost requestId) API_RETRY_DEFAULTS w0 = (Threw e1, w1, [Attempt])
        /\ post axiosPost requestId w0 = (inr e1, w1))
    /\ (forall e1 w1 e2 w2 e3 w3,
        axiosPost requestId w0 = (inr e1, w1) -> isRetryableApiError e1 = true ->
        axiosPost requestId w1 = (inr e2, w2) -> isRetryableApiError e2 = true ->
        axiosPost requestId w2 = (inr e3, w3) ->
        withRetry (axiosPost requestId) API_RETRY_DEFAULTS w0
        = (Threw e3, w3, [Attempt; Wait (1000 # 1); Attempt; Wait (2000 # 1); Attempt])
        /\ post axiosPost requestId w0 = (inr e3, w3))
    /\ (forall e1 w1 r w2,
        axiosPost requestId w0 = (inr e1, w1) -> isRetryableApiError e1 = true ->
        axiosPost requestId w1 = (inl r, w2) ->
        withRetry (axiosPost requestId) API_RETRY_DEFAULTS w0
        = (Returned r, w2, [Attempt; Wait (1000 # 1); Attempt])
        /\ post axiosPost requestId w0 = (inl r, w2)).
Proof.
  intros W axiosPost requestId w0. split; [ | split ].
  - intros e1 w1 H1 Hno.
    assert (Hrun : withRetry (axiosPost requestId) API_RETRY_DEFAULTS w0
                   = (Threw e1, w1, [Attempt])).
    { unfold withRetry. change (Z.to_nat (maxAttempts API_RETRY_DEFAULTS)) with 3%nat.
      apply (@RetryFacts.retryLoop_give_up W TransformResult (axiosPost requestId)
               API_RETRY_DEFAULTS 2 1 _ None w0 [] e1 w1);
        [ discriminate | exact H1 | exact Hno ]. }
    split; [ exact Hrun | unfold post; rewrite Hrun; reflexivity ].
  - intros e1 w1 e2 w2 e3 w3 H1 Hr1 H2 Hr2 H3.
    assert (Hrun : withRetry (axiosPost requestId) API_RETRY_DEFAULTS w0
                   = (Threw e3, w3,
                      [Attempt; Wait (1000 # 1); Attempt; Wait (2000 # 1); Attempt])).
    { unfold withRetry. change (Z.to_nat (maxAttempts API_RETRY_DEFAULTS)) with 3%nat.
      rewrite (@RetryFacts.retryLoop_retry W TransformResult (axiosPost requestId)
                 API_RETRY_DEFAULTS 2 1 _ None w0 [] e1 w1);
        [ | reflexivity | exact H1 | exact Hr1 ].
      rewrite (@RetryFacts.retryLoop_retry W TransformResult (axiosPost requestId)
                 API_RETRY_DEFAULTS 1 (1 + 1) _ _ w1 _ e2 w2);
        [ | reflexivity | exact H2 | exact Hr2 ].
      change (1 + 1 + 1) with (maxAttempts API_RETRY_DEFAULTS).
      rewrite (@RetryFacts.retryLoop_last W TransformResult (axiosPost requestId)
                 API_RETRY_DEFAULTS 0 _ _ w2 _ e3 w3 H3).
      reflexivity. }
    split; [ exact Hrun | unfold post; rewrite Hrun; reflexivity ].
  - intros e1 w1 r w2 H1 Hr1 H2.
    assert (Hrun : withRetry (axiosPost requestId) API_RETRY_DEFAULTS w0
                   = (Returned r, w2, [Attempt; Wait (1000 # 1); Attempt])).
    { unfold withRetry. change (Z.to_nat (maxAttempts API_RETRY_DEFAULTS)) with 3%nat.
      rewrite (@RetryFacts.retryLoop_retry W TransformResult (axiosPost requestId)
                 API_RETRY_DEFAULTS 2 1 _ None w0 [] e1 w1);
        [ | reflexivity | exact H1 | exact Hr1 ].
      rewrite (@RetryFacts.retryLoop_success W TransformResult (axiosPost requestId)
                 API_RETRY_DEFAULTS 1 (1 + 1) _ _ w1 _ r w2);
        [ reflexivity | discriminate | exact H2 ]. }
    split; [ exact Hrun | unfold post; rewrite Hrun; reflexivity ].
Qed.

Lemma post_retry_policy_witness :
  post executeOnce "rfq-3" ["rfq-3"] = (inr (Error "Already executed"), ["rfq-3"]).
Proof.
  destruct (post_retry_policy executeOnce "rfq-3" ["rfq-3"]) as (Honce & _ & _).
  apply (Honce (Error "Already executed") ["rfq-3"]); reflexivity.
Defined.

Section Fetching.
Variables W Item : Type.
Variable chainOf : Item -> Z.
Variable get : option Z -> W -> (ApiResponse Item + Thrown) * W.

Lemma perChain_all_fail chains :
  (forall c w, exists e w', get (Some c) w = (inr e, w')) ->
  forall all w, fst (perChain get chains all w) = all.
Proof.
  intros Hfail. induction chains as [ | c chains IH]; intros all w; simpl.
  - reflexivity.
  - destruct (Hfail c w) as (e & w' & ->). apply IH.
Qed.

Lemma perChain_provenance chains : forall all w i,
  In i (fst (perChain get chains all w)) ->
  In i all
  \/ exists c w1 response w2,
       In c chains /\ get (Some c) w1 = (inl response, w2)
       /\ In i (orEmpty response).
Proof.
  induction chains as [ | c chains IH]; intros all w i Hin; simpl in Hin.
  - left. exact Hin.
  - destruct (get (Some c) w) as [[response | e] w'] eqn:Hget.
    + destruct (IH _ _ _ Hin) as [Hall | (c' & w1 & r & w2 & Hc & Hg & Hi)].
      * apply in_app_or in Hall. destruct Hall as [Hall | Hnew].
        -- left. exact Hall.
        -- right. exists c, w, response, w'.
           split; [ left; reflexivity | split; assumption ].
      * right. exists c', w1, r, w2. split; [ right; exact Hc | split; assumption ].
    + destruct (IH _ _ _ Hin) as [Hall | (c' & w1 & r & w2 & Hc & Hg & Hi)].
      * left. exact Hall.
      * right. exists c', w1, r, w2. split; [ right; exact Hc | split; assumption ].
Qed.
End Fetching.

(** X8.  [getPendingRequests] (and [getOpenLiquidations], the same code),
    once the API client is initialized, never throws.  When the fetch for
    all chains succeeds, it returns exactly the items of the response whose
    chain is supported, in the order of the response.  When that fetch
    fails, every item returned comes from the response of a per-chain fetch
    for a supported chain; and when every per-chain fetch fails too, the
    result is the empty list, not an error. *)
Theorem fetch_falls_back_and_never_throws :
  forall (W Item : Type) (chainOf : Item -> Z)
         (get : option Z -> W -> (ApiResponse Item + Thrown) * W)
         (chains : list Z) (w : W),
    (exists items w', getPendingRequests chainOf get true chains w = (inl items, w'))
    /\ getOpenLiquidations chainOf get true chains w
       = getPendingRequests chainOf get true chains w
    /\ (forall response w',
          get None w = (inl response, w') ->
          exists items,
            getPendingRequests chainOf get true chains w = (inl items, w')
            /\ items = filter (supported chainOf chains) (orEmpty response)
            /\ forall i, In i items <-> In i (orEmpty response) /\ In (chainOf i) chains)
    /\ (forall e w' items w'',
          get None w = (inr e, w') ->
          getPendingRequests chainOf get true chains w = (inl items, w'') ->
          forall i, In i items ->
                    exists c w1 response w2,
                      In c chains /\ get (Some c) w1 = (inl response, w2)
                      /\ In i (orEmpty response))
    /\ (forall e w',
          get None w = (inr e, w') ->
          (forall c w1, exists e' w2, get (Some c) w1 = (inr e', w2)) ->
          fst (getPendingRequests chainOf get true chains w) = inl []).
Proof.
  intros W Item chainOf get chains w.
  unfold getOpenLiquidations, getPendingRequests, fetchSupported.
  split; [ | split; [ reflexivity | split; [ | split ] ] ].
  - destruct (get None w) as [[response | e] w'].
    + eexists. eexists. reflexivity.
    + destruct (perChain get chains [] w') as [all w''].
      exists all, w''. reflexivity.
  - intros response w' Hget. rewrite Hget.
    eexists. split; [ reflexivity | split; [ reflexivity | ] ].
    intros i. rewrite filter_In. unfold supported.
    split; intros [Hin Hc]; (split; [ exact Hin | ]).
    + apply existsb_exists in Hc. destruct Hc as [c [Hc Heq]].
      apply Z.eqb_eq in Heq. rewrite Heq. exact Hc.
    + apply existsb_exists. exists (chainOf i). split; [ exact Hc | apply Z.eqb_refl ].
  - intros e w' items w'' Hget Hres i Hin. rewrite Hget in Hres.
    destruct (perChain get chains [] w') as [all w3] eqn:Hper.
    injection Hres as <- <-.
    destruct (@perChain_provenance W Item get chains [] w' i) as [[] | Hfrom].
    + rewrite Hper. exact Hin.
    + exact Hfrom.
  - intros e w' Hget Hfail. rewrite Hget.
    pose proof (@perChain_all_fail W Item get chains Hfail [] w') as Hnone.
    destruct (perChain get chains [] w') as [all w'']. simpl in *. subst all.
    reflexivity.
Qed.

Lemma fetch_falls_back_and_never_throws_witness :
  getPendingRequests (fun c => c) allAtOnce true [98866; 5] 0%nat
  = (inl [98866; 5; 98866], 1%nat)
  /\ exists c w1 response w2,
       In c [1; 98866] /\ perChainOnly (Some c) w1 = (inl response, w2)
       /\ In 98866 (orEmpty response).
Proof.
  destruct (fetch_falls_back_and_never_throws (fun c : Z => c) allAtOnce
              [98866; 5] 0%nat) as (_ & _ & Hall & _).
  destruct (fetch_falls_back_and_never_throws (fun c : Z => c) perChainOnly
              [1; 98866] 0%nat) as (_ & _ & _ & Hfrom & _).
  split.
  - destruct (Hall (mkApiResponse (Some [98866; 1; 5; 98866])) 1%nat eq_refl)
      as (items & Heq & -> & _).
    exact Heq.
  - apply (Hfrom (Error "chainId is required") 1%nat [98866; 98866] 3%nat
             eq_refl eq_refl 98866).
    left. reflexivity.
Defined.

End ApiFacts.

(** ** Eligibility of a request *)
Module EligibilityFacts.
Import Js Liquidation Eligibility.

Lemma tokenListed_iff cfg r :
  tokenListed cfg r = true <->
  exists t, In t (acceptedTokens cfg) /\ toLowerCase t = toLowerCase (redeemAsset r).
Proof.
  unfold tokenListed. rewrite existsb_exists. split.
  - intros [t [Hin Heq]]. exists t. split; [ exact Hin | ].
    apply String.eqb_eq. exact Heq.
  - intros [t [Hin Heq]]. exists t. split; [ exact Hin | ].
    apply String.eqb_eq. exact Heq.
Qed.

Lemma timeLeft_in_ms r now :
  30 <= timeLeft r now <-> now < (expiry r - 29) * 1000.
Proof.
  unfold timeLeft.
  pose proof (Z.div_mod now 1000 ltac:(lia)) as Hdm.
  pose proof (Z.mod_pos_bound now 1000 ltac:(lia)) as Hmod.
  split; intros H; lia.
Qed.

(** X9.  [shouldBidOnRequest] accepts a request exactly when its asset is
    listed (compared without regard to letter case) or the first accepted
    token is "*", its amount is not less than the configured minimum, its
    chain is supported and at least 30 whole seconds are left, that is, when
    the expiry is more than 29 seconds after the current millisecond time.
    With an empty list of accepted tokens every request is refused. *)
Theorem shouldBidOnRequest_characterised :
  forall (ops : BigNumberOps) (order : BigNumberOrder ops)
         (r : RFQRequest) (cfg : BidConfig) (now : Z),
    (shouldBidOnRequest r cfg now = true <->
       (wildcard cfg = true
        \/ exists t, In t (acceptedTokens cfg)
                     /\ toLowerCase t = toLowerCase (redeemAsset r))
       /\ isLessThan (fromString (Some (redeemAmount r)))
                     (fromString (Some (minBidAmountWei cfg))) = false
       /\ In (chainId r) (supportedChains cfg)
       /\ now < (expiry r - 29) * 1000)
    /\ (acceptedTokens cfg = [] -> shouldBidOnRequest r cfg now = false).
Proof.
  intros ops order r cfg now. split.
  - unfold shouldBidOnRequest. rewrite <- timeLeft_in_ms, <- tokenListed_iff.
    destruct (wildcard cfg), (tokenListed cfg r); simpl;
      destruct (isLessThan (fromString (Some (redeemAmount r)))
                           (fromString (Some (minBidAmountWei cfg))));
      try (split; [ discriminate | intros (Ht & Hl & _); try discriminate;
                                   destruct Ht; discriminate ]);
      (destruct (existsb (Z.eqb (chainId r)) (supportedChains cfg)) eqn:Hc; simpl;
       [ apply existsb_exists in Hc; destruct Hc as [c [Hc Heq]];
         apply Z.eqb_eq in Heq; subst c;
         destruct (Z.ltb (timeLeft r now) 30) eqn:Ht;
         [ apply Z.ltb_lt in Ht; split; [ discriminate | intros (_ & _ & _ & H); lia ]
         | apply Z.ltb_ge in Ht; split; [ intros _; auto | reflexivity ] ]
       | split; [ discriminate | ];
         intros (_ & _ & Hin & _);
         assert (Hex : existsb (Z.eqb (chainId r)) (supportedChains cfg) = true)
           by (apply existsb_exists; exists (chainId r);
               split; [ exact Hin | apply Z.eqb_refl ]);
         rewrite Hex in Hc; discriminate ]).
  - intros Hnone. unfold shouldBidOnRequest, wildcard, tokenListed.
    rewrite Hnone. reflexivity.
Qed.

Lemma shouldBidOnRequest_characterised_witness :
  shouldBidOnRequest (ops := Decimal.ops) sampleRequest sampleBidConfig 1700000000999
  = true.
Proof.
  apply (proj1 (@shouldBidOnRequest_characterised Decimal.ops decimalOrder
                  sampleRequest sampleBidConfig 1700000000999)).
  split; [ | split; [ | split ] ].
  - right. exists "0xAbCd". split; [ left; reflexivity | reflexivity ].
  - reflexivity.
  - left. reflexivity.
  - reflexivity.
Defined.

(** X10.  The decision does not depend on how the asset address is
    capitalised: two requests that differ only in the letter case of
    [redeemAsset] get the same answer. *)
Theorem shouldBidOnRequest_ignores_case :
  forall (ops : BigNumberOps) (order : BigNumberOrder ops)
         (r : RFQRequest) (cfg : BidConfig) (now : Z) (asset : string),
    toLowerCase asset = toLowerCase (redeemAsset r) ->
    shouldBidOnRequest (respelled r asset) cfg now = shouldBidOnRequest r cfg now.
Proof.
  intros ops order r cfg now asset Hcase.
  unfold shouldBidOnRequest, tokenListed, timeLeft, respelled. simpl.
  rewrite Hcase. reflexivity.
Qed.

Lemma shouldBidOnRequest_ignores_case_witness :
  shouldBidOnRequest (ops := Decimal.ops) (respelled sampleRequest "0XABCD")
                     sampleBidConfig 1700000000000
  = shouldBidOnRequest (ops := Decimal.ops) sampleRequest sampleBidConfig 1700000000000.
Proof.
  apply (@shouldBidOnRequest_ignores_case Decimal.ops decimalOrder
           sampleRequest sampleBidConfig 1700000000000 "0XABCD").
  reflexivity.
Defined.

End EligibilityFacts.

(** ** Won bids *)
Module WonBidsFacts.
Import Js Dedup RfqApi WonBids.

Section Monitor.
Variable W : Type.
Variable axiosPost : string -> W -> (TransformResult + Thrown) * W.
Variable getBids : W -> (option (list WonBid) + Thrown) * W.
Variable clock : W -> Z.

Lemma transformAll_cons bid rest cache w evs :
  transformAll axiosPost clock (bid :: rest) cache w evs
  = if has (transformKey (requestId bid)) cache
    then transformAll axiosPost clock rest cache w evs
    else match callTransform axiosPost true (requestId bid) w with
         | (inl result, w') =>
             transformAll axiosPost clock rest
               (set (transformKey (requestId bid)) (clock w') cache) w'
               ((evs ++ [NotifyBidWon (requestId bid) (makerAmount bid)])
                  ++ [NotifyTransformExecuted (requestId bid) (txHash result)])
         | (inr _, w') =>
             transformAll axiosPost clock rest cache w'
               (evs ++ [NotifyBidWon (requestId bid) (makerAmount bid)])
         end.
Proof. reflexivity. Qed.

Lemma transformAll_skips bids : forall cache w evs,
  (forall bid, In bid bids -> has (transformKey (requestId bid)) cache = true) ->
  transformAll axiosPost clock bids cache w evs = (cache, w, evs).
Proof.
  induction bids as [ | bid bids IH]; intros cache w evs Hall.
  - reflexivity.
  - rewrite transformAll_cons, (Hall bid (or_introl eq_refl)).
    apply IH. intros b Hb. apply Hall. right. exact Hb.
Qed.

(** nothing recorded is forgotten by the loop *)
Lemma transformAll_keeps bids : forall cache w evs key,
  has key cache = true ->
  has key (fst (fst (transformAll axiosPost clock bids cache w evs))) = true.
Proof.
  induction bids as [ | bid bids IH]; intros cache w evs key Hkey.
  - exact Hkey.
  - rewrite transformAll_cons.
    destruct (has (transformKey (requestId bid)) cache); [ apply IH; exact Hkey | ].
    destruct (callTransform axiosPost true (requestId bid) w) as [[result | e] w'].
    + apply IH. rewrite BiddingFacts.has_set, Hkey. apply orb_true_r.
    + apply IH. exact Hkey.
Qed.

Lemma transformAll_records bids : forall cache w evs,
  (forall id w0, exists r w1, callTransform axiosPost true id w0 = (inl r, w1)) ->
  forall bid, In bid bids ->
    has (transformKey (requestId bid))
        (fst (fst (transformAll axiosPost clock bids cache w evs))) = true.
Proof.
  induction bids as [ | b bids IH]; intros cache w evs Hok bid Hin.
  - destruct Hin.
  - rewrite transformAll_cons.
    destruct (has (transformKey (requestId b)) cache) eqn:Hb.
    + destruct Hin as [<- | Hin].
      * apply transformAll_keeps. exact Hb.
      * apply IH; assumption.
    + destruct (Hok (requestId b) w) as (r & w1 & ->).
      destruct Hin as [<- | Hin].
      * apply transformAll_keeps.
        rewrite BiddingFacts.has_set, String.eqb_refl. reflexivity.
      * apply IH; assumption.
Qed.

Lemma transformAll_failing bids : forall cache w evs,
  (forall id w0, exists e w1, callTransform axiosPost true id w0 = (inr e, w1)) ->
  fst (fst (transformAll axiosPost clock bids cache w evs)) = cache
  /\ forall id tx,
       In (NotifyTransformExecuted id tx)
          (snd (transformAll axiosPost clock bids cache w evs)) ->
       In (NotifyTransformExecuted id tx) evs.
Proof.
  induction bids as [ | b bids IH]; intros cache w evs Hfail.
  - split; [ reflexivity | auto ].
  - rewrite transformAll_cons.
    destruct (has (transformKey (requestId b)) cache); [ apply IH; exact Hfail | ].
    destruct (Hfail (requestId b) w) as (e & w1 & ->).
    destruct (IH cache w1 (evs ++ [NotifyBidWon (requestId b) (makerAmount b)]) Hfail)
      as [Hcache Hevs].
    split; [ exact Hcache | ].
    intros id tx Hin. apply Hevs in Hin. apply in_app_or in Hin.
    destruct Hin as [Hin | [Hin | []]]; [ exact Hin | discriminate ].
Qed.
End Monitor.

(** X11.  [monitorWonBids] does nothing for a won bid whose key
    "transform-<requestId>" is in the cache: when every listed bid is
    recorded, it calls no transform, sends no notification and leaves the
    cache as it is.  When listing the won bids fails, it does nothing
    either and does not throw. *)
Theorem monitorWonBids_skips_recorded :
  forall (W : Type) (axiosPost : string -> W -> (TransformResult + Thrown) * W)
         (getBids : W -> (option (list WonBid) + Thrown) * W) (clock : W -> Z)
         (cache : Cache) (w : W),
    (forall bids w',
        getWonBids getBids w = (inl bids, w') ->
        (forall bid, In bid bids -> has (transformKey (requestId bid)) cache = true) ->
        monitorWonBids axiosPost getBids clock cache w = (cache, w', []))
    /\ (forall e w',
        getWonBids getBids w = (inr e, w') ->
        monitorWonBids axiosPost getBids clock cache w = (cache, w', [])).
Proof.
  intros W axiosPost getBids clock cache w. unfold monitorWonBids. split.
  - intros bids w' Hget Hall. rewrite Hget. apply transformAll_skips. exact Hall.
  - intros e w' Hget. rewrite Hget. reflexivity.
Qed.

Lemma monitorWonBids_skips_recorded_witness :
  monitorWonBids executeOnce listsTwo lengthClock
                 [("transform-rfq-3", 5); ("transform-rfq-4", 6)] []
  = ([("transform-rfq-3", 5); ("transform-rfq-4", 6)], [], []).
Proof.
  destruct (monitorWonBids_skips_recorded executeOnce listsTwo lengthClock
              [("transform-rfq-3", 5); ("transform-rfq-4", 6)] []) as [Hskip _].
  apply (Hskip twoWon []).
  - reflexivity.
  - intros bid [<- | [<- | []]]; reflexivity.
Defined.

(** X12.  When every transform call returns (with a hash or because it was
    already executed), one round of [monitorWonBids] records the key of
    every listed bid, and a second round over the same bids calls nothing
    and announces nothing. *)
Theorem monitorWonBids_transforms_once :
  forall (W : Type) (axiosPost : string -> W -> (TransformResult + Thrown) * W)
         (clock : W -> Z) (bids : list WonBid) (cache : Cache) (w : W),
    (forall id w0, exists r w1, callTransform axiosPost true id w0 = (inl r, w1)) ->
    let first := transformAll axiosPost clock bids cache w [] in
    (forall bid, In bid bids ->
                 has (transformKey (requestId bid)) (fst (fst first)) = true)
    /\ (forall key, has key cache = true -> has key (fst (fst first)) = true)
    /\ forall w2, transformAll axiosPost clock bids (fst (fst first)) w2 []
                  = (fst (fst first), w2, []).
Proof.
  intros W axiosPost clock bids cache w Hok first.
  assert (Hrec : forall bid, In bid bids ->
                   has (transformKey (requestId bid)) (fst (fst first)) = true).
  { intros bid Hin. apply transformAll_records; assumption. }
  split; [ exact Hrec | split ].
  - intros key Hkey. apply transformAll_keeps. exact Hkey.
  - intros w2. apply transformAll_skips. exact Hrec.
Qed.

Lemma monitorWonBids_transforms_once_witness :
  let first := transformAll executeOnce lengthClock twoWon [] ["rfq-3"] [] in
  first = ([("transform-rfq-3", 1); ("transform-rfq-4", 2)], ["rfq-4"; "rfq-3"],
           [NotifyBidWon "rfq-3" "4900"; NotifyTransformExecuted "rfq-3" None;
            NotifyBidWon "rfq-4" "120"; NotifyTransformExecuted "rfq-4" (Some "0xabc")])
  /\ transformAll executeOnce lengthClock twoWon (fst (fst first)) ["rfq-4"; "rfq-3"] []
     = (fst (fst first), ["rfq-4"; "rfq-3"], []).
Proof.
  intros first. split; [ reflexivity | ].
  destruct (@monitorWonBids_transforms_once (list string) executeOnce lengthClock
              twoWon [] ["rfq-3"]) as (_ & _ & Hagain).
  - intros id w0. unfold callTransform, post.
    destruct (existsb (String.eqb id) w0) eqn:Hdone.
    + exists emptyResult, w0.
      unfold Retry.withRetry. simpl. unfold executeOnce. rewrite Hdone. reflexivity.
    + exists (mkTransformResult (Some "0xabc")), (id :: w0).
      unfold Retry.withRetry. simpl. unfold executeOnce. rewrite Hdone. reflexivity.
  - apply Hagain.
Defined.

(** X13.  A transform that fails is not recorded: when every transform call
    throws, a round of [monitorWonBids] leaves the cache as it was and
    reports no transform as executed, so the same bids are tried (and
    announced as won) again on the next round. *)
Theorem monitorWonBids_failure_not_recorded :
  forall (W : Type) (axiosPost : string -> W -> (TransformResult + Thrown) * W)
         (clock : W -> Z) (bids : list WonBid) (cache : Cache) (w : W),
    (forall id w0, exists e w1, callTransform axiosPost true id w0 = (inr e, w1)) ->
    fst (fst (transformAll axiosPost clock bids cache w [])) = cache
    /\ forall id tx,
         ~ In (NotifyTransformExecuted id tx)
              (snd (transformAll axiosPost clock bids cache w [])).
Proof.
  intros W axiosPost clock bids cache w Hfail.
  destruct (@transformAll_failing W axiosPost clock bids cache w [] Hfail)
    as [Hcache Hevs].
  split; [ exact Hcache | ].
  intros id tx Hin. exact (Hevs id tx Hin).
Qed.

Lemma monitorWonBids_failure_not_recorded_witness :
  transformAll down lengthClock twoWon [] [] []
  = ([], [], [NotifyBidWon "rfq-3" "4900"; NotifyBidWon "rfq-4" "120"])
  /\ fst (fst (transformAll down lengthClock twoWon [] [] [])) = [].
Proof.
  split; [ reflexivity | ].
  apply (@monitorWonBids_failure_not_recorded (list string) down lengthClock
           twoWon [] []).
  intros id w0. exists (Error "Bad request"), w0. reflexivity.
Defined.

End WonBidsFacts.

(** ** More on the sweep *)
Module SweepFacts.
Import Dedup.

Lemma filter_keys_NoDup (f : string * Z -> bool) (m : Cache) :
  NoDup (keys m) -> NoDup (keys (filter f m)).
Proof.
  unfold keys. induction m as [ | e m IH]; simpl; intros Hnd.
  - constructor.
  - inversion Hnd as [ | k l Hk Hrest]; subst.
    destruct (f e); simpl.
    + constructor; [ | exact (IH Hrest) ].
      intros Hin. apply Hk. apply in_map_iff in Hin.
      destruct Hin as [x [Hx Hin]]. apply filter_In in Hin.
      apply in_map_iff. exists x. tauto.
    + exact (IH Hrest).
Qed.

Lemma filter_filter (f g : string * Z -> bool) (m : Cache) :
  filter f (filter g m) = filter (fun e => g e && f e) m.
Proof.
  induction m as [ | e m IH]; simpl.
  - reflexivity.
  - destruct (g e); simpl; [ destruct (f e); rewrite IH | rewrite IH ]; reflexivity.
Qed.

(** the test the sweep makes on an entry, as one predicate *)
Lemma cleanup_is_filter max now m :
  exists keep, cleanup max now m = filter keep m.
Proof.
  unfold cleanup, evictOver, dropExpired.
  set (fresh := fun e : string * Z => negb (Z.ltb (snd e) (now - CLEANUP_INTERVAL_MS))).
  destruct (Nat.ltb max (List.length (filter fresh m))).
  - rewrite DedupFacts.deleteAll_filter, filter_filter. eexists. reflexivity.
  - exists fresh. reflexivity.
Qed.

Lemma cleanup_fixpoint max now m :
  (forall e, In e m -> age now e <= CLEANUP_INTERVAL_MS) ->
  (List.length m <= max)%nat ->
  cleanup max now m = m.
Proof.
  intros Hfresh Hlen. unfold cleanup.
  assert (Hdrop : dropExpired (now - CLEANUP_INTERVAL_MS) m = m).
  { unfold dropExpired. apply forallb_filter_id. apply forallb_forall.
    intros e He. apply negb_true_iff, Z.ltb_ge.
    specialize (Hfresh e He). unfold age in Hfresh. lia. }
  rewrite Hdrop. unfold evictOver.
  apply Nat.ltb_ge in Hlen. rewrite Hlen. reflexivity.
Qed.

(** X14.  Sweeping twice at the same time is sweeping once: a second
    [cleanupProcessedRequests] right after the first removes nothing. *)
Theorem sweep_idempotent :
  forall (now : Z) (m : Cache),
    NoDup (keys m) ->
    cleanupProcessedRequests now (cleanupProcessedRequests now m)
    = cleanupProcessedRequests now m.
Proof.
  intros now m Hnd. unfold cleanupProcessedRequests.
  destruct (@DedupFacts.cleanup_spec MAX_PROCESSED_ENTRIES now m Hnd)
    as (Hin & Hlen & _).
  apply cleanup_fixpoint.
  - intros e He. exact (proj2 (Hin e He)).
  - exact Hlen.
Qed.

Lemma sweep_idempotent_witness :
  cleanupProcessedRequests 3600025 (cleanupProcessedRequests 3600025 fourEntries)
  = cleanupProcessedRequests 3600025 fourEntries.
Proof.
  apply sweep_idempotent.
  unfold fourEntries, keys. simpl.
  repeat (constructor; [ simpl; intuition discriminate | ]). constructor.
Defined.

(** X15.  The sweep removes no more than it must.  When at most [max]
    entries are not older than one hour, exactly those are kept, in their
    order; when more are, exactly [max] entries are kept. *)
Theorem sweep_removes_no_more_than_needed :
  forall (max : nat) (now : Z) (m : Cache),
    NoDup (keys m) ->
    let fresh := dropExpired (now - CLEANUP_INTERVAL_MS) m in
    ((List.length fresh <= max)%nat -> cleanup max now m = fresh)
    /\ ((max < List.length fresh)%nat -> List.length (cleanup max now m) = max)
    /\ cleanupProcessedRequests now m = cleanup MAX_PROCESSED_ENTRIES now m
    /\ cleanupProcessedLiquidations now m = cleanup MAX_PROCESSED_ENTRIES now m.
Proof.
  intros max now m Hnd fresh. unfold cleanup. fold fresh.
  split; [ | split; [ | split; reflexivity ] ].
  - intros Hlen. unfold evictOver. apply Nat.ltb_ge in Hlen. rewrite Hlen.
    reflexivity.
  - intros Hlt.
    assert (Hnd' : NoDup (keys fresh))
      by (apply DedupFacts.dropExpired_NoDup; exact Hnd).
    rewrite (Permutation_length (DedupFacts.evictOver_perm Hnd' Hlt)).
    rewrite length_skipn, (Permutation_length (DedupFacts.sortByTime_perm fresh)).
    lia.
Qed.

Lemma sweep_removes_no_more_than_needed_witness :
  List.length (cleanup 2 50 fourEntries) = 2%nat
  /\ cleanup 4 3600025 fourEntries = [("rfq-b", 40); ("rfq-d", 30)].
Proof.
  assert (Hkeys : NoDup (keys fourEntries)).
  { unfold fourEntries, keys. simpl.
    repeat (constructor; [ simpl; intuition discriminate | ]). constructor. }
  split.
  - destruct (@sweep_removes_no_more_than_needed 2 50 fourEntries Hkeys)
      as (_ & Hexact & _).
    apply Hexact. vm_compute. lia.
  - destruct (@sweep_removes_no_more_than_needed 4 3600025 fourEntries Hkeys)
      as (Hfresh & _).
    rewrite Hfresh; [ reflexivity | vm_compute; lia ].
Defined.

(** X16.  The sweep only removes: what it leaves is the cache filtered by
    one test on the entries, so the entries kept stay in insertion order
    with the time they were recorded at, and their ids stay distinct. *)
Theorem sweep_only_removes :
  forall (now : Z) (m : Cache),
    NoDup (keys m) ->
    (exists keep, cleanupProcessedRequests now m = filter keep m)
    /\ NoDup (keys (cleanupProcessedRequests now m)).
Proof.
  intros now m Hnd. unfold cleanupProcessedRequests.
  destruct (cleanup_is_filter MAX_PROCESSED_ENTRIES now m) as [keep Hkeep].
  split.
  - exists keep. exact Hkeep.
  - rewrite Hkeep. apply filter_keys_NoDup. exact Hnd.
Qed.

Lemma sweep_only_removes_witness :
  NoDup (keys (cleanupProcessedRequests 3600025 fourEntries)).
Proof.
  apply sweep_only_removes.
  unfold fourEntries, keys. simpl.
  repeat (constructor; [ simpl; intuition discriminate | ]). constructor.
Defined.

End SweepFacts.

(** ** The mutex serves the calls in order *)
Module SerialFacts.
Import Js Wallet Serial.

Section Runs.
Variables W T : Type.
Variable getTransactionCount : W -> (Z + Thrown) * W.
Variable fns : nat -> Z -> W -> (T + Thrown) * W.

Lemma release_inOrder made wm w us ss q i (r : T + Thrown) :
  map fst ss ++ i :: q = made ->
  inOrder made (release (mkSys wm None q w us (ss ++ [(i, r)]) : Sys W T)).
Proof.
  intros Hmade. unfold release, inOrder, pending. simpl.
  destruct q as [ | j q]; simpl; rewrite map_app; simpl.
  - split; [ rewrite app_nil_r; exact Hmade | reflexivity ].
  - split; [ rewrite <- app_assoc; exact Hmade | discriminate ].
Qed.

Lemma step_inOrder l made (s : Sys W T) :
  inOrder made s ->
  inOrder (made ++ calls [l]) (step getTransactionCount fns l s).
Proof.
  intros [Hmade Hfree]. destruct l as [i | | f].
  - (* a call arrives *)
    change (calls [@Call W i]) with [i].
    unfold inOrder, pending in *. simpl.
    destruct (holder s) as [[h st] | ] eqn:Hh; simpl.
    + split; [ | discriminate ].
      rewrite <- Hmade, <- app_assoc. reflexivity.
    + split; [ | discriminate ].
      rewrite <- Hmade, (Hfree eq_refl), app_nil_r. reflexivity.
  - (* the holder goes on *)
    change (calls [@Progress W]) with (@nil nat). rewrite app_nil_r.
    simpl. unfold inOrder, pending in Hmade, Hfree.
    destruct (holder s) as [[i st] | ] eqn:Hh.
    + destruct st as [ | n].
      * destruct (currentNonce (wallet s)) as [n | ].
        -- unfold inOrder, pending. simpl. split; [ exact Hmade | discriminate ].
        -- destruct (syncNonce getTransactionCount (wallet s) (world s))
             as [[[u | e] wm'] w'].
           ++ destruct (currentNonce wm') as [n | ].
              ** unfold inOrder, pending. simpl. split; [ exact Hmade | discriminate ].
              ** apply release_inOrder. exact Hmade.
           ++ apply release_inOrder. exact Hmade.
      * destruct (fns i n (world s)) as [r w'].
        destruct (settle n r) as [res wm'].
        apply release_inOrder. exact Hmade.
    + unfold inOrder, pending. rewrite Hh. split; assumption.
  - change (calls [Env f]) with (@nil nat). rewrite app_nil_r.
    unfold inOrder, pending in *. simpl. split; assumption.
Qed.

Lemma run_inOrder ls : forall made (s : Sys W T),
  inOrder made s ->
  inOrder (made ++ calls ls) (run getTransactionCount fns ls s).
Proof.
  induction ls as [ | l ls IH]; intros made s Hin.
  - simpl. rewrite app_nil_r. exact Hin.
  - rewrite WalletFacts.calls_cons, app_assoc.
    change (run getTransactionCount fns (l :: ls) s)
      with (run getTransactionCount fns ls (step getTransactionCount fns l s)).
    apply IH. apply step_inOrder. exact Hin.
Qed.
End Runs.

(** X17.  Whatever the callbacks do, succeed or throw, and whatever the
    ledger does meanwhile, the calls of [executeTransaction] settle in the
    order in which they were made: at any moment the calls that have
    settled, followed by the one holding the mutex and those queued, are
    the calls made so far, in order; when none is left pending, every call
    has settled exactly once. *)
Theorem calls_settle_in_order :
  forall (W T : Type) (getTransactionCount : W -> (Z + Thrown) * W)
         (fns : nat -> Z -> W -> (T + Thrown) * W)
         (base : Z) (w0 : W) (ls : list (Label W)),
    let s := run getTransactionCount fns ls (init T base w0) in
    map fst (settled s) ++ pending s = calls ls
    /\ (quiescent s -> map fst (settled s) = calls ls).
Proof.
  intros W T getTC fns base w0 ls s.
  destruct (@run_inOrder W T getTC fns ls [] (init T base w0)) as [Hmade _].
  - split; [ reflexivity | reflexivity ].
  - fold s in Hmade. simpl in Hmade. split; [ exact Hmade | ].
    intros [Hh Hq]. unfold pending in Hmade. rewrite Hh, Hq, app_nil_r in Hmade.
    exact Hmade.
Qed.

Lemma calls_settle_in_order_witness :
  map fst (settled (run countLedger oddRejected interleaved (init unit 7 7)))
  = [2%nat; 0%nat; 1%nat].
Proof.
  destruct (@calls_settle_in_order Z unit countLedger oddRejected 7 7 interleaved)
    as [_ Hdone].
  apply Hdone. split; reflexivity.
Defined.

Section Serialised.
Variables W T : Type.
Variable getTransactionCount : W -> (Z + Thrown) * W.
Variable fns : nat -> Z -> W -> (T + Thrown) * W.

Lemma eventually_release wm (w : W) us (ss : list (nat * (T + Thrown))) q :
  eventually getTransactionCount fns (release (mkSys wm None q w us ss))
  = sequential getTransactionCount fns q (wm, w, ss).
Proof.
  unfold release, eventually, holderSettled. simpl.
  destruct q as [ | j q]; reflexivity.
Qed.

Lemma step_eventually l (s : Sys W T) :
  isEnv l = false ->
  (holder s = None -> queue s = []) ->
  eventually getTransactionCount fns (step getTransactionCount fns l s)
  = sequential getTransactionCount fns (calls [l])
               (eventually getTransactionCount fns s).
Proof.
  intros Hl Hfree. destruct l as [i | | f]; [ | | discriminate ].
  - (* a call arrives *)
    change (calls [@Call W i]) with [i]. simpl.
    destruct (holder s) as [[h st] | ] eqn:Hh.
    + unfold eventually, holderSettled. simpl. rewrite Hh.
      unfold sequential. rewrite fold_left_app. reflexivity.
    + unfold eventually, holderSettled. simpl. rewrite Hh, (Hfree eq_refl).
      reflexivity.
  - (* the holder goes on *)
    change (calls [@Progress W]) with (@nil nat). simpl.
    destruct (holder s) as [[i st] | ] eqn:Hh; [ | reflexivity ].
    destruct st as [ | n].
    + unfold eventually at 2. unfold holderSettled. rewrite Hh.
      unfold runAlone, executeTransaction.
      destruct (currentNonce (wallet s)) as [n | ].
      * unfold eventually, holderSettled, invoke. simpl.
        destruct (fns i n (world s)) as [r w']. destruct (settle n r) as [res wm'].
        reflexivity.
      * destruct (syncNonce getTransactionCount (wallet s) (world s))
          as [[[u | e] wm'] w'].
        -- destruct (currentNonce wm') as [n | ].
           ++ unfold eventually, holderSettled, invoke. simpl.
              destruct (fns i n w') as [r w'']. destruct (settle n r) as [res wm''].
              reflexivity.
           ++ rewrite eventually_release. reflexivity.
        -- rewrite eventually_release. reflexivity.
    + unfold eventually at 2. unfold holderSettled. rewrite Hh.
      destruct (fns i n (world s)) as [r w']. destruct (settle n r) as [res wm'].
      rewrite eventually_release. reflexivity.
Qed.

Lemma run_eventually ls : forall made (s : Sys W T),
  forallb (fun l => negb (isEnv l)) ls = true ->
  inOrder made s ->
  eventually getTransactionCount fns (run getTransactionCount fns ls s)
  = sequential getTransactionCount fns (calls ls)
               (eventually getTransactionCount fns s).
Proof.
  induction ls as [ | l ls IH]; intros made s Hls Hin.
  - reflexivity.
  - simpl in Hls. apply andb_true_iff in Hls. destruct Hls as [Hl Hls].
    apply negb_true_iff in Hl.
    change (run getTransactionCount fns (l :: ls) s)
      with (run getTransactionCount fns ls (step getTransactionCount fns l s)).
    rewrite (@WalletFacts.calls_cons W l ls).
    rewrite (IH (made ++ calls [l]) _ Hls (step_inOrder getTransactionCount fns l Hin)).
    rewrite (step_eventually Hl (proj2 Hin)).
    unfold sequential. rewrite fold_left_app. reflexivity.
Qed.
End Serialised.

(** X18.  The mutex makes concurrent calls serializable.  As long as
    nothing but the calls themselves changes the ledger, any interleaving
    of calls of [executeTransaction] with one another's progress ends, once
    all have settled, with the same cached nonce, the same ledger and the
    same results and errors as running the calls one after the other, each
    from start to end, in the order in which they were made. *)
Theorem concurrent_calls_are_serializable :
  forall (W T : Type) (getTransactionCount : W -> (Z + Thrown) * W)
         (fns : nat -> Z -> W -> (T + Thrown) * W)
         (base : Z) (w0 : W) (ls : list (Label W)),
    forallb (fun l => negb (isEnv l)) ls = true ->
    let s := run getTransactionCount fns ls (init T base w0) in
    quiescent s ->
    (wallet s, world s, settled s)
    = sequential getTransactionCount fns (calls ls)
                 (mkWalletManager (Some base), w0, []).
Proof.
  intros W T getTC fns base w0 ls Hls s [Hh Hq].
  assert (Hinit : inOrder [] (init T base w0)) by (split; reflexivity).
  pose proof (@run_eventually W T getTC fns ls [] (init T base w0) Hls Hinit) as Hev.
  fold s in Hev.
  transitivity (eventually getTC fns s); [ | exact Hev ].
  unfold eventually, holderSettled. rewrite Hh, Hq. reflexivity.
Qed.

Lemma concurrent_calls_are_serializable_witness :
  let s := run countLedger oddRejected interleaved (init unit 7 7) in
  (wallet s, world s, settled s)
  = sequential countLedger oddRejected [2%nat; 0%nat; 1%nat]
               (mkWalletManager (Some 7), 7, []).
Proof.
  apply (@concurrent_calls_are_serializable Z unit countLedger oddRejected 7 7
           interleaved).
  - reflexivity.
  - split; reflexivity.
Defined.

End SerialFacts.

(** ** More on the stream client *)
Module StreamMoreFacts.
Import Js Stream StreamSamples.

Lemma typeIs_tagOf ty tag : typeIs ty tag = true <-> tagOf ty = Some tag.
Proof.
  destruct ty; simpl; try (split; discriminate).
  split.
  - intros H. apply String.eqb_eq in H. subst. reflexivity.
  - intros H. injection H as ->. apply String.eqb_refl.
Qed.

Lemma typeIs_other ty tag other :
  tagOf ty = Some tag -> tag <> other -> typeIs ty other = false.
Proof.
  intros Htag Hne. destruct (typeIs ty other) eqn:H; [ | reflexivity ].
  apply typeIs_tagOf in H. rewrite Htag in H. injection H as ->. contradiction.
Qed.

(** X19.  What [handleMessage] emits for a message it recognizes.  An
    rfq_request or a liquidation whose [data.chainId] is a supported chain
    is emitted once, with its [data]; for any other chain nothing is
    emitted.  A bid_accepted is emitted whatever its chain is, and a pong
    is never emitted.  Nothing but the list of emitted events changes. *)
Theorem recognized_messages_are_emitted :
  forall (config : WebSocketConfig) (JSON_parse : string -> option Json)
         (c : Client) (text : string) (message ty : Json),
    JSON_parse text = Some message ->
    getProp message "type" = Some ty ->
    (forall d chain,
        tagOf ty = Some "rfq_request" ->
        getProp message "data" = Some d -> getProp d "chainId" = Some chain ->
        handleMessage config JSON_parse c text
        = Normal (emit (if includesChain config chain then [rfq_request d] else []) c))
    /\ (forall d chain,
        tagOf ty = Some "liquidation" ->
        getProp message "data" = Some d -> getProp d "chainId" = Some chain ->
        handleMessage config JSON_parse c text
        = Normal (emit (if includesChain config chain then [liquidation d] else []) c))
    /\ (tagOf ty = Some "bid_accepted" ->
        exists d, getProp message "data" = Some d
                  /\ handleMessage config JSON_parse c text
                     = Normal (emit [bid_accepted d] c))
    /\ (tagOf ty = Some "pong" ->
        handleMessage config JSON_parse c text = Normal c).
Proof.
  intros config JSON_parse c text message ty Hparse Hty.
  unfold handleMessage, handleMessageTry. rewrite Hparse, Hty.
  split; [ | split; [ | split ] ].
  - intros d chain Htag Hd Hchain.
    rewrite (proj2 (typeIs_tagOf ty "rfq_request") Htag), Hd, Hchain.
    destruct (includesChain config chain); reflexivity.
  - intros d chain Htag Hd Hchain.
    rewrite (typeIs_other (other := "rfq_request") Htag) by discriminate.
    rewrite (proj2 (typeIs_tagOf ty "liquidation") Htag), Hd, Hchain.
    destruct (includesChain config chain); reflexivity.
  - intros Htag.
    rewrite (typeIs_other (other := "rfq_request") Htag) by discriminate.
    rewrite (typeIs_other (other := "liquidation") Htag) by discriminate.
    rewrite (proj2 (typeIs_tagOf ty "bid_accepted") Htag).
    destruct message; simpl in Hty; try discriminate;
      (eexists; split; [ reflexivity | reflexivity ]).
  - intros Htag.
    rewrite (typeIs_other (other := "rfq_request") Htag) by discriminate.
    rewrite (typeIs_other (other := "liquidation") Htag) by discriminate.
    rewrite (typeIs_other (other := "bid_accepted") Htag) by discriminate.
    rewrite (proj2 (typeIs_tagOf ty "pong") Htag).
    rewrite StreamFacts.emit_nil. reflexivity.
Qed.

Lemma recognized_messages_are_emitted_witness :
  handleMessage sampleConfig parseTagged initial (tagged "rfq_request" "98866")
  = Normal (emit [rfq_request (chainData 98866)] initial)
  /\ handleMessage sampleConfig parseTagged initial (tagged "rfq_request" "1")
     = Normal (emit [] initial)
  /\ exists d, handleMessage sampleConfig parseTagged initial (tagged "bid_accepted" "1")
               = Normal (emit [bid_accepted d] initial).
Proof.
  split; [ | split ].
  - destruct (@recognized_messages_are_emitted sampleConfig parseTagged initial
                (tagged "rfq_request" "98866")
                (JObj [("type", JStr "rfq_request"); ("data", chainData 98866)])
                (JStr "rfq_request") eq_refl eq_refl) as (Hrfq & _).
    exact (Hrfq (chainData 98866) (JNum 98866) eq_refl eq_refl eq_refl).
  - destruct (@recognized_messages_are_emitted sampleConfig parseTagged initial
                (tagged "rfq_request" "1")
                (JObj [("type", JStr "rfq_request"); ("data", chainData 1)])
                (JStr "rfq_request") eq_refl eq_refl) as (Hrfq & _).
    exact (Hrfq (chainData 1) (JNum 1) eq_refl eq_refl eq_refl).
  - destruct (@recognized_messages_are_emitted sampleConfig parseTagged initial
                (tagged "bid_accepted" "1")
                (JObj [("type", JStr "bid_accepted"); ("data", chainData 1)])
                (JStr "bid_accepted") eq_refl eq_refl) as (_ & _ & Hbid & _).
    destruct (Hbid eq_refl) as (d & _ & Hd). exists d. exact Hd.
Defined.

Section Client.
Variable config : WebSocketConfig.
Variable JSON_parse : string -> option Json.

Lemma connect_holdsCreated ok c : holdsCreated c -> holdsCreated (connect ok c).
Proof.
  unfold holdsCreated, connect. intros H k.
  destruct (ws c) as [j | ] eqn:Hw.
  - rewrite Hw. intros Hk. apply H. exact Hk.
  - destruct ok; simpl; intros Hk; [ injection Hk as <-; lia | discriminate ].
Qed.

Lemma step_holdsCreated l c :
  holdsCreated c -> holdsCreated (step config JSON_parse l c).
Proof.
  intros H. destruct l as [ok | | k | k data | k reason | k | t ok]; simpl.
  - apply connect_holdsCreated. exact H.
  - intros k Hk. discriminate.
  - destruct (Nat.ltb k (nextSocket c)); [ | exact H ].
    unfold onOpen, holdsCreated, emit. simpl.
    match goal with
    | |- context [subscribe ?x] =>
        destruct (StreamFacts.subscribe_fields x) as (Hw & _ & _ & _ & _ & Hn)
    end.
    rewrite Hw, Hn. exact H.
  - destruct (Nat.ltb k (nextSocket c)); [ | exact H ].
    destruct (StreamFacts.handleMessage_emits config JSON_parse c data) as [evs ->].
    exact H.
  - destruct (Nat.ltb k (nextSocket c)); [ | exact H ].
    unfold onClose. simpl.
    destruct (shouldReconnect c); [ | exact H ].
    unfold scheduleReconnect. simpl. destruct (reconnectTimeout c); exact H.
  - destruct (Nat.ltb k (nextSocket c)); exact H.
  - destruct (armed t c); [ | exact H ].
    unfold onTimer. apply connect_holdsCreated. intros k Hk. discriminate.
Qed.

Lemma reachable_holdsCreated ls :
  holdsCreated (run config JSON_parse ls initial).
Proof.
  assert (Hgen : forall c, holdsCreated c -> holdsCreated (run config JSON_parse ls c)).
  { induction ls as [ | l ls IH]; intros c H; simpl.
    - exact H.
    - apply IH. apply step_holdsCreated. exact H. }
  apply Hgen. intros k Hk. discriminate.
Qed.
End Client.

(** X20.  Reconnection goes on as long as sockets get created.  When the
    pending reconnect timer fires and the new socket is created, the client
    holds that socket, no timer is armed and reconnection is wanted; if that
    socket closes in turn, a new timer is armed with the configured delay.
    When the timer fires and the WebSocket constructor throws, the client
    holds no socket and no timer is armed: nothing is scheduled any more
    until [connect()] is called or an earlier socket closes. *)
Theorem reconnect_attempts :
  forall (config : WebSocketConfig) (JSON_parse : string -> option Json)
         (ls : list Label) (t : nat),
    let c := run config JSON_parse ls initial in
    armed t c = true ->
    (let c1 := step config JSON_parse (Fire t true) c in
     ws c1 = Some (nextSocket c) /\ timers c1 = [] /\ shouldReconnect c1 = true
     /\ forall reason,
          timers (step config JSON_parse (SockClose (nextSocket c) reason) c1)
          = [(nextTimer c, reconnectIntervalMs config)])
    /\ (let c2 := step config JSON_parse (Fire t false) c in
        ws c2 = None /\ timers c2 = [] /\ reconnectTimeout c2 = None
        /\ nextSocket c2 = nextSocket c).
Proof.
  intros config JSON_parse ls t c Harmed.
  pose proof (StreamFacts.reachable_tracked config JSON_parse ls) as Htr.
  fold c in Htr. unfold timersTracked in Htr.
  assert (Hone : reconnectTimeout c = Some t
                 /\ timers c = [(t, reconnectIntervalMs config)]).
  { unfold armed in Harmed. rewrite Htr in Harmed |- *.
    destruct (reconnectTimeout c) as [t' | ]; simpl in Harmed; [ | discriminate ].
    rewrite orb_false_r in Harmed. apply Nat.eqb_eq in Harmed. subst t'.
    split; reflexivity. }
  destruct Hone as [Hrt Hts].
  split.
  - simpl. rewrite Harmed. unfold onTimer, connect. simpl.
    rewrite Hts, StreamFacts.clearTimeout_single.
    split; [ reflexivity | split; [ reflexivity | split; [ reflexivity | ] ] ].
    intros reason. simpl.
    assert (Hlt : Nat.ltb (nextSocket c) (S (nextSocket c)) = true)
      by (apply Nat.ltb_lt; lia).
    rewrite Hlt. unfold onClose, scheduleReconnect. simpl. reflexivity.
  - simpl. rewrite Harmed. unfold onTimer, connect. simpl.
    rewrite Hts, StreamFacts.clearTimeout_single.
    repeat split; reflexivity.
Qed.

Lemma reconnect_attempts_witness :
  let c := run sampleConfig parseSample
               [Connect true; SockOpen 0; SockClose 0 "Code: 1006"] initial in
  ws (step sampleConfig parseSample (Fire 0 true) c) = Some 1%nat
  /\ ws (step sampleConfig parseSample (Fire 0 false) c) = None.
Proof.
  intros c.
  destruct (@reconnect_attempts sampleConfig parseSample
              [Connect true; SockOpen 0; SockClose 0 "Code: 1006"] 0%nat eq_refl)
    as [(Hws & _) (Hnone & _)].
  split; [ exact Hws | exact Hnone ].
Defined.

(** X21.  A socket that was disconnected still reports its close.  When
    the client holds socket [k], [disconnect()] followed by [connect()]
    makes it hold a new socket; the close event of [k], arriving after
    that, finds reconnection wanted again and arms a reconnect timer.  When
    that timer fires, the client drops the socket it holds without closing
    it and creates one more: [close()] has been called on [k] alone. *)
Theorem stale_close_opens_second_socket :
  forall (config : WebSocketConfig) (JSON_parse : string -> option Json)
         (ls : list Label) (k : nat) (reason : string),
    let c := run config JSON_parse ls initial in
    ws c = Some k ->
    let c1 := run config JSON_parse
                  [Disconnect; Connect true; SockClose k reason] c in
    ws c1 = Some (nextSocket c)
    /\ timers c1 = [(nextTimer c, reconnectIntervalMs config)]
    /\ (let c2 := step config JSON_parse (Fire (nextTimer c) true) c1 in
        ws c2 = Some (S (nextSocket c))
        /\ nextSocket c2 = S (S (nextSocket c))
        /\ closeCalls c2 = closeCalls c ++ [k]).
Proof.
  intros config JSON_parse ls k reason c Hws.
  pose proof (StreamFacts.reachable_tracked config JSON_parse ls) as Htr.
  pose proof (@reachable_holdsCreated config JSON_parse ls k) as Hk.
  fold c in Htr, Hk. specialize (Hk Hws).
  clearbody c. destruct c as [w ic sr rt ts nt ns os cc sb em].
  unfold timersTracked in Htr. simpl in Htr, Hk, Hws. subst w.
  assert (Hlt : Nat.ltb k (S ns) = true) by (apply Nat.ltb_lt; lia).
  assert (Hcleared : match rt with
                     | Some t => clearTimeout t ts
                     | None => ts
                     end = []).
  { destruct rt as [t | ]; subst ts; [ apply StreamFacts.clearTimeout_single | reflexivity ]. }
  assert (Hdisconnect :
            step config JSON_parse Disconnect
                 (mkClient (Some k) ic sr rt ts nt ns os cc sb em)
            = mkClient None false false None [] nt ns os (cc ++ [k]) sb em).
  { unfold step, disconnect. simpl. rewrite Hcleared. reflexivity. }
  assert (Hconnect :
            step config JSON_parse (Connect true)
                 (mkClient None false false None [] nt ns os (cc ++ [k]) sb em)
            = mkClient (Some ns) false true None [] nt (S ns) os (cc ++ [k]) sb em)
    by reflexivity.
  assert (Hclose :
            step config JSON_parse (SockClose k reason)
                 (mkClient (Some ns) false true None [] nt (S ns) os (cc ++ [k]) sb em)
            = mkClient (Some ns) false true (Some nt)
                       [(nt, reconnectIntervalMs config)] (S nt) (S ns)
                       (filter (fun j => negb (Nat.eqb j k)) os) (cc ++ [k]) sb
                       (em ++ [disconnected reason])).
  { unfold step. simpl. rewrite Hlt. reflexivity. }
  assert (Hfire :
            step config JSON_parse (Fire nt true)
                 (mkClient (Some ns) false true (Some nt)
                           [(nt, reconnectIntervalMs config)] (S nt) (S ns)
                           (filter (fun j => negb (Nat.eqb j k)) os) (cc ++ [k]) sb
                           (em ++ [disconnected reason]))
            = mkClient (Some (S ns)) false true None [] (S nt) (S (S ns))
                       (filter (fun j => negb (Nat.eqb j k)) os) (cc ++ [k]) sb
                       (em ++ [disconnected reason])).
  { unfold step, armed. simpl. rewrite Nat.eqb_refl. simpl.
    unfold onTimer, connect, clearTimeout. simpl. rewrite ?Nat.eqb_refl. reflexivity. }
  change (run config JSON_parse [Disconnect; Connect true; SockClose k reason]
              (mkClient (Some k) ic sr rt ts nt ns os cc sb em))
    with (step config JSON_parse (SockClose k reason)
               (step config JSON_parse (Connect true)
                     (step config JSON_parse Disconnect
                           (mkClient (Some k) ic sr rt ts nt ns os cc sb em)))).
  rewrite Hdisconnect, Hconnect, Hclose.
  split; [ reflexivity | split; [ reflexivity | ] ].
  change (nextTimer (mkClient (Some k) ic sr rt ts nt ns os cc sb em)) with nt.
  rewrite Hfire.
  split; [ reflexivity | split; reflexivity ].
Qed.

Lemma stale_close_opens_second_socket_witness :
  let c := run sampleConfig parseSample [Connect true; SockOpen 0] initial in
  let c1 := run sampleConfig parseSample
                [Disconnect; Connect true; SockClose 0 "Code: 1005"] c in
  ws c1 = Some 1%nat /\ timers c1 = [(0%nat, 5000)]
  /\ ws (step sampleConfig parseSample (Fire 0 true) c1) = Some 2%nat.
Proof.
  intros c c1.
  pose proof (@stale_close_opens_second_socket sampleConfig parseSample
                [Connect true; SockOpen 0] 0%nat "Code: 1005" eq_refl) as Hrun.
  vm_compute in Hrun. destruct Hrun as (Hws & Htimers & Hsecond & _).
  vm_compute. split; [ exact Hws | split; [ exact Htimers | exact Hsecond ] ].
Defined.

End StreamMoreFacts.

(** ** Liquidations that are not worth it, and the order of the calls *)
Module LiquidationMoreFacts.
Import Js Liquidation.

(** X22.  A position whose health factor is at least 1, or whose chain is
    not supported, is never liquidated: [shouldLiquidate] is false and
    [processSingleLiquidation] makes no call, whatever the amounts are. *)
Theorem healthy_or_foreign_position_is_left_alone :
  forall (ops : BigNumberOps) (l : Liquidation) (cfg : AppConfig)
         (amounts : LiquidationAmounts)
         (approveOk signOk : bool) (triggered : option string),
    (1 <= healthFactor l)%Q \/ ~ In (chainId l) (supportedChains cfg) ->
    shouldLiquidate l amounts cfg = false
    /\ processSingleLiquidation l cfg approveOk signOk triggered = [].
Proof.
  intros ops l cfg amounts approveOk signOk triggered Hskip.
  assert (Hno : forall a, shouldLiquidate l a cfg = false).
  { intros a. unfold shouldLiquidate. destruct Hskip as [Hhealthy | Hchain].
    - apply Qle_bool_iff in Hhealthy. rewrite Hhealthy. reflexivity.
    - destruct (Qle_bool 1 (healthFactor l)); [ reflexivity | ].
      destruct (existsb (Z.eqb (chainId l)) (supportedChains cfg)) eqn:Hex;
        [ | reflexivity ].
      exfalso. apply Hchain. apply existsb_exists in Hex.
      destruct Hex as [c [Hc Heq]]. apply Z.eqb_eq in Heq. rewrite Heq. exact Hc. }
  split; [ apply Hno | ].
  unfold processSingleLiquidation. rewrite Hno. reflexivity.
Qed.

Lemma healthy_or_foreign_position_is_left_alone_witness :
  processSingleLiquidation (ops := Decimal.ops) (Decimal.underwater (Some "50.5"))
                           (mkAppConfig [1] (98 # 100) "0xmaker")
                           true true (Some "0xhash") = [].
Proof.
  apply (@healthy_or_foreign_position_is_left_alone Decimal.ops
           (Decimal.underwater (Some "50.5")) (mkAppConfig [1] (98 # 100) "0xmaker")
           (mkAmounts "1" "1" "0" 6 6) true true (Some "0xhash")).
  right. simpl. intros [H | []]. discriminate.
Defined.

Lemma shouldLiquidate_true (l : Liquidation) (amounts : LiquidationAmounts)
      (cfg : AppConfig) :
  shouldLiquidate l amounts cfg = true ->
  (healthFactor l < 1)%Q /\ In (chainId l) (supportedChains cfg)
  /\ debtToRepay amounts <> "0" /\ collateralToSeize amounts <> "0".
Proof.
  unfold shouldLiquidate. intros H.
  destruct (Qle_bool 1 (healthFactor l)) eqn:Hhf; [ discriminate | ].
  destruct (existsb (Z.eqb (chainId l)) (supportedChains cfg)) eqn:Hex;
    [ | discriminate ].
  simpl in H.
  destruct (String.eqb (debtToRepay amounts) "0") eqn:Hd; [ discriminate | ].
  destruct (String.eqb (collateralToSeize amounts) "0") eqn:Hc; [ discriminate | ].
  split; [ | split; [ | split ] ].
  - apply Qnot_le_lt. intros Hle. apply Qle_bool_iff in Hle. congruence.
  - apply existsb_exists in Hex. destruct Hex as [c [Hc' Heq]].
    apply Z.eqb_eq in Heq. rewrite Heq. exact Hc'.
  - apply String.eqb_neq. exact Hd.
  - apply String.eqb_neq. exact Hc.
Qed.

(** X23.  The calls of [processSingleLiquidation] come in one order and
    stop at the first failure.  A liquidation is triggered only for the
    position at hand, only when its health factor is below 1 and its chain
    is supported, and only after the approval and the signature succeeded.
    A signature is only asked for after the approval of the very amount
    that is signed as maker amount, for the borrowed asset and the
    position's exchange proxy.  Whenever a call is made, the calls end with
    exactly one notification, and the success notification carries the hash
    that [triggerLiquidation] returned. *)
Theorem liquidation_calls_in_order :
  forall (ops : BigNumberOps) (l : Liquidation) (cfg : AppConfig)
         (approveOk signOk : bool) (triggered : option string),
    let calls := processSingleLiquidation l cfg approveOk signOk triggered in
    (forall id, In (Trigger id) calls ->
                id = _id l /\ approveOk = true /\ signOk = true
                /\ (healthFactor l < 1)%Q /\ In (chainId l) (supportedChains cfg))
    /\ (forall maker taker,
           In (Sign maker taker) calls ->
           approveOk = true
           /\ exists rest,
               calls = Approve (exchangeProxy l) maker (borrowedAssetId l)
                         :: Sign maker taker :: rest)
    /\ (calls <> [] ->
        exists front note,
          calls = front ++ [note] /\ touchesLedger note = false
          /\ forallb touchesLedger front = true)
    /\ (forall id txHash gain,
           In (NotifyTriggered id txHash gain) calls ->
           triggered = Some txHash /\ In (Trigger id) calls).
Proof.
  intros ops l cfg approveOk signOk triggered calls. unfold calls.
  unfold processSingleLiquidation.
  destruct (shouldLiquidate l (calculateLiquidationAmounts l) cfg) eqn:Hshould;
    simpl.
  - apply shouldLiquidate_true in Hshould.
    destruct Hshould as (Hhf & Hchain & _ & _).
    destruct approveOk; simpl.
    + destruct signOk; simpl.
      * destruct triggered as [txHash | ].
        -- split; [ | split; [ | split ] ].
           ++ intros id [Hin | [Hin | [Hin | [Hin | []]]]]; try discriminate.
              injection Hin as <-. auto.
           ++ intros maker taker [Hin | [Hin | [Hin | [Hin | []]]]]; try discriminate.
              injection Hin as <- <-. split; [ reflexivity | ].
              eexists. reflexivity.
           ++ intros _. eexists [_; _; _]. eexists. simpl.
              split; [ reflexivity | split; reflexivity ].
           ++ intros id h gain [Hin | [Hin | [Hin | [Hin | []]]]]; try discriminate.
              injection Hin as <- <- _. split; [ reflexivity | ].
              right. right. left. reflexivity.
        -- split; [ | split; [ | split ] ].
           ++ intros id [Hin | [Hin | [Hin | [Hin | []]]]]; try discriminate.
              injection Hin as <-. auto.
           ++ intros maker taker [Hin | [Hin | [Hin | [Hin | []]]]]; try discriminate.
              injection Hin as <- <-. split; [ reflexivity | ].
              eexists. reflexivity.
           ++ intros _. eexists [_; _; _]. eexists. simpl.
              split; [ reflexivity | split; reflexivity ].
           ++ intros id h gain [Hin | [Hin | [Hin | [Hin | []]]]]; discriminate.
      * split; [ | split; [ | split ] ].
        -- intros id [Hin | [Hin | [Hin | []]]]; discriminate.
        -- intros maker taker [Hin | [Hin | [Hin | []]]]; try discriminate.
           injection Hin as <- <-. split; [ reflexivity | ].
           eexists. reflexivity.
        -- intros _. eexists [_; _]. eexists. simpl.
           split; [ reflexivity | split; reflexivity ].
        -- intros id h gain [Hin | [Hin | [Hin | []]]]; discriminate.
    + split; [ | split; [ | split ] ].
      * intros id [Hin | [Hin | []]]; discriminate.
      * intros maker taker [Hin | [Hin | []]]; discriminate.
      * intros _. eexists [_]. eexists. simpl.
        split; [ reflexivity | split; reflexivity ].
      * intros id h gain [Hin | [Hin | []]]; discriminate.
  - split; [ | split; [ | split ] ].
    + intros id [].
    + intros maker taker [].
    + intros Hne. contradiction Hne. reflexivity.
    + intros id h gain [].
Qed.

Lemma liquidation_calls_in_order_witness :
  (healthFactor (Decimal.underwater (Some "50.5")) < 1)%Q
  /\ In 98866 (supportedChains Decimal.sampleConfig).
Proof.
  pose proof (@liquidation_calls_in_order Decimal.ops
                (Decimal.underwater (Some "50.5")) Decimal.sampleConfig
                true true (Some "0xhash")) as Hcalls.
  cbv zeta in Hcalls. destruct Hcalls as (Htrigger & _).
  destruct (Htrigger "liq-1") as (_ & _ & _ & Hhf & Hchain).
  - vm_compute. right. right. left. reflexivity.
  - split; [ exact Hhf | exact Hchain ].
Defined.

End LiquidationMoreFacts.

(** ** Approvals and confirmations *)
Module ApprovalsFacts.
Import Js Wallet Approvals.

(** X24.  [approveTokenToExchangeProxy], given a wallet manager, refuses an
    empty or zero exchange proxy or token address before it does anything:
    it throws, makes no call to the chain, and leaves the cached nonce as
    it is. *)
Theorem approval_rejects_invalid_addresses :
  forall (W : Type) (getTransactionCount : W -> (Z + Thrown) * W)
         (walletSend : string -> string -> Z -> W -> (string + Thrown) * W)
         (encodeApprove : string -> string + Thrown)
         (race : string -> W -> Raced * W)
         (symbol getAddress : W -> (string + Thrown) * W)
         (allowance : string -> string -> W -> (Z + Thrown) * W)
         (bigNumberFrom : string -> Z + Thrown)
         (exchangeProxy amount token : string) (wm : WalletManager) (w : W),
    invalidAddress exchangeProxy = true \/ invalidAddress token = true ->
    exists msg,
      approveTokenToExchangeProxy getTransactionCount walletSend encodeApprove race
        symbol
        getAddress allowance bigNumberFrom exchangeProxy amount token wm w
      = (inr (Error msg), wm, w, []).
Proof.
  intros W getTC walletSend encodeApprove race symbol getAddress allowance bigNumberFrom
         exchangeProxy amount token wm w Hbad.
  unfold approveTokenToExchangeProxy.
  destruct (invalidAddress exchangeProxy) eqn:Hp.
  - eexists. reflexivity.
  - destruct Hbad as [Hbad | Hbad]; [ discriminate | ].
    rewrite Hbad. eexists. reflexivity.
Qed.

Lemma approval_rejects_invalid_addresses_witness :
  approveTokenToExchangeProxy ledgerAt9 sends encodes reverts noSymbol ownerIs allows500
    fromDigits AddressZero "100" "0xtoken" (mkWalletManager (Some 4)) 0%nat
  = (inr (Error "Invalid exchange proxy address"), mkWalletManager (Some 4), 0%nat, []).
Proof.
  destruct (@approval_rejects_invalid_addresses nat ledgerAt9 sends encodes reverts noSymbol
              ownerIs allows500 fromDigits AddressZero "100" "0xtoken"
              (mkWalletManager (Some 4)) 0%nat (or_introl eq_refl)) as [msg Hmsg].
  rewrite Hmsg. f_equal. f_equal. f_equal.
  unfold approveTokenToExchangeProxy in Hmsg. simpl in Hmsg.
  injection Hmsg as Hmsg. rewrite <- Hmsg. reflexivity.
Defined.

(** X25.  When the allowance already covers the amount, no transaction is
    sent: the result says [alreadyApproved] with no hash, the ledger is not
    asked for a nonce, no callback runs and the cached nonce stays as it
    is, even when the token has no [symbol()]. *)
Theorem approval_skipped_when_allowance_suffices :
  forall (W : Type) (getTransactionCount : W -> (Z + Thrown) * W)
         (walletSend : string -> string -> Z -> W -> (string + Thrown) * W)
         (encodeApprove : string -> string + Thrown)
         (race : string -> W -> Raced * W)
         (symbol getAddress : W -> (string + Thrown) * W)
         (allowance : string -> string -> W -> (Z + Thrown) * W)
         (bigNumberFrom : string -> Z + Thrown)
         (exchangeProxy amount token : string) (wm : WalletManager) (w : W)
         (owner : string) (w2 w3 : W) (currentAllowance requiredAmount : Z),
    invalidAddress exchangeProxy = false -> invalidAddress token = false ->
    getAddress (snd (symbol w)) = (inl owner, w2) ->
    allowance owner exchangeProxy w2 = (inl currentAllowance, w3) ->
    bigNumberFrom amount = inl requiredAmount ->
    requiredAmount <= currentAllowance ->
    approveTokenToExchangeProxy getTransactionCount walletSend encodeApprove race
        symbol
      getAddress allowance bigNumberFrom exchangeProxy amount token wm w
    = (inl (mkApprovalResult None true), wm, w3, []).
Proof.
  intros W getTC walletSend encodeApprove race symbol getAddress allowance bigNumberFrom
         exchangeProxy amount token wm w owner w2 w3 cur req
         Hp Ht Hown Hall Hreq Hle.
  unfold approveTokenToExchangeProxy. rewrite Hp, Ht, Hown, Hall, Hreq.
  apply Z.leb_le in Hle. rewrite Hle. reflexivity.
Qed.

Lemma approval_skipped_when_allowance_suffices_witness :
  approveTokenToExchangeProxy ledgerAt9 sends encodes reverts noSymbol ownerIs allows500
    fromDigits "0xproxy" "500" "0xtoken" (mkWalletManager None) 0%nat
  = (inl (mkApprovalResult None true), mkWalletManager None, 3%nat, []).
Proof.
  apply (@approval_skipped_when_allowance_suffices nat ledgerAt9 sends encodes reverts
           noSymbol ownerIs allows500 fromDigits "0xproxy" "500" "0xtoken"
           (mkWalletManager None) 0%nat "0xowner" 2%nat 3%nat 500 500
           eq_refl eq_refl eq_refl eq_refl eq_refl (Z.le_refl 500)).
Defined.

(** X26.  Once the approval transaction has been sent with nonce [n], the
    cached nonce is [n + 1] whatever the confirmation brings.  A receipt
    with a non-zero status gives the receipt's hash; a receipt with status
    0, a timeout of the wait or a failure of the provider makes the
    approval throw, and the cached nonce still stays [n + 1]: it is not
    reset. *)
Theorem approval_sent_consumes_one_nonce :
  forall (W : Type) (getTransactionCount : W -> (Z + Thrown) * W)
         (walletSend : string -> string -> Z -> W -> (string + Thrown) * W)
         (encodeApprove : string -> string + Thrown)
         (race : string -> W -> Raced * W)
         (symbol getAddress : W -> (string + Thrown) * W)
         (allowance : string -> string -> W -> (Z + Thrown) * W)
         (bigNumberFrom : string -> Z + Thrown)
         (exchangeProxy amount token : string) (w : W)
         (owner : string) (w2 w3 w4 w5 : W) (currentAllowance requiredAmount n : Z)
         (data hash : string) (raced : Raced),
    invalidAddress exchangeProxy = false -> invalidAddress token = false ->
    getAddress (snd (symbol w)) = (inl owner, w2) ->
    allowance owner exchangeProxy w2 = (inl currentAllowance, w3) ->
    bigNumberFrom amount = inl requiredAmount ->
    currentAllowance < requiredAmount ->
    encodeApprove exchangeProxy = inl data ->
    walletSend token data n w3 = (inl hash, w4) ->
    race hash w4 = (raced, w5) ->
    exists result,
      approveTokenToExchangeProxy getTransactionCount walletSend encodeApprove race
        symbol
        getAddress allowance bigNumberFrom exchangeProxy amount token
        (mkWalletManager (Some n)) w
      = (result, mkWalletManager (Some (n + 1)), w5, [Invoke n])
      /\ match raced with
         | Confirmed receipt =>
             if Z.eqb (status receipt) 0
             then result = inr (Error (append "Transaction failed: " hash))
             else result
                  = inl (mkApprovalResult (Some (transactionHash receipt)) false)
         | TimedOut => result = inr (Error "Transaction confirmation timeout")
         | ProviderFailed e => result = inr e
         end.
Proof.
  intros W getTC walletSend encodeApprove race symbol getAddress allowance bigNumberFrom
         exchangeProxy amount token w owner w2 w3 w4 w5 cur req n data hash raced
         Hp Ht Hown Hall Hreq Hlt Hdata Hsend Hrace.
  unfold approveTokenToExchangeProxy. rewrite Hp, Ht, Hown, Hall, Hreq.
  assert (Hle : Z.leb req cur = false) by (apply Z.leb_gt; exact Hlt).
  rewrite Hle, Hdata. unfold sendTransaction, executeTransaction, invoke. simpl.
  rewrite Hsend. simpl. unfold waitForTransaction. rewrite Hrace.
  destruct raced as [receipt | | e].
  - destruct (Z.eqb (status receipt) 0); eexists; split; reflexivity.
  - eexists. split; reflexivity.
  - eexists. split; reflexivity.
Qed.

Lemma approval_sent_consumes_one_nonce_witness :
  approveTokenToExchangeProxy ledgerAt9 sends encodes reverts noSymbol ownerIs allows500
    fromDigits "0xproxy" "501" "0xtoken" (mkWalletManager (Some 4)) 0%nat
  = (inr (Error "Transaction failed: 0xhash"), mkWalletManager (Some 5), 5%nat,
     [Invoke 4]).
Proof.
  destruct (@approval_sent_consumes_one_nonce nat ledgerAt9 sends encodes reverts noSymbol
              ownerIs allows500 fromDigits "0xproxy" "501" "0xtoken" 0%nat
              "0xowner" 2%nat 3%nat 4%nat 5%nat 500 501 4 "approve:0xproxy"
              "0xhash" (Confirmed (mkReceipt 0 "0xhash"))
              eq_refl eq_refl eq_refl eq_refl eq_refl eq_refl eq_refl eq_refl
              eq_refl)
    as (result & Hrun & Hresult).
  simpl in Hresult. rewrite Hrun, Hresult. reflexivity.
Defined.

End ApprovalsFacts.
